(** * The audio module of softhddevice-drm-gles: a shallow embedding of audio.c

    The sample processor (channel remix, compressor, normaliser), the ring of
    audio ring buffers and the audio/video synchronisation of [audio.c] are
    rendered as Rocq functions over explicit state, and the properties the
    specification states about them are settled against these functions.

    Conventions.
    - C integers are [Z]; every conversion to a narrower or differently
      signed type is written out with the wrap-around functions of [CInt].
      Signed arithmetic that overflows is rendered by wrap-around as well;
      theorems that depend on the absence of overflow carry range hypotheses.
    - Integer division is C's truncating division, [Z.quot].
    - A sample buffer ([int16_t *]) is a [list Z] indexed from 0; a store is
      stdpp's list insert.  The callers of the sample processor size the
      buffers, so accesses are in range; out of range the model reads 0 and
      a store changes nothing.
    - Where C's behaviour is undefined because of a division by zero or an
      array index outside its bounds, the function returns [None]. *)

From Stdlib Require Import ZArith Lia List.
From stdpp Require Import base list.

Local Open Scope Z_scope.

(** ** C integer types *)

Module CInt.

Definition wrap_signed (w x : Z) : Z := (x + 2 ^ (w - 1)) mod 2 ^ w - 2 ^ (w - 1).
Definition wrap_unsigned (w x : Z) : Z := x mod 2 ^ w.

(** Plain [char] is taken as signed, 8 bits wide, as gcc has it on x86.
    Where [char] is unsigned the value read back differs by 256 for low bytes
    128..255; whether it is 0 is the same on both. *)
Definition to_char : Z -> Z := wrap_signed 8.
Definition to_int16 : Z -> Z := wrap_signed 16.
Definition to_int : Z -> Z := wrap_signed 32.
Definition to_unsigned : Z -> Z := wrap_unsigned 32.
Definition to_int64 : Z -> Z := wrap_signed 64.
Definition to_size_t : Z -> Z := wrap_unsigned 64.

Definition INT16_MIN : Z := -32768.
Definition INT16_MAX : Z := 32767.
Definition INT_MIN : Z := -2147483648.
Definition INT_MAX : Z := 2147483647.

Definition is_int16 (x : Z) : Prop := INT16_MIN <= x <= INT16_MAX.
Definition is_int (x : Z) : Prop := INT_MIN <= x <= INT_MAX.

(** C's [/] on integers truncates towards zero. *)
Definition cdiv (a b : Z) : Z := Z.quot a b.

End CInt.
Import CInt.

(** ** Sample buffers and loops *)

Definition load (b : list Z) (i : nat) : Z := default 0 (b !! i).
Definition store (b : list Z) (i : nat) (v : Z) : list Z := <[i := v]> b.

(** [for (i = start; i < start + n; ++i) body], threading the state [a]. *)
Fixpoint for_loop {A : Type} (n : nat) (i : nat) (body : nat -> A -> A) (a : A) : A :=
  match n with
  | O => a
  | S n' => for_loop n' (S i) body (body i a)
  end.

(** [memcpy(out, in, n * sizeof(int16_t))] and [memset(out, 0, n * sizeof(int16_t))]. *)
Definition memcpy_samples (out inb : list Z) (n : nat) : list Z :=
  for_loop n 0 (fun i o => store o i (load inb i)) out.
Definition memset_zero (out : list Z) (n : nat) : list Z :=
  for_loop n 0 (fun i o => store o i 0) out.

(** Hard clamping of an [int] to the [int16_t] range, as the filters do. *)
Definition clamp16 (t : Z) : Z :=
  if t <? INT16_MIN then INT16_MIN
  else if t >? INT16_MAX then INT16_MAX
  else t.

Definition AudioBytesProSample : Z := 2.

(** ** Channel remix (USE_AUDIO_MIXER) *)

Module Mixer.

Definition AudioMono2Stereo (inb : list Z) (frames : nat) (out : list Z) : list Z :=
  for_loop frames 0
    (fun i o =>
       let t := load inb i in
       store (store o (i * 2 + 0) (to_int16 t)) (i * 2 + 1) (to_int16 t))
    out.

(** [for (i = 0; i < frames; i += 2) out[i / 2] = (in[i] + in[i + 1]) / 2;]
    The fuel bounds the number of iterations; [frames] iterations are
    more than the loop makes. *)
Fixpoint AudioStereo2Mono_loop (fuel : nat) (i frames : nat) (inb out : list Z)
  : list Z :=
  match fuel with
  | O => out
  | S fuel' =>
      if (i <? frames)%nat then
        AudioStereo2Mono_loop fuel' (i + 2) frames inb
          (store out (i / 2) (to_int16 (cdiv (load inb (i + 0) + load inb (i + 1)) 2)))
      else out
  end.

Definition AudioStereo2Mono (inb : list Z) (frames : nat) (out : list Z) : list Z :=
  AudioStereo2Mono_loop frames 0 frames inb out.

(** The body of the [switch (in_chan)] of AudioSurround2Stereo for the
    frame starting at [inb[p]]: the weighted sums [l] and [r], or [None]
    for the [default: abort()] branch. *)
Definition AudioSurround2Stereo_mix (in_chan : Z) (inb : list Z) (p : nat)
  : option (Z * Z) :=
  let s k := load inb (p + k) in
  match in_chan with
  | 3 => Some (s 0%nat * 600 + s 2%nat * 400, s 1%nat * 600 + s 2%nat * 400)
  | 4 => Some (s 0%nat * 600 + s 2%nat * 400, s 1%nat * 600 + s 3%nat * 400)
  | 5 => Some (s 0%nat * 500 + s 2%nat * 200 + s 4%nat * 300,
               s 1%nat * 500 + s 3%nat * 200 + s 4%nat * 300)
  | 6 => Some (s 0%nat * 400 + s 2%nat * 200 + s 4%nat * 300 + s 5%nat * 100,
               s 1%nat * 400 + s 3%nat * 200 + s 4%nat * 300 + s 5%nat * 100)
  | 7 => Some (s 0%nat * 400 + s 2%nat * 200 + s 4%nat * 300 + s 5%nat * 100,
               s 1%nat * 400 + s 3%nat * 200 + s 4%nat * 300 + s 6%nat * 100)
  | 8 => Some (s 0%nat * 400 + s 2%nat * 150 + s 4%nat * 250 + s 5%nat * 100
               + s 6%nat * 100,
               s 1%nat * 400 + s 3%nat * 150 + s 4%nat * 250 + s 5%nat * 100
               + s 7%nat * 100)
  | _ => None
  end.

(** [while (frames--)]: [p] is the offset of [in], [q] the offset of [out]. *)
Fixpoint AudioSurround2Stereo_loop (frames : nat) (in_chan : Z) (inb : list Z)
    (p q : nat) (out : list Z) : option (list Z) :=
  match frames with
  | O => Some out
  | S frames' =>
      match AudioSurround2Stereo_mix in_chan inb p with
      | None => None
      | Some (l, r) =>
          AudioSurround2Stereo_loop frames' in_chan inb
            (p + Z.to_nat in_chan) (q + 2)
            (store (store out (q + 0) (to_int16 (cdiv l 1000)))
                   (q + 1) (to_int16 (cdiv r 1000)))
      end
  end.

Definition AudioSurround2Stereo (inb : list Z) (in_chan : Z) (frames : nat)
    (out : list Z) : option (list Z) :=
  AudioSurround2Stereo_loop frames in_chan inb 0 0 out.

(** One frame of AudioUpmix: copy the existing channels, silence the
    missing ones. *)
Definition AudioUpmix_frame (in_chan out_chan : nat) (inb : list Z) (p q : nat)
    (out : list Z) : list Z :=
  let copied :=
    for_loop in_chan 0 (fun i o => store o (q + i) (load inb (p + i))) out in
  for_loop (out_chan - in_chan) in_chan (fun i o => store o (q + i) 0) copied.

Fixpoint AudioUpmix_loop (frames : nat) (in_chan out_chan : nat) (inb : list Z)
    (p q : nat) (out : list Z) : list Z :=
  match frames with
  | O => out
  | S frames' =>
      AudioUpmix_loop frames' in_chan out_chan inb
        (p + in_chan) (q + Nat.max in_chan out_chan)
        (AudioUpmix_frame in_chan out_chan inb p q out)
  end.

Definition AudioUpmix (inb : list Z) (in_chan : Z) (frames : nat) (out : list Z)
    (out_chan : Z) : list Z :=
  AudioUpmix_loop frames (Z.to_nat in_chan) (Z.to_nat out_chan) inb 0 0 out.

(** What a call of AudioResample does: a conversion ran, or the
    [default] branch logged the error and wrote silence, or [abort()] was
    reached inside AudioSurround2Stereo. *)
Inductive resample_result : Type :=
| Resampled (out : list Z)
| Unsupported (out : list Z)
| Aborted.

Definition AudioResample (inb : list Z) (in_chan : Z) (frames : nat)
    (out : list Z) (out_chan : Z) : resample_result :=
  match to_int (in_chan * 8 + out_chan) with
  | 9 | 18 | 27 | 36 | 45 | 54 | 63 | 72 =>
      Resampled
        (memcpy_samples out inb (Z.to_nat (Z.of_nat frames * in_chan)))
  | 17 => Resampled (AudioStereo2Mono inb frames out)
  | 10 => Resampled (AudioMono2Stereo inb frames out)
  | 26 | 34 | 42 | 50 | 58 | 66 =>
      match AudioSurround2Stereo inb in_chan frames out with
      | Some o => Resampled o
      | None => Aborted
      end
  | 46 | 32 | 48 | 56 => Resampled (AudioUpmix inb in_chan frames out out_chan)
  | _ => Unsupported (memset_zero out (Z.to_nat (Z.of_nat frames * out_chan)))
  end.

(** The pairs the conversion cases are written for: identity, mono to
    stereo and back, surround to stereo, and the four upmixes. *)
Definition handled_pair (in_chan out_chan : Z) : bool :=
  ((1 <=? in_chan) && (in_chan <=? 8) && (in_chan =? out_chan))
  || ((in_chan =? 2) && (out_chan =? 1))
  || ((in_chan =? 1) && (out_chan =? 2))
  || ((3 <=? in_chan) && (in_chan <=? 8) && (out_chan =? 2))
  || ((in_chan =? 5) && (out_chan =? 6))
  || ((in_chan =? 3) && (out_chan =? 8))
  || ((in_chan =? 5) && (out_chan =? 8))
  || ((in_chan =? 6) && (out_chan =? 8)).

End Mixer.

(** ** Volume filters: compressor and normaliser *)

Module Filter.

(** In-place scaling of the first [n] samples by [factor / 1000] with hard
    clamping: the loop that ends AudioCompressor and AudioNormalizer. *)
Definition apply_factor (factor : Z) (samples : list Z) (n : nat) : list Z :=
  for_loop n 0
    (fun i b =>
       let t := cdiv (to_int (load b i * factor)) 1000 in
       store b i (to_int16 (clamp16 t)))
    samples.

(** *** Compressor *)

Record CompressorState : Type := {
  AudioCompressionFactor : Z;   (* current compression factor *)
  AudioMaxCompression : Z       (* max. compression factor *)
}.

(** The loudest sample among the first [n]. *)
Definition find_max_sample (samples : list Z) (n : nat) : Z :=
  for_loop n 0
    (fun i max_sample =>
       let t := Z.abs (load samples i) in
       if t >? max_sample then t else max_sample)
    0.

Definition AudioCompressor (st : CompressorState) (samples : list Z) (count : Z)
  : CompressorState * list Z :=
  let n := Z.to_nat (cdiv count AudioBytesProSample) in
  let max_sample := find_max_sample samples n in
  if max_sample >? 0 then
    let factor := cdiv (INT16_MAX * 1000) max_sample in
    let f1 :=
      cdiv (to_int (to_int (AudioCompressionFactor st * 950) + to_int (factor * 50)))
           1000 in
    let f2 := if f1 >? factor then factor else f1 in
    let f3 := if f2 >? AudioMaxCompression st then AudioMaxCompression st else f2 in
    ({| AudioCompressionFactor := f3;
        AudioMaxCompression := AudioMaxCompression st |},
     apply_factor f3 samples n)
  else (st, samples).

(** The peak absolute sample magnitude of a block. *)
Definition peak_magnitude (samples : list Z) : Z :=
  fold_left (fun m s => Z.max m (Z.abs s)) samples 0.

Definition AudioResetCompressor (st : CompressorState) : CompressorState :=
  {| AudioCompressionFactor :=
       if 2000 >? AudioMaxCompression st then AudioMaxCompression st else 2000;
     AudioMaxCompression := AudioMaxCompression st |}.

(** *** Normaliser *)

Definition AudioNormSamples : Z := 4096.
Definition AudioNormMaxIndex : Z := 128.
Definition AudioMinNormalize : Z := 100.

Record NormalizerState : Type := {
  AudioNormAverage : list Z;    (* uint32_t [AudioNormMaxIndex] *)
  AudioNormIndex : Z;           (* index into average table *)
  AudioNormReady : Z;           (* index counter *)
  AudioNormCounter : Z;         (* sample counter *)
  AudioNormalizeFactor : Z;     (* current normalize factor *)
  AudioMaxNormalize : Z         (* max. normalize factor *)
}.

(** [for (i = 0; i < n; ++i) { t = data[i]; avg += (t * t) / AudioNormSamples; }]
    with [data] at offset [off] of the sample buffer; [avg] is a [uint32_t]. *)
Definition accumulate (data : list Z) (off n : nat) (avg : Z) : Z :=
  for_loop n 0
    (fun i a =>
       let t := load data (off + i) in
       to_unsigned (a + cdiv (to_int (t * t)) AudioNormSamples))
    avg.

(** [avg = 0; for (i = 0; i < AudioNormMaxIndex; ++i) avg += AudioNormAverage[i] / AudioNormMaxIndex;] *)
Definition history_mean (avgs : list Z) : Z :=
  for_loop (Z.to_nat AudioNormMaxIndex) 0
    (fun i a => to_unsigned (a + cdiv (load avgs i) AudioNormMaxIndex))
    0.

(** [(uint32_t) sqrt(avg)]: [avg] is below 2^32, so the double holds it
    exactly and the correctly rounded root truncates to the integer root. *)
Definition sqrt_uint32 (avg : Z) : Z := to_unsigned (Z.sqrt avg).

(** The new normalise factor computed when a block is complete and the
    history is full ([avg > 0] branch). *)
Definition smooth_normalize (old avg max_normalize : Z) : Z :=
  let factor := to_int (cdiv (to_unsigned (cdiv INT16_MAX 8 * 1000)) (sqrt_uint32 avg)) in
  let f1 := cdiv (to_int (to_int (old * 500) + to_int (factor * 500))) 1000 in
  let f2 := if f1 <? AudioMinNormalize then AudioMinNormalize else f1 in
  if f2 >? max_normalize then max_normalize else f2.

(** The body of [if (AudioNormCounter >= AudioNormSamples)]. *)
Definition block_complete (st : NormalizerState) : NormalizerState :=
  let '(ready, factor) :=
    if AudioNormReady st <? AudioNormMaxIndex then
      (AudioNormReady st + 1, AudioNormalizeFactor st)
    else
      let avg := history_mean (AudioNormAverage st) in
      if avg >? 0 then
        (AudioNormReady st,
         smooth_normalize (AudioNormalizeFactor st) avg (AudioMaxNormalize st))
      else (AudioNormReady st, AudioNormalizeFactor st) in
  let index := Z.rem (AudioNormIndex st + 1) AudioNormMaxIndex in
  {| AudioNormAverage := store (AudioNormAverage st) (Z.to_nat index) 0;
     AudioNormIndex := index;
     AudioNormReady := ready;
     AudioNormCounter := 0;
     AudioNormalizeFactor := factor;
     AudioMaxNormalize := AudioMaxNormalize st |}.

(** One turn of the [do { ... } while (l > 0)] loop: [off] is the offset of
    [data] in the sample buffer, [l] the number of samples left.  Returns
    the state, the new offset and the new [l]. *)
Definition normalizer_turn (st : NormalizerState) (samples : list Z) (off : nat) (l : Z)
  : NormalizerState * nat * Z :=
  let n :=
    if AudioNormCounter st + l >? AudioNormSamples
    then AudioNormSamples - AudioNormCounter st else l in
  let index := Z.to_nat (AudioNormIndex st) in
  let avg := accumulate samples off (Z.to_nat n) (load (AudioNormAverage st) index) in
  let st1 :=
    {| AudioNormAverage := store (AudioNormAverage st) index avg;
       AudioNormIndex := AudioNormIndex st;
       AudioNormReady := AudioNormReady st;
       AudioNormCounter := AudioNormCounter st + n;
       AudioNormalizeFactor := AudioNormalizeFactor st;
       AudioMaxNormalize := AudioMaxNormalize st |} in
  let st2 :=
    if AudioNormCounter st1 >=? AudioNormSamples then block_complete st1 else st1 in
  (st2, (off + Z.to_nat n)%nat, l - n).

(** The [do ... while] loop; [None] when the fuel does not suffice. *)
Fixpoint AudioNormalizer_loop (fuel : nat) (st : NormalizerState) (samples : list Z)
    (off : nat) (l : Z) : option NormalizerState :=
  match fuel with
  | O => None
  | S fuel' =>
      let '(st', off', l') := normalizer_turn st samples off l in
      if l' >? 0 then AudioNormalizer_loop fuel' st' samples off' l' else Some st'
  end.

(** Every turn with [l > 0] consumes a sample when the sample counter is
    below the block size, so [l + 1] turns end the loop. *)
Definition AudioNormalizer (st : NormalizerState) (samples : list Z) (count : Z)
  : option (NormalizerState * list Z) :=
  let l := cdiv count AudioBytesProSample in
  match AudioNormalizer_loop (S (Z.to_nat l)) st samples 0 l with
  | None => None
  | Some st' =>
      Some (st', apply_factor (AudioNormalizeFactor st') samples
                   (Z.to_nat (cdiv count AudioBytesProSample)))
  end.

(** Successive calls of AudioNormalizer, each on a buffer of whole samples:
    the final state and the processed buffers. *)
Fixpoint AudioNormalizer_calls (st : NormalizerState) (calls : list (list Z))
  : option (NormalizerState * list (list Z)) :=
  match calls with
  | [] => Some (st, [])
  | samples :: rest =>
      match AudioNormalizer st samples (2 * Z.of_nat (length samples)) with
      | None => None
      | Some (st', out) =>
          match AudioNormalizer_calls st' rest with
          | None => None
          | Some (st'', outs) => Some (st'', out :: outs)
          end
      end
  end.

(** The block average [avg] after the samples of [block] are added: every
    sample contributes its square over the block size. *)
Definition energy_sum (avg : Z) (block : list Z) : Z :=
  fold_left (fun a t => a + cdiv (t * t) AudioNormSamples) block avg.

(** The mean of the block averages of the history. *)
Definition mean_energy (avgs : list Z) : Z :=
  fold_left (fun a e => a + cdiv e AudioNormMaxIndex) avgs 0.

(** The factor that brings the root of the mean energy to an eighth of
    full scale, in per mille. *)
Definition normalize_target (mean : Z) : Z :=
  cdiv (cdiv INT16_MAX 8 * 1000) (Z.sqrt mean).

(** One turn of the normaliser in the specification's words, for the
    samples [block] that the turn takes (they do not reach beyond the end of
    the current block): their energy is added to the current entry of the
    history; if that completes the block of [AudioNormSamples] samples, the
    index moves on cyclically and the next entry is cleared, and while the
    history is not yet full the ready counter counts the block, whereas
    with a full history and a positive mean energy the factor becomes the
    50/50 blend of the previous factor and the target factor, clamped to
    [AudioMinNormalize] from below and then to [AudioMaxNormalize] from
    above. *)
Definition normalizer_step (st : NormalizerState) (block : list Z) : NormalizerState :=
  let index := Z.to_nat (AudioNormIndex st) in
  let history :=
    <[index := energy_sum (load (AudioNormAverage st) index) block]>
      (AudioNormAverage st) in
  if AudioNormCounter st + Z.of_nat (length block) <? AudioNormSamples then
    {| AudioNormAverage := history;
       AudioNormIndex := AudioNormIndex st;
       AudioNormReady := AudioNormReady st;
       AudioNormCounter := AudioNormCounter st + Z.of_nat (length block);
       AudioNormalizeFactor := AudioNormalizeFactor st;
       AudioMaxNormalize := AudioMaxNormalize st |}
  else
    let next := (AudioNormIndex st + 1) mod AudioNormMaxIndex in
    let mean := mean_energy history in
    {| AudioNormAverage := <[Z.to_nat next := 0]> history;
       AudioNormIndex := next;
       AudioNormReady :=
         if AudioNormReady st <? AudioNormMaxIndex
         then AudioNormReady st + 1 else AudioNormReady st;
       AudioNormCounter := 0;
       AudioNormalizeFactor :=
         if (AudioNormMaxIndex <=? AudioNormReady st) && (0 <? mean) then
           Z.min (Z.max (cdiv (500 * AudioNormalizeFactor st
                               + 500 * normalize_target mean) 1000)
                        AudioMinNormalize)
                 (AudioMaxNormalize st)
         else AudioNormalizeFactor st;
       AudioMaxNormalize := AudioMaxNormalize st |}.

(** A list cut into pieces of [n] samples, the last one as long as the
    rest; [fuel] bounds the number of pieces. *)
Fixpoint chunks (fuel n : nat) (l : list Z) : list (list Z) :=
  match fuel with
  | O => []
  | S fuel' =>
      match l with
      | [] => []
      | _ => take n l :: chunks fuel' n (drop n l)
      end
  end.

(** The buffer of a call cut at the block boundaries: first what is still
    missing in the current block, then blocks of [AudioNormSamples] samples,
    the last piece as long as the rest.  A call has its first piece also
    when that is empty. *)
Definition blocks_of (st : NormalizerState) (samples : list Z) : list (list Z) :=
  let first := Z.to_nat (AudioNormSamples - AudioNormCounter st) in
  take first samples
  :: chunks (length samples) (Z.to_nat AudioNormSamples) (drop first samples).

(** The normaliser's variables after a call in the specification's words:
    one step for every piece of the buffer, in their order. *)
Definition normalizer_blocks (st : NormalizerState) (samples : list Z)
  : NormalizerState :=
  fold_left normalizer_step (blocks_of st samples) st.

(** What the normaliser keeps true of its variables between calls: the
    history has its 128 entries, index and sample counter are inside the
    history and the block, no entry exceeds what 4096 squares of 16-bit
    samples add up to, the entry being filled holds at most what the samples
    counted so far can have added, and the factors are per-mille values
    whose product with a sample fits an [int]. *)
Definition norm_inv (st : NormalizerState) : Prop :=
  length (AudioNormAverage st) = Z.to_nat AudioNormMaxIndex
  /\ 0 <= AudioNormIndex st < AudioNormMaxIndex
  /\ 0 <= AudioNormCounter st < AudioNormSamples
  /\ Forall (fun a => 0 <= a <= 2 ^ 30) (AudioNormAverage st)
  /\ load (AudioNormAverage st) (Z.to_nat (AudioNormIndex st))
     <= AudioNormCounter st * 2 ^ 18
  /\ 0 <= AudioNormalizeFactor st <= 65535
  /\ 0 <= AudioMaxNormalize st <= 65535.

(** The number of samples a turn of the loop takes. *)
Definition turn_samples (st : NormalizerState) (l : Z) : Z :=
  Z.min l (AudioNormSamples - AudioNormCounter st).

(** The state of the normaliser while it has seen nothing but silence
    since its reset. *)
Definition silent_inv (st : NormalizerState) : Prop :=
  Forall (fun a => a = 0) (AudioNormAverage st)
  /\ 0 <= AudioNormCounter st < AudioNormSamples
  /\ AudioNormalizeFactor st = 1000.

(** The normaliser's variables at program start (static storage is zero),
    with a maximum factor as AudioSetNormalize would set it. *)
Definition normalizer_start : NormalizerState :=
  {| AudioNormAverage := replicate (Z.to_nat AudioNormMaxIndex) 0;
     AudioNormIndex := 0;
     AudioNormReady := 0;
     AudioNormCounter := 0;
     AudioNormalizeFactor := 0;
     AudioMaxNormalize := 2000 |}.

(** A normaliser with a full history of equal block averages, one sample
    short of completing the current block. *)
Definition normalizer_full : NormalizerState :=
  {| AudioNormAverage := replicate (Z.to_nat AudioNormMaxIndex) 1280000;
     AudioNormIndex := 0;
     AudioNormReady := 128;
     AudioNormCounter := 4095;
     AudioNormalizeFactor := 1000;
     AudioMaxNormalize := 2000 |}.

(** A block of silence: [AudioNormSamples] zero samples. *)
Definition silent_block : list Z := replicate (Z.to_nat AudioNormSamples) 0.

Definition AudioResetNormalizer (st : NormalizerState) : NormalizerState :=
  {| AudioNormAverage :=
       for_loop (Z.to_nat AudioNormMaxIndex) 0 (fun i a => store a i 0)
         (AudioNormAverage st);
     AudioNormIndex := AudioNormIndex st;
     AudioNormReady := 0;
     AudioNormCounter := 0;
     AudioNormalizeFactor := 1000;
     AudioMaxNormalize := AudioMaxNormalize st |}.

End Filter.

(** ** The ring of audio ring buffers *)

Module Ring.

(** Modelled from the spec: ringbuffer.c is not among the sources.  The
    spec describes a fixed-capacity byte ring buffer that owns its storage
    and whose read pointer is advanced by a byte count capped at the
    available bytes; these claims need its positions and fill level only. *)
Record RingBuffer : Type := {
  Size : Z;           (* capacity in bytes *)
  ReadPointer : Z;    (* offset of the next byte to read *)
  WritePointer : Z;   (* offset of the next byte to write *)
  Filled : Z          (* bytes buffered *)
}.

(** Modelled from the spec: RingBufferNew gives an empty buffer of a capacity. *)
Definition RingBufferNew (size : Z) : RingBuffer :=
  {| Size := size; ReadPointer := 0; WritePointer := 0; Filled := 0 |}.

(** Modelled from the spec: RingBufferReset empties the buffer, keeping its storage. *)
Definition RingBufferReset (rb : RingBuffer) : RingBuffer :=
  {| Size := Size rb; ReadPointer := 0; WritePointer := 0; Filled := 0 |}.

(** Modelled from the spec: RingBufferUsedBytes is the number of bytes buffered. *)
Definition RingBufferUsedBytes (rb : RingBuffer) : Z := Filled rb.

(** Modelled from the spec: RingBufferReadAdvance moves the read pointer
    forward by [cnt] bytes, capped at the bytes buffered, and returns the
    number of bytes skipped. *)
Definition RingBufferReadAdvance (rb : RingBuffer) (cnt : Z) : RingBuffer * Z :=
  let cnt' := if cnt >? Filled rb then Filled rb else cnt in
  ({| Size := Size rb;
      ReadPointer := (ReadPointer rb + cnt') mod Size rb;
      WritePointer := WritePointer rb;
      Filled := Filled rb - cnt' |},
   cnt').

Definition AUDIO_RING_MAX : Z := 8.
Definition AudioRingBufferSize : Z := 3 * 5 * 7 * 8 * 2 * 1000.

(** The "no timestamp" value, [INT64_C(0x8000000000000000)] as an [int64_t]. *)
Definition AV_NOPTS : Z := to_int64 (2 ^ 63).

Record AudioRingRing : Type := {
  FlushBuffers : bool;    (* flag: flush buffers *)
  Passthrough : Z;        (* flag: use pass-through *)
  PacketSize : Z;         (* packet size *)
  HwSampleRate : Z;       (* hardware sample rate in Hz *)
  HwChannels : Z;         (* hardware number of channels *)
  InSampleRate : Z;       (* input sample rate in Hz *)
  InChannels : Z;         (* input number of channels *)
  PTS : Z;                (* pts clock *)
  Buffer : RingBuffer     (* sample ring buffer *)
}.

(** The module's variables that the ring and the synchronisation use. *)
Record AudioState : Type := {
  AudioRing : list AudioRingRing;       (* AudioRing[AUDIO_RING_MAX] *)
  AudioRingWrite : Z;                   (* audio ring write pointer *)
  AudioRingRead : Z;                    (* audio ring read pointer *)
  AudioRingFilled : Z;                  (* how many of the ring is used *)
  AudioStartThreshold : Z;              (* start play, if filled *)
  AudioRunning : bool;                  (* thread running / stopped *)
  AudioVideoIsReady : bool;             (* video ready start early *)
  AudioSkip : Z;                        (* skip audio to sync to video *)
  AudioBufferTime : Z;                  (* audio buffer time in ms *)
  VideoAudioDelay : Z;                  (* imported audio/video delay *)
  AudioThread : bool;                   (* the play thread exists *)
  AudioChannelMatrix : list (list Z)    (* [AudioRatesMax][9] *)
}.

(** A slot that has never been set up (static storage is zero). *)
Definition zero_slot : AudioRingRing :=
  {| FlushBuffers := false; Passthrough := 0; PacketSize := 0;
     HwSampleRate := 0; HwChannels := 0; InSampleRate := 0; InChannels := 0;
     PTS := 0; Buffer := RingBufferNew 0 |}.

(** [AudioRing[i]]; the ring indices only change by [(i + 1) % AUDIO_RING_MAX]
    and stay inside the array. *)
Definition slot (st : AudioState) (i : Z) : AudioRingRing :=
  default zero_slot (AudioRing st !! Z.to_nat i).

Definition set_slot (st : AudioState) (i : Z) (r : AudioRingRing) : list AudioRingRing :=
  <[Z.to_nat i := r]> (AudioRing st).

(** rates tables (must be sorted by frequency) *)
Definition AudioRatesTable : list Z := [44100; 48000; 192000].

(** The search of AudioRingAdd over the rates table from index [u]: the
    index of the entry equal to [sample_rate], or [None] when the loop ends
    or breaks at a larger entry. *)
Fixpoint search_rate (table : list Z) (u : nat) (sample_rate : Z) : option nat :=
  match table with
  | [] => None
  | rate :: rest =>
      if rate =? sample_rate then Some u
      else if rate >? sample_rate then None
      else search_rate rest (S u) sample_rate
  end.

(** [AudioChannelMatrix[u][channels]]; [None] outside the array. *)
Definition matrix_entry (m : list (list Z)) (u : nat) (channels : Z) : option Z :=
  if channels <? 0 then None
  else match m !! u with
       | Some row => row !! Z.to_nat channels
       | None => None
       end.

(** The three ways AudioRingAdd returns -1, told apart by the error they log. *)
Inductive ring_add_error : Type :=
| UnsupportedRate        (* "audio: %dHz sample-rate unsupported" *)
| UnsupportedChannels    (* "audio: %d channels unsupported" *)
| OutOfRingBuffers.      (* "audio: out of ring buffers" *)

Inductive ring_add_result : Type :=
| RingAddOk
| RingAddError (e : ring_add_error).

Definition retval (r : ring_add_result) : Z :=
  match r with
  | RingAddOk => 0
  | RingAddError _ => -1
  end.

Definition AudioRingAdd (st : AudioState) (sample_rate channels passthrough : Z)
  : option (ring_add_result * AudioState) :=
  match search_rate AudioRatesTable 0 sample_rate with
  | None => Some (RingAddError UnsupportedRate, st)
  | Some u =>
      match matrix_entry (AudioChannelMatrix st) u channels with
      | None => None
      | Some hw_channels =>
          if hw_channels =? 0 then Some (RingAddError UnsupportedChannels, st)
          else if AudioRingFilled st =? AUDIO_RING_MAX
          then Some (RingAddError OutOfRingBuffers, st)
          else
            let write := Z.rem (AudioRingWrite st + 1) AUDIO_RING_MAX in
            let ring :=
              {| FlushBuffers := false;
                 Passthrough := to_char passthrough;
                 PacketSize := 0;
                 HwSampleRate := sample_rate;
                 HwChannels := to_unsigned hw_channels;
                 InSampleRate := sample_rate;
                 InChannels := to_unsigned channels;
                 PTS := AV_NOPTS;
                 Buffer := RingBufferReset (Buffer (slot st write)) |} in
            Some (RingAddOk,
                  {| AudioRing := set_slot st write ring;
                     AudioRingWrite := write;
                     AudioRingRead := AudioRingRead st;
                     AudioRingFilled := AudioRingFilled st + 1;
                     AudioStartThreshold := AudioStartThreshold st;
                     AudioRunning := if AudioThread st then true else AudioRunning st;
                     AudioVideoIsReady := AudioVideoIsReady st;
                     AudioSkip := AudioSkip st;
                     AudioBufferTime := AudioBufferTime st;
                     VideoAudioDelay := VideoAudioDelay st;
                     AudioThread := AudioThread st;
                     AudioChannelMatrix := AudioChannelMatrix st |})
      end
  end.

(** A sequence of AudioRingAdd calls with nothing else in between: the
    result of every call with the state it leaves. *)
Record ring_add_call : Type := {
  call_sample_rate : Z;
  call_channels : Z;
  call_passthrough : Z
}.

Fixpoint AudioRingAdd_calls (st : AudioState) (calls : list ring_add_call)
  : option (list (ring_add_result * AudioState)) :=
  match calls with
  | [] => Some []
  | c :: rest =>
      match AudioRingAdd st (call_sample_rate c) (call_channels c) (call_passthrough c) with
      | None => None
      | Some (r, st') =>
          match AudioRingAdd_calls st' rest with
          | None => None
          | Some trace => Some ((r, st') :: trace)
          end
      end
  end.

(** The channel matrix has its [AudioRatesMax] rows of 9 entries. *)
Definition matrix_wf (m : list (list Z)) : Prop :=
  length m = length AudioRatesTable /\ Forall (fun row => length row = 9%nat) m.

(** A call whose channel count indexes inside a row of the matrix. *)
Definition valid_call (c : ring_add_call) : Prop := 0 <= call_channels c <= 8.

(** The ring has its [AUDIO_RING_MAX] slots and the write index is one of them. *)
Definition ring_wf (st : AudioState) : Prop :=
  length (AudioRing st) = Z.to_nat AUDIO_RING_MAX
  /\ 0 <= AudioRingWrite st < AUDIO_RING_MAX.

(** The module after AudioInit on hardware that takes every channel count
    at every rate: the ring is empty and no slot is set up. *)
Definition ring_start : AudioState :=
  {| AudioRing :=
       replicate (Z.to_nat AUDIO_RING_MAX)
         {| FlushBuffers := false; Passthrough := 0; PacketSize := 0;
            HwSampleRate := 0; HwChannels := 0; InSampleRate := 0; InChannels := 0;
            PTS := 0; Buffer := RingBufferNew AudioRingBufferSize |};
     AudioRingWrite := 0;
     AudioRingRead := 0;
     AudioRingFilled := 0;
     AudioStartThreshold := 0;
     AudioRunning := false;
     AudioVideoIsReady := false;
     AudioSkip := 0;
     AudioBufferTime := 336;
     VideoAudioDelay := 0;
     AudioThread := true;
     AudioChannelMatrix := replicate 3 [0; 1; 2; 3; 4; 5; 6; 7; 8] |}.

(** AudioRingInit: fresh ring buffers, nothing filled. *)
Definition AudioRingInit (st : AudioState) : AudioState :=
  {| AudioRing :=
       for_loop (Z.to_nat AUDIO_RING_MAX) 0
         (fun i ring =>
            match ring !! i with
            | Some r =>
                <[i := {| FlushBuffers := FlushBuffers r; Passthrough := Passthrough r;
                          PacketSize := PacketSize r; HwSampleRate := HwSampleRate r;
                          HwChannels := HwChannels r; InSampleRate := InSampleRate r;
                          InChannels := InChannels r; PTS := PTS r;
                          Buffer := RingBufferNew AudioRingBufferSize |}]> ring
            | None => ring
            end)
         (AudioRing st);
     AudioRingWrite := AudioRingWrite st;
     AudioRingRead := AudioRingRead st;
     AudioRingFilled := 0;
     AudioStartThreshold := AudioStartThreshold st;
     AudioRunning := AudioRunning st;
     AudioVideoIsReady := AudioVideoIsReady st;
     AudioSkip := AudioSkip st;
     AudioBufferTime := AudioBufferTime st;
     VideoAudioDelay := VideoAudioDelay st;
     AudioThread := AudioThread st;
     AudioChannelMatrix := AudioChannelMatrix st |}.

End Ring.

(** ** Audio clock and audio/video synchronisation *)

Module Sync.
Import Ring.

(** What the functions below see of the ALSA device: whether a PCM handle
    is open, and what [snd_pcm_delay] answers ([None] for an error return,
    otherwise the delay in frames). *)
Record AlsaState : Type := {
  AlsaPCMHandle : bool;
  snd_pcm_delay : option Z
}.

(** [HwSampleRate * HwChannels * AudioBytesProSample], an [unsigned]. *)
Definition bytes_per_second (r : AudioRingRing) : Z :=
  to_unsigned (to_unsigned (HwSampleRate r * HwChannels r) * AudioBytesProSample).

Definition AlsaGetDelay (alsa : AlsaState) (st : AudioState) : Z :=
  let r := slot st (AudioRingRead st) in
  if negb (AlsaPCMHandle alsa) || (HwSampleRate r =? 0) then 0
  else
    let delay := match snd_pcm_delay alsa with Some d => d | None => 0 end in
    let delay := if delay <? 0 then 0 else delay in
    cdiv (to_int64 (to_int64 (delay * 90) * 1000)) (HwSampleRate r).

Definition AudioGetDelay (alsa : AlsaState) (st : AudioState) : option Z :=
  let r := slot st (AudioRingRead st) in
  if negb (AudioRunning st) then Some 0             (* audio not running *)
  else if HwSampleRate r =? 0 then Some 0           (* audio not setup *)
  else if negb (AudioRingFilled st =? 0) then Some 0  (* multiple buffers *)
  else
    let pts := AlsaGetDelay alsa st in
    if bytes_per_second r =? 0 then None
    else
      let used := to_int64 (RingBufferUsedBytes (Buffer r)) in
      Some (to_int64 (pts + cdiv (to_int64 (to_int64 (used * 90) * 1000))
                                 (bytes_per_second r))).

Definition AudioGetClock (alsa : AlsaState) (st : AudioState) : option Z :=
  let r := slot st (AudioRingRead st) in
  if negb (PTS r =? AV_NOPTS) then
    match AudioGetDelay alsa st with
    | None => None
    | Some delay =>
        if negb (delay =? 0) then Some (to_int64 (PTS r + 0 * 90 - delay))
        else Some AV_NOPTS
    end
  else Some AV_NOPTS.

Definition set_video_ready (st : AudioState) (ring : list AudioRingRing)
    (skip : Z) (running : bool) : AudioState :=
  {| AudioRing := ring;
     AudioRingWrite := AudioRingWrite st;
     AudioRingRead := AudioRingRead st;
     AudioRingFilled := AudioRingFilled st;
     AudioStartThreshold := AudioStartThreshold st;
     AudioRunning := running;
     AudioVideoIsReady := true;
     AudioSkip := skip;
     AudioBufferTime := AudioBufferTime st;
     VideoAudioDelay := VideoAudioDelay st;
     AudioThread := AudioThread st;
     AudioChannelMatrix := AudioChannelMatrix st |}.

Definition with_buffer (r : AudioRingRing) (rb : RingBuffer) : AudioRingRing :=
  {| FlushBuffers := FlushBuffers r; Passthrough := Passthrough r;
     PacketSize := PacketSize r; HwSampleRate := HwSampleRate r;
     HwChannels := HwChannels r; InSampleRate := InSampleRate r;
     InChannels := InChannels r; PTS := PTS r; Buffer := rb |}.

(** [audio_pts] of AudioVideoReady: the subtraction is done in [size_t]
    and stored into an [int64_t]. *)
Definition audio_pts_of (r : AudioRingRing) (used : Z) : Z :=
  to_int64 (to_size_t (PTS r - cdiv (to_size_t (to_size_t (used * 90) * 1000))
                                    (bytes_per_second r))).

(** The [int skip] that AudioVideoReady computes first, in 90 kHz ticks. *)
Definition skip_ticks (st : AudioState) (pts audio_pts : Z) : Z :=
  to_int (to_int64 (pts - 15 * 20 * 90 - to_int (AudioBufferTime st * 90)
                    - audio_pts + VideoAudioDelay st)).

(** The same [skip] converted to bytes of the slot's hardware format. *)
Definition skip_bytes (r : AudioRingRing) (skip : Z) : Z :=
  to_int (to_int64 (to_int64 (cdiv (to_int64 (skip * HwSampleRate r)) (1000 * 90)
                              * HwChannels r)
                    * AudioBytesProSample)).

Definition AudioVideoReady (st : AudioState) (pts : Z) : option AudioState :=
  if pts =? AV_NOPTS then Some st                 (* no valid video *)
  else
    let w := slot st (AudioRingWrite st) in
    if (HwSampleRate w =? 0) || (HwChannels w =? 0) || (PTS w =? AV_NOPTS)
    then (* no valid audio known *)
      Some (set_video_ready st (AudioRing st) (AudioSkip st) (AudioRunning st))
    else if bytes_per_second w =? 0 then None
    else
      let used := to_size_t (RingBufferUsedBytes (Buffer w)) in
      let audio_pts := audio_pts_of w used in
      if negb (AudioRunning st) then
        let skip := skip_ticks st pts audio_pts in
        let '(rb, audio_skip) :=
          if (skip >? 0) && (skip <? 2000 * 90) then   (* guard against old PTS *)
            let skip := skip_bytes w skip in
            let '(skip, audio_skip) :=
              if to_unsigned skip >? used
              then (to_int used, to_int (to_size_t (skip - used)))
              else (skip, AudioSkip st) in
            (fst (RingBufferReadAdvance (Buffer w) (to_size_t skip)), audio_skip)
          else (Buffer w, AudioSkip st) in
        let used := to_size_t (RingBufferUsedBytes rb) in
        (* enough video + audio buffered *)
        let running := if AudioStartThreshold st <? used then true else AudioRunning st in
        Some (set_video_ready st (set_slot st (AudioRingWrite st) (with_buffer w rb))
                audio_skip running)
      else
        Some (set_video_ready st (AudioRing st) (AudioSkip st) (AudioRunning st)).

(** The start check of AudioEnqueue, after the samples are in the write
    slot's buffer and before the time stamp is stored: it is here that a
    skip left over by AudioVideoReady is taken from the buffer. *)
Definition AudioEnqueue_start_check (st : AudioState) : AudioState :=
  if negb (AudioRunning st) then
    let w := slot st (AudioRingWrite st) in
    let n := to_size_t (RingBufferUsedBytes (Buffer w)) in
    let skip := AudioSkip st in
    let '(rb, audio_skip) :=
      if negb (skip =? 0) then
        let skip := if n <? to_unsigned skip then to_int n else skip in
        (fst (RingBufferReadAdvance (Buffer w) (to_size_t skip)),
         to_int (AudioSkip st - skip))
      else (Buffer w, AudioSkip st) in
    let n := to_size_t (RingBufferUsedBytes rb) in
    let running :=
      if (to_unsigned (AudioStartThreshold st * 4) <? n)
         || (AudioVideoIsReady st && (AudioStartThreshold st <? n))
      then true else AudioRunning st in
    {| AudioRing := set_slot st (AudioRingWrite st) (with_buffer w rb);
       AudioRingWrite := AudioRingWrite st;
       AudioRingRead := AudioRingRead st;
       AudioRingFilled := AudioRingFilled st;
       AudioStartThreshold := AudioStartThreshold st;
       AudioRunning := running;
       AudioVideoIsReady := AudioVideoIsReady st;
       AudioSkip := audio_skip;
       AudioBufferTime := AudioBufferTime st;
       VideoAudioDelay := VideoAudioDelay st;
       AudioThread := AudioThread st;
       AudioChannelMatrix := AudioChannelMatrix st |}
  else st.

(** The sink's delay in frames as AlsaGetDelay takes it: nothing without
    a PCM handle or when [snd_pcm_delay] fails, and never negative. *)
Definition hardware_delay_frames (alsa : AlsaState) : Z :=
  if AlsaPCMHandle alsa then
    match snd_pcm_delay alsa with
    | Some d => Z.max 0 d
    | None => 0
    end
  else 0.

(** An open device that reports no delay. *)
Definition alsa_idle : AlsaState :=
  {| AlsaPCMHandle := true; snd_pcm_delay := Some 0 |}.

(** A slot set up for 48 kHz stereo with a time stamp and [used] bytes buffered. *)
Definition stereo_slot (pts used : Z) : AudioRingRing :=
  {| FlushBuffers := false; Passthrough := 0; PacketSize := 0;
     HwSampleRate := 48000; HwChannels := 2;
     InSampleRate := 48000; InChannels := 2;
     PTS := pts;
     Buffer := {| Size := AudioRingBufferSize; ReadPointer := 0;
                  WritePointer := used; Filled := used |} |}.

(** Playback running on a single slot whose buffer has just run empty. *)
Definition clock_state : AudioState :=
  {| AudioRing := <[0%nat := stereo_slot 90000 0]> (AudioRing ring_start);
     AudioRingWrite := 0;
     AudioRingRead := 0;
     AudioRingFilled := 0;
     AudioStartThreshold := 0;
     AudioRunning := true;
     AudioVideoIsReady := true;
     AudioSkip := 0;
     AudioBufferTime := 336;
     VideoAudioDelay := 0;
     AudioThread := true;
     AudioChannelMatrix := AudioChannelMatrix ring_start |}.

(** Playback not yet started, 100 ms of audio buffered in the write slot. *)
Definition sync_state : AudioState :=
  {| AudioRing := <[0%nat := stereo_slot 1000000 19200]> (AudioRing ring_start);
     AudioRingWrite := 0;
     AudioRingRead := 0;
     AudioRingFilled := 1;
     AudioStartThreshold := 64512;
     AudioRunning := false;
     AudioVideoIsReady := false;
     AudioSkip := 0;
     AudioBufferTime := 336;
     VideoAudioDelay := 0;
     AudioThread := true;
     AudioChannelMatrix := AudioChannelMatrix ring_start |}.

End Sync.

(** ** Software volume and the filter switches *)

Module Volume.
Import Filter Ring.

(** The volume variables of the module; the [char] flags keep their value. *)
Record VolumeState : Type := {
  AudioSoftVolume : Z;      (* flag use soft volume *)
  AudioMute : Z;            (* flag muted *)
  AudioAmplifier : Z;       (* software volume factor *)
  AudioStereoDescent : Z;   (* volume descent for stereo *)
  AudioVolume : Z           (* current volume (0 .. 1000) *)
}.

(** [memset(samples, 0, count)] on 16-bit samples stored low byte first,
    for [count] bytes inside the buffer: the first [count / 2] samples become
    0, and an odd [count] also clears the low byte of the sample after them. *)
Definition memset_bytes (samples : list Z) (count : Z) : list Z :=
  let n := Z.to_nat (cdiv count AudioBytesProSample) in
  let cleared := memset_zero samples n in
  if Z.odd count then store cleared n (Z.land (load cleared n) (-256))
  else cleared.

(** AudioSoftAmplifier on a buffer of [count] bytes: [memset] when muted or
    without amplification, otherwise the scaling loop over the whole samples. *)
Definition AudioSoftAmplifier (vol : VolumeState) (samples : list Z) (count : Z)
  : list Z :=
  if negb (AudioMute vol =? 0) || (AudioAmplifier vol =? 0) then
    memset_bytes samples count
  else
    apply_factor (AudioAmplifier vol) samples
      (Z.to_nat (cdiv count AudioBytesProSample)).

(** AlsaSetVolume: the value handed to both mixer channels, when there is
    a mixer element; [alsa_ratio] is [None] without one. *)
Definition AlsaSetVolume (alsa_ratio : option Z) (volume : Z) : option Z :=
  match alsa_ratio with
  | Some ratio => Some (cdiv (to_int (volume * ratio)) (1000 * 1000))
  | None => None
  end.

(** AudioSetVolume: the new volume variables and what the mixer is set to. *)
Definition AudioSetVolume (vol : VolumeState) (st : AudioState)
    (alsa_ratio : option Z) (volume : Z) : VolumeState * option Z :=
  let r := slot st (AudioRingRead st) in
  let amplifier :=
    (* reduce loudness for stereo output *)
    if negb (AudioStereoDescent vol =? 0) && (InChannels r =? 2)
       && (Passthrough r =? 0) then
      let v := to_int (volume - AudioStereoDescent vol) in
      if v <? 0 then 0 else if v >? 1000 then 1000 else v
    else volume in
  ({| AudioSoftVolume := AudioSoftVolume vol;
      AudioMute := if volume =? 0 then 1 else 0;
      AudioAmplifier := amplifier;
      AudioStereoDescent := AudioStereoDescent vol;
      AudioVolume := volume |},
   if AudioSoftVolume vol =? 0 then AlsaSetVolume alsa_ratio amplifier else None).

(** AudioSetCompression on the flag [AudioCompression], a [char], and the
    compressor's variables: [onoff < 0] toggles the flag. *)
Definition AudioSetCompression (flag : Z) (st : CompressorState) (onoff maxfac : Z)
  : Z * CompressorState :=
  let flag' := to_char (if onoff <? 0 then Z.lxor flag 1 else onoff) in
  let f1 := if AudioCompressionFactor st =? 0 then 1000 else AudioCompressionFactor st in
  let f2 := if f1 >? maxfac then maxfac else f1 in
  (flag', {| AudioCompressionFactor := f2; AudioMaxCompression := maxfac |}).

End Volume.

(** ** Flush and the play thread's ring handling *)

Module RingOps.
Import Ring.

(** The two filter-graph flags that AudioFlushBuffers touches. *)
Record FilterFlags : Type := {
  FilterInit : bool;
  Filterchanged : bool
}.

Inductive flush_result : Type :=
| FlushDone
| FlushOutOfRingBuffers.      (* "audio: flush out of ring buffers" *)

(** AudioFlushBuffers as far as the calling thread changes the state; the
    play thread is taken not to run while the call polls, so that the wait
    for room ends without room when the ring is full, and the wait for the
    flush only wakes the thread. *)
Definition AudioFlushBuffers (flags : FilterFlags) (st : AudioState)
  : flush_result * FilterFlags * AudioState :=
  let flags' :=
    {| FilterInit := FilterInit flags;
       Filterchanged := if FilterInit flags then true else Filterchanged flags |} in
  if AudioRingFilled st >=? AUDIO_RING_MAX then (FlushOutOfRingBuffers, flags', st)
  else
    let old := AudioRingWrite st in
    let write := Z.rem (AudioRingWrite st + 1) AUDIO_RING_MAX in
    let ring :=
      {| FlushBuffers := true;
         Passthrough := Passthrough (slot st old);
         PacketSize := PacketSize (slot st write);
         HwSampleRate := HwSampleRate (slot st old);
         HwChannels := HwChannels (slot st old);
         InSampleRate := InSampleRate (slot st old);
         InChannels := InChannels (slot st old);
         PTS := AV_NOPTS;
         Buffer :=
           (RingBufferReadAdvance (Buffer (slot st write))
              (RingBufferUsedBytes (Buffer (slot st write)))).1 |} in
    (FlushDone, flags',
     {| AudioRing := set_slot st write ring;
        AudioRingWrite := write;
        AudioRingRead := AudioRingRead st;
        AudioRingFilled := AudioRingFilled st + 1;
        AudioStartThreshold := AudioStartThreshold st;
        AudioRunning := true;
        AudioVideoIsReady := false;
        AudioSkip := 0;
        AudioBufferTime := AudioBufferTime st;
        VideoAudioDelay := VideoAudioDelay st;
        AudioThread := AudioThread st;
        AudioChannelMatrix := AudioChannelMatrix st |}).

(** [AudioRing[read].FlushBuffers = 0; AudioRingRead = read;] *)
Definition take_flush (st : AudioState) (read : Z) : AudioState :=
  let r := slot st read in
  {| AudioRing :=
       set_slot st read
         {| FlushBuffers := false; Passthrough := Passthrough r;
            PacketSize := PacketSize r; HwSampleRate := HwSampleRate r;
            HwChannels := HwChannels r; InSampleRate := InSampleRate r;
            InChannels := InChannels r; PTS := PTS r; Buffer := Buffer r |};
     AudioRingWrite := AudioRingWrite st;
     AudioRingRead := read;
     AudioRingFilled := AudioRingFilled st;
     AudioStartThreshold := AudioStartThreshold st;
     AudioRunning := AudioRunning st;
     AudioVideoIsReady := AudioVideoIsReady st;
     AudioSkip := AudioSkip st;
     AudioBufferTime := AudioBufferTime st;
     VideoAudioDelay := VideoAudioDelay st;
     AudioThread := AudioThread st;
     AudioChannelMatrix := AudioChannelMatrix st |}.

(** The play thread's look for a flush command in the queue:
    [while (i--) { read = (read + 1) % AUDIO_RING_MAX; if (AudioRing[read].FlushBuffers) {...} }]
    with [n] turns left; returns the state and [flush]. *)
Fixpoint flush_scan_loop (n : nat) (filled i read : Z) (st : AudioState) (flush : Z)
  : AudioState * Z :=
  match n with
  | O => (st, flush)
  | S n' =>
      let i := i - 1 in
      let read := Z.rem (read + 1) AUDIO_RING_MAX in
      if FlushBuffers (slot st read)
      then flush_scan_loop n' filled i read (take_flush st read) (filled - i)
      else flush_scan_loop n' filled i read st flush
  end.

Definition set_filled (st : AudioState) (filled : Z) : AudioState :=
  {| AudioRing := AudioRing st;
     AudioRingWrite := AudioRingWrite st;
     AudioRingRead := AudioRingRead st;
     AudioRingFilled := filled;
     AudioStartThreshold := AudioStartThreshold st;
     AudioRunning := AudioRunning st;
     AudioVideoIsReady := AudioVideoIsReady st;
     AudioSkip := AudioSkip st;
     AudioBufferTime := AudioBufferTime st;
     VideoAudioDelay := VideoAudioDelay st;
     AudioThread := AudioThread st;
     AudioChannelMatrix := AudioChannelMatrix st |}.

(** The flush handling at the head of the play thread's loop, up to and
    including [atomic_sub(flush, &AudioRingFilled)]: the state and the
    number of ring buffers flushed. *)
Definition flush_scan (st : AudioState) : AudioState * Z :=
  let filled := AudioRingFilled st in
  let '(st', flush) :=
    flush_scan_loop (Z.to_nat filled) filled filled (AudioRingRead st) st 0 in
  if negb (flush =? 0) then (set_filled st' (AudioRingFilled st' - flush), flush)
  else (st', flush).

(** The play thread's step to the next ring buffer after an underrun:
    [None] when no ring buffer is pending and the thread goes to sleep,
    otherwise [atomic_dec] and the read index moves on. *)
Definition next_ring_buffer (st : AudioState) : option AudioState :=
  if AudioRingFilled st =? 0 then None
  else
    Some {| AudioRing := AudioRing st;
            AudioRingWrite := AudioRingWrite st;
            AudioRingRead := Z.rem (AudioRingRead st + 1) AUDIO_RING_MAX;
            AudioRingFilled := AudioRingFilled st - 1;
            AudioStartThreshold := AudioStartThreshold st;
            AudioRunning := AudioRunning st;
            AudioVideoIsReady := AudioVideoIsReady st;
            AudioSkip := AudioSkip st;
            AudioBufferTime := AudioBufferTime st;
            VideoAudioDelay := VideoAudioDelay st;
            AudioThread := AudioThread st;
            AudioChannelMatrix := AudioChannelMatrix st |}.

(** What relates the ring's indices to its counter: both indices are
    inside the ring, at most [AUDIO_RING_MAX] buffers are pending, and the
    write index is the pending count ahead of the read index. *)
Definition ring_inv (st : AudioState) : Prop :=
  length (AudioRing st) = Z.to_nat AUDIO_RING_MAX
  /\ 0 <= AudioRingWrite st < AUDIO_RING_MAX
  /\ 0 <= AudioRingRead st < AUDIO_RING_MAX
  /\ 0 <= AudioRingFilled st <= AUDIO_RING_MAX
  /\ (AudioRingWrite st - AudioRingRead st) mod AUDIO_RING_MAX
     = AudioRingFilled st mod AUDIO_RING_MAX.

(** The operations of producer and play thread on the ring. *)
Inductive ring_op : Type :=
| OpAdd (sample_rate channels passthrough : Z)   (* AudioRingAdd *)
| OpFlush                                        (* AudioFlushBuffers *)
| OpScan                                         (* flush handling of the thread *)
| OpNext.                                        (* next ring buffer *)

Definition valid_op (op : ring_op) : Prop :=
  match op with
  | OpAdd _ channels _ => 0 <= channels <= 8
  | _ => True
  end.

Definition ring_step (fs : FilterFlags * AudioState) (op : ring_op)
  : option (FilterFlags * AudioState) :=
  match op with
  | OpAdd sample_rate channels passthrough =>
      match AudioRingAdd fs.2 sample_rate channels passthrough with
      | Some (_, st') => Some (fs.1, st')
      | None => None
      end
  | OpFlush =>
      let '(_, flags', st') := AudioFlushBuffers fs.1 fs.2 in Some (flags', st')
  | OpScan => Some (fs.1, (flush_scan fs.2).1)
  | OpNext =>
      match next_ring_buffer fs.2 with
      | Some st' => Some (fs.1, st')
      | None => Some fs
      end
  end.

Fixpoint ring_run (fs : FilterFlags * AudioState) (ops : list ring_op)
  : option (FilterFlags * AudioState) :=
  match ops with
  | [] => Some fs
  | op :: rest =>
      match ring_step fs op with
      | Some fs' => ring_run fs' rest
      | None => None
      end
  end.

(** Seven ring buffers pending behind the one in play. *)
Definition seven_pending : AudioState :=
  {| AudioRing := AudioRing ring_start;
     AudioRingWrite := 7;
     AudioRingRead := 0;
     AudioRingFilled := 7;
     AudioStartThreshold := AudioStartThreshold ring_start;
     AudioRunning := true;
     AudioVideoIsReady := true;
     AudioSkip := 0;
     AudioBufferTime := AudioBufferTime ring_start;
     VideoAudioDelay := VideoAudioDelay ring_start;
     AudioThread := true;
     AudioChannelMatrix := AudioChannelMatrix ring_start |}.

End RingOps.

(** ** Probing the hardware: the channel matrix of AudioInit *)

Module Init.
Import Ring.

(** The tables [AudioChannelsInHw[9]] and [AudioRatesInHw[AudioRatesMax]]. *)
Record HwSupport : Type := {
  AudioChannelsInHw : list Z;
  AudioRatesInHw : list Z
}.

(** [AudioRatesInHw[u] |= (1 << chan)]; with [chan < 9] the value stays
    below [1 << 9] and no wrap is written. *)
Definition mark_rate (rates : list Z) (u chan : nat) : list Z :=
  store rates u (Z.lor (load rates u) (Z.shiftl 1 (Z.of_nat chan))).

(** The first probing loop, at 44100 Hz: every channel count from 1 to 8 is
    tried; [ok freq chan] tells that [AlsaSetup(&tfreq, &tchan, 0)] returned
    0.  AudioInit tries no pair of rate and channel count twice. *)
Definition probe_all (ok : Z -> Z -> bool) (freq : Z) (u : nat) (hw : HwSupport)
  : HwSupport :=
  for_loop 8 1
    (fun chan hw =>
       if ok freq (Z.of_nat chan) then
         {| AudioChannelsInHw := store (AudioChannelsInHw hw) chan (Z.of_nat chan);
            AudioRatesInHw := mark_rate (AudioRatesInHw hw) u chan |}
       else
         {| AudioChannelsInHw := store (AudioChannelsInHw hw) chan 0;
            AudioRatesInHw := AudioRatesInHw hw |})
    {| AudioChannelsInHw := AudioChannelsInHw hw;
       AudioRatesInHw := store (AudioRatesInHw hw) u 0 |}.

(** The later probing loops, at 48000 Hz and 192000 Hz: only the channel
    counts still in [AudioChannelsInHw] are tried, and a failure leaves the
    table as it is. *)
Definition probe_known (ok : Z -> Z -> bool) (freq : Z) (u : nat) (hw : HwSupport)
  : HwSupport :=
  for_loop 8 1
    (fun chan hw =>
       if load (AudioChannelsInHw hw) chan =? 0 then hw
       else if ok freq (Z.of_nat chan) then
         {| AudioChannelsInHw := store (AudioChannelsInHw hw) chan (Z.of_nat chan);
            AudioRatesInHw := mark_rate (AudioRatesInHw hw) u chan |}
       else hw)
    {| AudioChannelsInHw := AudioChannelsInHw hw;
       AudioRatesInHw := store (AudioRatesInHw hw) u 0 |}.

(** [AudioChannelsInHw[c]] read as a condition. *)
Definition in_hw (chans : list Z) (c : nat) : bool := negb (load chans c =? 0).

(** The [switch (chan)] for a channel count the hardware does not take: the
    value assigned to the matrix entry, [None] when no assignment is reached.
    A case whose test fails falls through into the next one; only case 1
    ends with a [break] of its own. *)
Definition convert_to (chans : list Z) (chan : nat) : option Z :=
  let case8 :=
    if in_hw chans 6 then Some 6
    else if in_hw chans 2 then Some 2
    else if in_hw chans 1 then Some 1
    else None in
  let case7 := if in_hw chans 8 then Some 8 else case8 in
  let case6 := if in_hw chans 7 then Some 7 else case7 in
  let case5 := if in_hw chans 6 then Some 6 else case6 in
  let case4 := if in_hw chans 5 then Some 5 else case5 in
  let case2 := if in_hw chans 4 then Some 4 else case4 in
  match chan with
  | 1%nat => if in_hw chans 2 then Some 2 else None
  | 2%nat | 3%nat => case2
  | 4%nat => case4
  | 5%nat => case5
  | 6%nat => case6
  | 7%nat => case7
  | 8%nat => case8
  | _ => None
  end.

(** [AudioChannelMatrix[u][chan] = v] *)
Definition set_entry (m : list (list Z)) (u chan : nat) (v : Z) : list (list Z) :=
  match m !! u with
  | Some row => <[u := store row chan v]> m
  | None => m
  end.

(** The two loops that build the channel support and conversion table. *)
Definition build_matrix (hw : HwSupport) (m : list (list Z)) : list (list Z) :=
  for_loop (length AudioRatesTable) 0
    (fun u m =>
       for_loop 8 1
         (fun chan m =>
            let m := set_entry m u chan 0 in
            if load (AudioRatesInHw hw) u =? 0 then m
            else if in_hw (AudioChannelsInHw hw) chan then
              set_entry m u chan (Z.of_nat chan)
            else
              match convert_to (AudioChannelsInHw hw) chan with
              | Some v => set_entry m u chan v
              | None => m
              end)
         m)
    m.

(** AudioInit on the tables: the three probing loops, then the matrix. *)
Definition AudioInit (ok : Z -> Z -> bool) (hw : HwSupport) (m : list (list Z))
  : HwSupport * list (list Z) :=
  let hw := probe_all ok 44100 0 hw in
  let hw := probe_known ok 48000 1 hw in
  let hw := probe_known ok 192000 2 hw in
  (hw, build_matrix hw m).

(** [AudioChannelMatrix[u][c]] as the C code reads it inside the array. *)
Definition cell (m : list (list Z)) (u c : nat) : Z := load (default [] (m !! u)) c.

(** What one turn of the inner loop leaves in [AudioChannelMatrix[u][chan]]. *)
Definition matrix_value (hw : HwSupport) (u chan : nat) : Z :=
  if load (AudioRatesInHw hw) u =? 0 then 0
  else if in_hw (AudioChannelsInHw hw) chan then Z.of_nat chan
  else default 0 (convert_to (AudioChannelsInHw hw) chan).

(** The tables of a freshly loaded module: static arrays hold zeros. *)
Definition hw_start : HwSupport :=
  {| AudioChannelsInHw := replicate 9 0; AudioRatesInHw := replicate 3 0 |}.

Definition matrix_start : list (list Z) := replicate 3 (replicate 9 0).

(** The tables have the sizes of the arrays. *)
Definition hw_wf (hw : HwSupport) : Prop :=
  length (AudioChannelsInHw hw) = 9%nat
  /\ length (AudioRatesInHw hw) = length AudioRatesTable.

(** The rate with index [u] had a channel count the hardware took, among
    those it took at 44100 Hz. *)
Definition rate_in_hw (ok : Z -> Z -> bool) (u : nat) : Prop :=
  exists c rate, 1 <= c <= 8 /\ AudioRatesTable !! u = Some rate
                 /\ ok 44100 c = true /\ ok rate c = true.

(** Hardware that takes every channel count at every rate, and hardware
    that takes stereo only. *)
Definition any_channels (freq chan : Z) : bool := true.
Definition stereo_only (freq chan : Z) : bool := chan =? 2.
(** Four channels but neither two nor three, as a quadraphonic device. *)
Definition quad_only (freq chan : Z) : bool := chan =? 4.

End Init.

(** ** The start threshold of AlsaSetup *)

Module Setup.
Import Ring.

(** The tail of AlsaSetup, from [AudioStartThreshold = snd_pcm_frames_to_bytes(...)]
    on: [period_bytes] is what [snd_pcm_frames_to_bytes] returned for the
    period size, [freq] and [channels] are [*freq] and [*channels].  The
    product is computed in [int] and divided as [unsigned]. *)
Definition AlsaSetup_threshold (st : AudioState) (period_bytes freq channels : Z) : Z :=
  let threshold := to_unsigned period_bytes in
  let delay := AudioBufferTime st in
  let delay :=
    if VideoAudioDelay st >? 0 then to_int (delay + cdiv (VideoAudioDelay st) 90)
    else delay in
  let bytes :=
    to_unsigned
      (to_int (to_int (to_int (freq * channels) * AudioBytesProSample) * delay))
    / 1000 in
  let threshold := if threshold <? bytes then bytes else threshold in
  if threshold >? AudioRingBufferSize / 3 then AudioRingBufferSize / 3
  else threshold.

(** The module after AlsaSetup has stored the threshold. *)
Definition AlsaSetup_done (st : AudioState) (period_bytes freq channels : Z)
  : AudioState :=
  {| AudioRing := AudioRing st;
     AudioRingWrite := AudioRingWrite st;
     AudioRingRead := AudioRingRead st;
     AudioRingFilled := AudioRingFilled st;
     AudioStartThreshold := AlsaSetup_threshold st period_bytes freq channels;
     AudioRunning := AudioRunning st;
     AudioVideoIsReady := AudioVideoIsReady st;
     AudioSkip := AudioSkip st;
     AudioBufferTime := AudioBufferTime st;
     VideoAudioDelay := VideoAudioDelay st;
     AudioThread := AudioThread st;
     AudioChannelMatrix := AudioChannelMatrix st |}.

(** The buffer time in ms the threshold is computed for. *)
Definition start_delay (st : AudioState) : Z :=
  AudioBufferTime st
  + (if VideoAudioDelay st >? 0 then cdiv (VideoAudioDelay st) 90 else 0).

End Setup.

(** * Properties *)

(** ** Integer conversions *)

Section CIntFacts.

Lemma wrap_signed_id (w x : Z) :
  0 < w -> - 2 ^ (w - 1) <= x < 2 ^ (w - 1) -> wrap_signed w x = x.
Proof.
  intros Hw Hx. unfold wrap_signed.
  assert (Hp : 2 ^ w = 2 * 2 ^ (w - 1)).
  { replace w with (Z.succ (w - 1)) at 1 by lia. apply Z.pow_succ_r. lia. }
  rewrite Z.mod_small; lia.
Qed.

Lemma to_int16_id (x : Z) : is_int16 x -> to_int16 x = x.
Proof.
  unfold is_int16, INT16_MIN, INT16_MAX, to_int16. intros H.
  apply wrap_signed_id; [lia|]. change (2 ^ (16 - 1)) with 32768. lia.
Qed.

Lemma to_char_id (x : Z) : -128 <= x <= 127 -> to_char x = x.
Proof.
  intros H. unfold to_char. apply wrap_signed_id; [lia|].
  change (2 ^ (8 - 1)) with 128. lia.
Qed.

Lemma to_char_zero (x : Z) : to_char x = 0 <-> x mod 256 = 0.
Proof.
  unfold to_char, wrap_signed. change (2 ^ (8 - 1)) with 128. change (2 ^ 8) with 256.
  Z.div_mod_to_equations. lia.
Qed.

Lemma to_int_id (x : Z) : is_int x -> to_int x = x.
Proof.
  unfold is_int, INT_MIN, INT_MAX, to_int. intros H.
  apply wrap_signed_id; [lia|]. change (2 ^ (32 - 1)) with 2147483648. lia.
Qed.

Lemma to_int64_id (x : Z) : - 2 ^ 63 <= x < 2 ^ 63 -> to_int64 x = x.
Proof. intros H. apply wrap_signed_id; [lia|]. exact H. Qed.

Lemma to_unsigned_id (x : Z) : 0 <= x < 2 ^ 32 -> to_unsigned x = x.
Proof. intros H. apply Z.mod_small. exact H. Qed.

Lemma to_size_t_id (x : Z) : 0 <= x < 2 ^ 64 -> to_size_t x = x.
Proof. intros H. apply Z.mod_small. exact H. Qed.

Lemma to_int16_range (x : Z) : is_int16 (to_int16 x).
Proof.
  unfold is_int16, INT16_MIN, INT16_MAX, to_int16, wrap_signed.
  change (2 ^ (16 - 1)) with 32768. change (2 ^ 16) with 65536.
  pose proof (Z.mod_pos_bound (x + 32768) 65536). lia.
Qed.

Lemma clamp16_range (t : Z) : is_int16 (clamp16 t).
Proof.
  unfold clamp16, is_int16, INT16_MIN, INT16_MAX.
  destruct (t <? -32768) eqn:E1; [lia|].
  destruct (t >? 32767) eqn:E2; lia.
Qed.

Lemma clamp16_id (t : Z) : is_int16 t -> clamp16 t = t.
Proof.
  unfold clamp16, is_int16, INT16_MIN, INT16_MAX. intros H.
  destruct (t <? -32768) eqn:E1; [lia|].
  destruct (t >? 32767) eqn:E2; lia.
Qed.

End CIntFacts.

(** ** Loops over sample buffers *)

Section LoopFacts.

Lemma load_lookup (b : list Z) (i : nat) (x : Z) : b !! i = Some x -> load b i = x.
Proof. unfold load. intros ->. reflexivity. Qed.

Lemma for_loop_length (body : nat -> list Z -> list Z) (n i : nat) (l : list Z) :
  (forall j b, length (body j b) = length b) ->
  length (for_loop n i body l) = length l.
Proof.
  intros Hb. revert i l. induction n as [|n IH]; intros i l; simpl; [reflexivity|].
  rewrite IH. apply Hb.
Qed.

(** A loop that rewrites [b[i]] from [b[i]] and [i] touches exactly the
    indices it runs over. *)
Lemma for_loop_store_lookup (h : nat -> Z -> Z) (n i0 : nat) (l : list Z) (k : nat) :
  for_loop n i0 (fun i b => store b i (h i (load b i))) l !! k
  = if decide (i0 <= k < i0 + n)%nat then h k <$> (l !! k) else l !! k.
Proof.
  revert i0 l. induction n as [|n IH]; intros i0 l; simpl.
  - destruct (decide _) as [H|H]; [lia|reflexivity].
  - rewrite IH. unfold store.
    destruct (decide (i0 = k)) as [->|Hne].
    + destruct (decide (S k <= k < S k + n)%nat) as [H|_]; [lia|].
      destruct (decide (k <= k < k + S n)%nat) as [_|H]; [|lia].
      destruct (l !! k) as [x|] eqn:E.
      * rewrite list_lookup_insert_eq by (eapply lookup_lt_Some; eauto).
        simpl. f_equal. f_equal. apply load_lookup. exact E.
      * rewrite list_insert_ge by (apply lookup_ge_None; exact E).
        rewrite E. reflexivity.
    + rewrite list_lookup_insert_ne by exact Hne.
      destruct (decide (S i0 <= k < S i0 + n)%nat) as [H1|H1];
        destruct (decide (i0 <= k < i0 + S n)%nat) as [H2|H2];
        try reflexivity; lia.
Qed.

Lemma for_loop_store_all (h : nat -> Z -> Z) (l : list Z) :
  for_loop (length l) 0 (fun i b => store b i (h i (load b i))) l
  = imap h l.
Proof.
  apply list_eq. intros k. rewrite for_loop_store_lookup, list_lookup_imap.
  destruct (decide _) as [H|H]; [reflexivity|].
  rewrite (proj2 (lookup_ge_None l k)) by lia. reflexivity.
Qed.

Lemma memset_zero_lookup (out : list Z) (n k : nat) :
  memset_zero out n !! k
  = if decide (k < n)%nat then (fun _ => 0) <$> (out !! k) else out !! k.
Proof.
  unfold memset_zero.
  rewrite (for_loop_store_lookup (fun _ _ => 0)).
  destruct (decide (0 <= k < 0 + n)%nat), (decide (k < n)%nat); try reflexivity; lia.
Qed.

Lemma memset_zero_all (out : list Z) :
  memset_zero out (length out) = replicate (length out) 0.
Proof.
  apply list_eq. intros k. rewrite memset_zero_lookup.
  destruct (decide (k < length out)%nat) as [H|H].
  - rewrite (lookup_replicate_2 _ _ _ H).
    destruct (lookup_lt_is_Some_2 out k H) as [x ->]. reflexivity.
  - rewrite (proj2 (lookup_ge_None out k)) by lia.
    symmetry. apply lookup_ge_None. rewrite length_replicate. lia.
Qed.

End LoopFacts.

(** ** Channel remix *)

Section MixerFacts.
Import Mixer.

(** Case analysis on a channel count known to lie in 1..8. *)
Ltac channel_cases c :=
  let H := fresh "Hc" in
  assert (H : c = 1 \/ c = 2 \/ c = 3 \/ c = 4 \/ c = 5 \/ c = 6 \/ c = 7 \/ c = 8)
    by lia;
  destruct H as [->|[->|[->|[->|[->|[->|[->| ->]]]]]]].

Lemma AudioSurround2Stereo_mix_some (in_chan : Z) (inb : list Z) (p : nat) :
  3 <= in_chan <= 8 -> is_Some (AudioSurround2Stereo_mix in_chan inb p).
Proof.
  intros H.
  assert (Hc : in_chan = 3 \/ in_chan = 4 \/ in_chan = 5 \/ in_chan = 6
               \/ in_chan = 7 \/ in_chan = 8) by lia.
  destruct Hc as [->|[->|[->|[->|[->| ->]]]]]; simpl; eauto.
Qed.

Lemma AudioSurround2Stereo_loop_some (in_chan : Z) (inb : list Z) (frames : nat) :
  3 <= in_chan <= 8 ->
  forall p q out, is_Some (AudioSurround2Stereo_loop frames in_chan inb p q out).
Proof.
  intros H. induction frames as [|frames IH]; intros p q out; simpl; [eauto|].
  destruct (AudioSurround2Stereo_mix_some in_chan inb p H) as [[l r] ->].
  apply IH.
Qed.

(** Mono to stereo: every input sample lands in both channels of its frame. *)
Lemma AudioMono2Stereo_loop_lookup (inb : list Z) (n i0 : nat) (out : list Z) (k : nat) :
  (2 * (i0 + n) <= length out)%nat ->
  for_loop n i0
    (fun i o =>
       let t := load inb i in
       store (store o (i * 2 + 0) (to_int16 t)) (i * 2 + 1) (to_int16 t))
    out !! k
  = if decide (2 * i0 <= k < 2 * (i0 + n))%nat
    then Some (to_int16 (load inb (k / 2)))
    else out !! k.
Proof.
  revert i0 out. induction n as [|n IH]; intros i0 out Hlen; cbn [for_loop].
  - destruct (decide _); [lia|reflexivity].
  - rewrite IH by (unfold store; rewrite !length_insert; lia).
    unfold store.
    destruct (decide (2 * S i0 <= k < 2 * (S i0 + n))%nat) as [H1|H1].
    + destruct (decide (2 * i0 <= k < 2 * (i0 + S n))%nat); [reflexivity|lia].
    + destruct (decide (2 * i0 <= k < 2 * (i0 + S n))%nat) as [H2|H2].
      * assert (Hk : k = (i0 * 2 + 0)%nat \/ k = (i0 * 2 + 1)%nat) by lia.
        destruct Hk as [->| ->].
        -- rewrite list_lookup_insert_ne by lia.
           rewrite list_lookup_insert_eq by lia.
           do 3 f_equal. rewrite Nat.add_0_r. symmetry. apply Nat.div_mul. lia.
        -- rewrite list_lookup_insert_eq by (rewrite length_insert; lia).
           do 3 f_equal. symmetry.
           rewrite Nat.add_comm, Nat.div_add by lia. reflexivity.
      * rewrite !list_lookup_insert_ne by lia. reflexivity.
Qed.

Lemma AudioMono2Stereo_duplicates (inb out : list Z) (frames i : nat) :
  (2 * frames <= length out)%nat -> (i < frames)%nat ->
  AudioMono2Stereo inb frames out !! (2 * i)%nat = Some (to_int16 (load inb i))
  /\ AudioMono2Stereo inb frames out !! (2 * i + 1)%nat = Some (to_int16 (load inb i)).
Proof.
  intros Hlen Hi. unfold AudioMono2Stereo.
  rewrite !AudioMono2Stereo_loop_lookup by (simpl; lia).
  split.
  - destruct (decide _) as [_|H]; [|lia].
    rewrite Nat.mul_comm, Nat.div_mul by lia. reflexivity.
  - destruct (decide _) as [_|H]; [|lia].
    rewrite Nat.add_comm, Nat.mul_comm, Nat.div_add by lia. reflexivity.
Qed.

(** Stereo to mono: the loop counts samples where it should count frames,
    so it never writes at or beyond [(frames + 1) / 2]. *)
Lemma AudioStereo2Mono_loop_untouched (fuel i frames : nat) (inb out : list Z) (k : nat) :
  ((frames + 1) / 2 <= k)%nat ->
  AudioStereo2Mono_loop fuel i frames inb out !! k = out !! k.
Proof.
  intros Hk. revert i out.
  induction fuel as [|fuel IH]; intros i out; cbn [AudioStereo2Mono_loop];
    [reflexivity|].
  destruct (i <? frames)%nat eqn:E; [|reflexivity].
  apply Nat.ltb_lt in E. rewrite IH. unfold store.
  apply list_lookup_insert_ne.
  assert (i / 2 < (frames + 1) / 2)%nat; [|lia].
  pose proof (Nat.div_mod_eq i 2). pose proof (Nat.div_mod_eq (frames + 1) 2).
  pose proof (Nat.mod_upper_bound i 2 ltac:(lia)).
  pose proof (Nat.mod_upper_bound (frames + 1) 2 ltac:(lia)).
  lia.
Qed.

(** 5.1 to stereo: the weights of one frame, and their sum per channel. *)
Lemma AudioSurround2Stereo_mix_6 (inb : list Z) (p : nat) :
  AudioSurround2Stereo_mix 6 inb p
  = Some (load inb (p + 0) * 400 + load inb (p + 2) * 200
          + load inb (p + 4) * 300 + load inb (p + 5) * 100,
          load inb (p + 1) * 400 + load inb (p + 3) * 200
          + load inb (p + 4) * 300 + load inb (p + 5) * 100)
  /\ 400 + 200 + 300 + 100 = 1000.
Proof. split; reflexivity. Qed.

(** C8: stereo to mono does not average every input pair.  For two frames
    [10 20 | 30 40] the second mono sample should become 35 but is left as
    it was (7 here); in general no sample from index [(frames + 1) / 2] on
    is written.  The mono to stereo and the 5.1 cases do what is claimed
    (AudioMono2Stereo_duplicates, AudioSurround2Stereo_mix_6). *)
Theorem AudioResample_stereo2mono_half :
  AudioResample [10; 20; 30; 40] 2 2 [7; 7] 1 = Resampled [15; 7]
  /\ forall (inb out : list Z) (frames k : nat),
       ((frames + 1) / 2 <= k)%nat ->
       AudioStereo2Mono inb frames out !! k = out !! k.
Proof.
  split; [reflexivity|].
  intros inb out frames k Hk. apply AudioStereo2Mono_loop_untouched. exact Hk.
Qed.

(** C9: for channel counts of the capability table (1..8), a pair outside
    the conversion cases makes AudioResample log the error and zero the
    [frames * out_chan] samples of the output; whatever the pair,
    AudioResample does not reach [abort()], and AudioSurround2Stereo
    returns for each count 3..8. *)
Theorem AudioResample_unsupported_silence
    (inb out : list Z) (in_chan out_chan : Z) (frames : nat) :
  1 <= in_chan <= 8 -> 1 <= out_chan <= 8 ->
  (handled_pair in_chan out_chan = false ->
     AudioResample inb in_chan frames out out_chan
     = Unsupported (memset_zero out (Z.to_nat (Z.of_nat frames * out_chan)))
     /\ (length out = Z.to_nat (Z.of_nat frames * out_chan) ->
         AudioResample inb in_chan frames out out_chan
         = Unsupported (replicate (Z.to_nat (Z.of_nat frames * out_chan)) 0)))
  /\ AudioResample inb in_chan frames out out_chan <> Aborted
  /\ (3 <= in_chan -> is_Some (AudioSurround2Stereo inb in_chan frames out)).
Proof.
  intros Hi Ho. split; [|split].
  - intros Hh.
    assert (E : AudioResample inb in_chan frames out out_chan
                = Unsupported (memset_zero out (Z.to_nat (Z.of_nat frames * out_chan)))).
    { channel_cases in_chan; channel_cases out_chan;
        first [discriminate Hh | reflexivity]. }
    split; [exact E|].
    intros Hlen. rewrite E. f_equal. rewrite <- Hlen. apply memset_zero_all.
  - unfold AudioResample.
    channel_cases in_chan; channel_cases out_chan;
      cbn -[AudioSurround2Stereo]; try discriminate;
      (edestruct AudioSurround2Stereo_loop_some as [o E];
       [|unfold AudioSurround2Stereo; rewrite E; discriminate]; lia).
  - intros H3. apply AudioSurround2Stereo_loop_some. lia.
Qed.

Lemma AudioResample_unsupported_silence_witness :
  AudioResample [1; 2; 3; 4] 4 1 [9; 9; 9] 3 = Unsupported [0; 0; 0].
Proof.
  destruct (AudioResample_unsupported_silence [1; 2; 3; 4] [9; 9; 9] 4 3 1
              ltac:(lia) ltac:(lia)) as [H _].
  destruct (H eq_refl) as [_ H2]. exact (H2 eq_refl).
Defined.

End MixerFacts.

(** ** Compressor *)

Section CompressorFacts.
Import Filter.

(** A loop that only reads [data[off + i]] is a left fold over the slice. *)
Lemma for_loop_read_fold {A : Type} (f : A -> Z -> A) (pre block post : list Z) (a : A) :
  for_loop (length block) 0
    (fun i acc => f acc (load (pre ++ block ++ post) (length pre + i))) a
  = fold_left f block a.
Proof.
  assert (G : forall (done_ : list Z) (a : A),
             for_loop (length block) (length done_)
               (fun i acc => f acc (load (pre ++ done_ ++ block ++ post) (length pre + i))) a
             = fold_left f block a).
  { induction block as [|x block IH]; intros done_ a0; cbn [for_loop length fold_left];
      [reflexivity|].
    assert (E : load (pre ++ done_ ++ (x :: block) ++ post) (length pre + length done_) = x).
    { unfold load. rewrite lookup_app_r by lia.
      replace (length pre + length done_ - length pre)%nat with (length done_) by lia.
      rewrite lookup_app_r by lia. rewrite Nat.sub_diag. reflexivity. }
    rewrite E.
    specialize (IH (done_ ++ [x]) (f a0 x)).
    rewrite length_app in IH. cbn [length] in IH.
    replace (length done_ + 1)%nat with (S (length done_)) in IH by lia.
    rewrite <- IH. rewrite <- (app_assoc done_ [x]). reflexivity. }
  apply (G [] a).
Qed.

Lemma for_loop_read_fold0 {A : Type} (f : A -> Z -> A) (l : list Z) (a : A) :
  for_loop (length l) 0 (fun i acc => f acc (load l i)) a = fold_left f l a.
Proof.
  pose proof (for_loop_read_fold f [] l [] a) as H.
  cbn [app length] in H. rewrite app_nil_r in H. exact H.
Qed.

Lemma fold_left_pointwise {A : Type} (f g : A -> Z -> A) (l : list Z) (a : A) :
  (forall a x, f a x = g a x) -> fold_left f l a = fold_left g l a.
Proof.
  intros H. revert a. induction l as [|x l IH]; intros a; cbn [fold_left];
    [reflexivity|].
  rewrite H. apply IH.
Qed.

Lemma find_max_sample_peak (samples : list Z) :
  find_max_sample samples (length samples) = peak_magnitude samples.
Proof.
  unfold find_max_sample, peak_magnitude.
  rewrite (for_loop_read_fold0
             (fun m s => let t := Z.abs s in if t >? m then t else m)).
  apply fold_left_pointwise. intros m s. cbv zeta.
  destruct (Z.abs s >? m) eqn:E; lia.
Qed.

Lemma fold_max_ge (l : list Z) (m : Z) :
  m <= fold_left (fun m s => Z.max m (Z.abs s)) l m.
Proof.
  revert m. induction l as [|x l IH]; intros m; cbn [fold_left]; [lia|].
  specialize (IH (Z.max m (Z.abs x))). lia.
Qed.

Lemma fold_max_bound (l : list Z) (m : Z) :
  Forall (fun s => Z.abs s <= fold_left (fun m s => Z.max m (Z.abs s)) l m) l.
Proof.
  revert m. induction l as [|x l IH]; intros m; cbn [fold_left]; constructor.
  - pose proof (fold_max_ge l (Z.max m (Z.abs x))). lia.
  - apply IH.
Qed.

Lemma fold_max_zero (l : list Z) :
  Forall (fun s => s = 0) l -> fold_left (fun m s => Z.max m (Z.abs s)) l 0 = 0.
Proof.
  induction 1 as [|x l -> _ IH]; cbn [fold_left]; [reflexivity|exact IH].
Qed.

Lemma peak_magnitude_bound (samples : list Z) :
  Forall (fun s => Z.abs s <= peak_magnitude samples) samples.
Proof. apply fold_max_bound. Qed.

Lemma peak_magnitude_nonneg (samples : list Z) : 0 <= peak_magnitude samples.
Proof. apply fold_max_ge. Qed.

Lemma peak_magnitude_silent (samples : list Z) :
  Forall (fun s => s = 0) samples -> peak_magnitude samples = 0.
Proof. apply fold_max_zero. Qed.

Lemma peak_magnitude_positive (samples : list Z) :
  Exists (fun s => s <> 0) samples -> 0 < peak_magnitude samples.
Proof.
  intros H. apply Exists_exists in H as (s & Hin & Hs).
  pose proof (peak_magnitude_bound samples) as Hb.
  rewrite Forall_forall in Hb. specialize (Hb s Hin). lia.
Qed.

Lemma apply_factor_all (factor : Z) (samples : list Z) :
  apply_factor factor samples (length samples)
  = map (fun s => to_int16 (clamp16 (cdiv (to_int (s * factor)) 1000))) samples.
Proof.
  unfold apply_factor.
  rewrite (for_loop_store_all
             (fun _ s => to_int16 (clamp16 (cdiv (to_int (s * factor)) 1000)))).
  apply list_eq. intros k. rewrite list_lookup_imap, list_lookup_fmap. reflexivity.
Qed.

(** Scaling without overflow: the product fits an [int]. *)
Lemma apply_factor_scaled (factor : Z) (samples : list Z) :
  Forall (fun s => is_int (s * factor)) samples ->
  apply_factor factor samples (length samples)
  = map (fun s => clamp16 (cdiv (s * factor) 1000)) samples.
Proof.
  intros H. rewrite apply_factor_all. apply map_ext_Forall.
  eapply Forall_impl; [exact H|]. cbv beta. intros s Hs.
  rewrite (to_int_id _ Hs). apply to_int16_id, clamp16_range.
Qed.

Lemma Forall_clamp16 (g : Z -> Z) (samples : list Z) :
  Forall is_int16 (map (fun s => clamp16 (g s)) samples).
Proof.
  induction samples as [|s samples IH]; cbn [map].
  - constructor.
  - constructor; [apply clamp16_range|exact IH].
Qed.

Lemma count_samples (samples : list Z) :
  Z.to_nat (cdiv (2 * Z.of_nat (length samples)) AudioBytesProSample) = length samples.
Proof.
  unfold cdiv, AudioBytesProSample.
  rewrite Z.mul_comm, Z.quot_mul by lia. apply Nat2Z.id.
Qed.

(** C5: a block with a non-zero sample moves the compression factor to
    [(950 * old + 50 * instant) / 1000] with [instant = INT16_MAX * 1000 / peak],
    capped by [instant] and by the configured maximum, and every output
    sample is the scaled input hard-clamped to the [int16_t] range; a
    silent block changes neither the factor nor the samples.  The factors
    are non-negative per-mille values and the blend fits an [int]. *)
Theorem AudioCompressor_smooths (st : CompressorState) (samples : list Z) :
  let old := AudioCompressionFactor st in
  let maxc := AudioMaxCompression st in
  let peak := peak_magnitude samples in
  let instant := cdiv (INT16_MAX * 1000) peak in
  let blend := cdiv (950 * old + 50 * instant) 1000 in
  let new := Z.min (Z.min blend instant) maxc in
  (Exists (fun s => s <> 0) samples ->
   0 <= old -> 0 <= maxc -> is_int (950 * old + 50 * instant) ->
   AudioCompressor st samples (2 * Z.of_nat (length samples))
   = ({| AudioCompressionFactor := new; AudioMaxCompression := maxc |},
      map (fun s => clamp16 (cdiv (s * new) 1000)) samples)
   /\ new <= instant /\ new <= maxc
   /\ Forall is_int16 (map (fun s => clamp16 (cdiv (s * new) 1000)) samples))
  /\ (Forall (fun s => s = 0) samples ->
      AudioCompressor st samples (2 * Z.of_nat (length samples)) = (st, samples)).
Proof.
  intros old maxc peak instant blend new. split.
  - intros Hnz Hold Hmax Hint.
    pose proof (peak_magnitude_positive samples Hnz) as Hpeak. fold peak in Hpeak.
    assert (Hinst : 0 <= instant <= 32767000).
    { unfold instant, cdiv, INT16_MAX. split.
      - apply Z.quot_pos; lia.
      - transitivity (32767 * 1000); [|lia].
        apply Z.quot_le_upper_bound; nia. }
    assert (Hmul : peak * instant <= 32767000).
    { unfold instant, cdiv, INT16_MAX.
      pose proof (Z.mul_quot_le (32767 * 1000) peak ltac:(lia) ltac:(lia)). lia. }
    assert (Hblend : 0 <= blend).
    { unfold blend, cdiv. apply Z.quot_pos; lia. }
    assert (Hnew : 0 <= new <= instant) by (unfold new; lia).
    split; [|split; [lia|split; [unfold new; lia|]]].
    + unfold AudioCompressor. rewrite count_samples, find_max_sample_peak.
      fold peak. replace (peak >? 0) with true by (symmetry; apply Z.gtb_lt; lia).
      fold instant. fold old. fold maxc.
      unfold is_int, INT_MIN, INT_MAX in Hint.
      rewrite (to_int_id (old * 950)) by (unfold is_int, INT_MIN, INT_MAX; lia).
      rewrite (to_int_id (instant * 50)) by (unfold is_int, INT_MIN, INT_MAX; lia).
      rewrite (to_int_id (old * 950 + instant * 50))
        by (unfold is_int, INT_MIN, INT_MAX; lia).
      replace (old * 950 + instant * 50) with (950 * old + 50 * instant) by lia.
      fold blend.
      assert (E : (if (if blend >? instant then instant else blend) >? maxc
                   then maxc else if blend >? instant then instant else blend) = new).
      { unfold new. destruct (blend >? instant) eqn:E1;
          [destruct (instant >? maxc) eqn:E2|destruct (blend >? maxc) eqn:E2]; lia. }
      rewrite E. f_equal. apply apply_factor_scaled.
      eapply Forall_impl; [apply peak_magnitude_bound|]. cbv beta. fold peak.
      intros s Hs. unfold is_int, INT_MIN, INT_MAX. nia.
    + apply Forall_clamp16.
  - intros Hz. unfold AudioCompressor.
    rewrite count_samples, find_max_sample_peak, (peak_magnitude_silent _ Hz).
    reflexivity.
Qed.

Lemma AudioCompressor_smooths_witness :
  AudioCompressor {| AudioCompressionFactor := 1000; AudioMaxCompression := 2000 |}
    [16000; -8000] 4
  = ({| AudioCompressionFactor := 1052; AudioMaxCompression := 2000 |},
     [16832; -8416]).
Proof.
  refine (proj1 (proj1 (AudioCompressor_smooths
                          {| AudioCompressionFactor := 1000;
                             AudioMaxCompression := 2000 |}
                          [16000; -8000]) _ _ _ _)).
  - apply Exists_cons_hd. discriminate.
  - simpl. lia.
  - simpl. lia.
  - vm_compute. split; discriminate.
Defined.

End CompressorFacts.

(** ** Normaliser *)

Section NormalizerFacts.
Import Filter.

Lemma AudioNormalizer_loop_S (fuel : nat) (st : NormalizerState) (samples : list Z)
    (off : nat) (l : Z) :
  AudioNormalizer_loop (S fuel) st samples off l
  = if (normalizer_turn st samples off l).2 >? 0
    then AudioNormalizer_loop fuel (normalizer_turn st samples off l).1.1 samples
           (normalizer_turn st samples off l).1.2 (normalizer_turn st samples off l).2
    else Some (normalizer_turn st samples off l).1.1.
Proof.
  cbn [AudioNormalizer_loop].
  destruct (normalizer_turn st samples off l) as [[st' off'] l']. reflexivity.
Qed.

Lemma normalizer_turn_rest (st : NormalizerState) (samples : list Z) (off : nat) (l : Z) :
  (normalizer_turn st samples off l).2 = l - turn_samples st l
  /\ (normalizer_turn st samples off l).1.2 = (off + Z.to_nat (turn_samples st l))%nat.
Proof.
  unfold normalizer_turn, turn_samples. cbn [fst snd].
  destruct (AudioNormCounter st + l >? AudioNormSamples) eqn:E.
  - replace (Z.min l (AudioNormSamples - AudioNormCounter st))
      with (AudioNormSamples - AudioNormCounter st) by lia. split; reflexivity.
  - replace (Z.min l (AudioNormSamples - AudioNormCounter st)) with l by lia.
    split; reflexivity.
Qed.

(** The loop ends within [l + 1] turns for every property of the state
    that the turns keep and that bounds the sample counter by the block. *)
Lemma AudioNormalizer_loop_inv (P : NormalizerState -> Prop) (samples : list Z) :
  (forall st, P st -> 0 <= AudioNormCounter st < AudioNormSamples) ->
  (forall st off l, P st -> 0 <= l -> (off + Z.to_nat l <= length samples)%nat ->
                    P (normalizer_turn st samples off l).1.1) ->
  forall fuel st off l,
    P st -> 0 <= l < Z.of_nat fuel -> (off + Z.to_nat l <= length samples)%nat ->
    exists st', AudioNormalizer_loop fuel st samples off l = Some st' /\ P st'.
Proof.
  intros Hc Hstep. induction fuel as [|fuel IH]; intros st off l HP Hl Hoff; [lia|].
  rewrite AudioNormalizer_loop_S.
  destruct (normalizer_turn_rest st samples off l) as [El Eo].
  pose proof (Hc st HP) as HC. pose proof (Hstep st off l HP ltac:(lia) Hoff) as HP'.
  unfold turn_samples in El, Eo.
  destruct ((normalizer_turn st samples off l).2 >? 0) eqn:E.
  - apply IH; [exact HP'|lia|lia].
  - eauto.
Qed.

(** *** Silence *)

Lemma load_all_zero (l : list Z) (i : nat) : Forall (fun a => a = 0) l -> load l i = 0.
Proof.
  intros H. unfold load. destruct (l !! i) as [x|] eqn:E; [|reflexivity].
  rewrite Forall_lookup in H. exact (H i x E).
Qed.

Lemma store_all_zero (l : list Z) (i : nat) :
  Forall (fun a => a = 0) l -> Forall (fun a => a = 0) (store l i 0).
Proof. intros H. unfold store. apply Forall_insert; [exact H|reflexivity]. Qed.

Lemma accumulate_zero (samples : list Z) (off n : nat) :
  Forall (fun a => a = 0) samples -> accumulate samples off n 0 = 0.
Proof.
  intros H. unfold accumulate. generalize 0%nat as i0.
  induction n as [|n IH]; intros i0; cbn [for_loop]; [reflexivity|].
  rewrite (load_all_zero _ _ H). exact (IH (S i0)).
Qed.

Lemma history_mean_zero (avgs : list Z) :
  Forall (fun a => a = 0) avgs -> history_mean avgs = 0.
Proof.
  intros H. unfold history_mean. generalize 0%nat as i0.
  generalize (Z.to_nat AudioNormMaxIndex) as n.
  induction n as [|n IH]; intros i0; cbn [for_loop]; [reflexivity|].
  rewrite (load_all_zero _ _ H). exact (IH (S i0)).
Qed.

Lemma block_complete_silent (st : NormalizerState) :
  Forall (fun a => a = 0) (AudioNormAverage st) ->
  AudioNormalizeFactor (block_complete st) = AudioNormalizeFactor st
  /\ Forall (fun a => a = 0) (AudioNormAverage (block_complete st)).
Proof.
  intros H. unfold block_complete. rewrite (history_mean_zero _ H).
  destruct (AudioNormReady st <? AudioNormMaxIndex); cbn;
    (split; [reflexivity|apply store_all_zero; exact H]).
Qed.

Lemma block_complete_counts (st : NormalizerState) :
  AudioNormCounter (block_complete st) = 0
  /\ AudioNormReady (block_complete st)
     = (if AudioNormReady st <? AudioNormMaxIndex
        then AudioNormReady st + 1 else AudioNormReady st)
  /\ AudioNormIndex (block_complete st)
     = Z.rem (AudioNormIndex st + 1) AudioNormMaxIndex
  /\ AudioMaxNormalize (block_complete st) = AudioMaxNormalize st.
Proof.
  unfold block_complete.
  destruct (AudioNormReady st <? AudioNormMaxIndex);
    [|destruct (history_mean (AudioNormAverage st) >? 0)]; cbn; auto.
Qed.

Lemma normalizer_turn_silent (st : NormalizerState) (samples : list Z) (off : nat) (l : Z) :
  Forall (fun s => s = 0) samples -> silent_inv st -> 0 <= l ->
  silent_inv (normalizer_turn st samples off l).1.1.
Proof.
  intros Hs (Hz & Hc & Hf) Hl. unfold normalizer_turn. cbn [fst snd].
  rewrite (load_all_zero _ _ Hz), (accumulate_zero _ _ _ Hs).
  set (n := if AudioNormCounter st + l >? AudioNormSamples
            then AudioNormSamples - AudioNormCounter st else l).
  assert (Hn : 0 <= n /\ AudioNormCounter st + n <= AudioNormSamples).
  { unfold n. destruct (AudioNormCounter st + l >? AudioNormSamples) eqn:E; lia. }
  cbn [AudioNormCounter].
  destruct (AudioNormCounter st + n >=? AudioNormSamples) eqn:E.
  - match goal with |- silent_inv (block_complete ?s) =>
      destruct (block_complete_silent s) as [Ef Ez];
      [cbn; apply store_all_zero; exact Hz|];
      destruct (block_complete_counts s) as (Ec & _)
    end.
    unfold silent_inv. rewrite Ec, Ef. cbn. unfold AudioNormSamples.
    split; [exact Ez|split; [lia|exact Hf]].
  - unfold silent_inv. cbn.
    split; [apply store_all_zero; exact Hz|split; [lia|exact Hf]].
Qed.

Lemma apply_factor_silent (samples : list Z) :
  Forall (fun s => s = 0) samples ->
  apply_factor 1000 samples (length samples) = samples.
Proof.
  intros H. rewrite apply_factor_all.
  induction H as [|s samples -> _ IH]; cbn [map]; [reflexivity|].
  rewrite IH. reflexivity.
Qed.

Lemma sample_count_Z (samples : list Z) :
  cdiv (2 * Z.of_nat (length samples)) AudioBytesProSample = Z.of_nat (length samples).
Proof. unfold cdiv, AudioBytesProSample. rewrite Z.mul_comm. apply Z.quot_mul. lia. Qed.

Lemma AudioNormalizer_silent (st : NormalizerState) (samples : list Z) :
  Forall (fun s => s = 0) samples -> silent_inv st ->
  exists st', AudioNormalizer st samples (2 * Z.of_nat (length samples))
              = Some (st', samples)
              /\ silent_inv st'.
Proof.
  intros Hs Hinv. unfold AudioNormalizer. rewrite sample_count_Z, Nat2Z.id.
  destruct (AudioNormalizer_loop_inv silent_inv samples
              ltac:(intros s (_ & H & _); exact H)
              ltac:(intros s off l H Hl _; apply normalizer_turn_silent; assumption)
              (S (length samples)) st 0%nat (Z.of_nat (length samples)) Hinv
              ltac:(lia) ltac:(lia)) as (st' & -> & Hinv').
  exists st'. split; [|exact Hinv'].
  destruct Hinv' as (_ & _ & ->). rewrite (apply_factor_silent _ Hs). reflexivity.
Qed.

Lemma AudioNormalizer_calls_silent (calls : list (list Z)) :
  Forall (Forall (fun s => s = 0)) calls ->
  forall st, silent_inv st ->
  exists st', AudioNormalizer_calls st calls = Some (st', calls) /\ silent_inv st'.
Proof.
  induction 1 as [|samples calls Hs _ IH]; intros st Hinv; cbn [AudioNormalizer_calls].
  - eauto.
  - destruct (AudioNormalizer_silent st samples Hs Hinv) as (st1 & -> & Hinv1).
    destruct (IH st1 Hinv1) as (st2 & -> & Hinv2). eauto.
Qed.

Lemma AudioResetNormalizer_silent (st : NormalizerState) :
  length (AudioNormAverage st) = Z.to_nat AudioNormMaxIndex ->
  silent_inv (AudioResetNormalizer st)
  /\ AudioNormReady (AudioResetNormalizer st) = 0
  /\ AudioNormCounter (AudioResetNormalizer st) = 0.
Proof.
  intros Hlen. unfold silent_inv, AudioResetNormalizer. cbn.
  repeat split; try (unfold AudioNormSamples; lia).
  change (for_loop (Z.to_nat AudioNormMaxIndex) 0 (fun i a => store a i 0)
            (AudioNormAverage st))
    with (memset_zero (AudioNormAverage st) (Z.to_nat AudioNormMaxIndex)).
  rewrite <- Hlen, memset_zero_all. apply Forall_replicate. reflexivity.
Qed.

Lemma normalizer_turn_completes (st : NormalizerState) (samples : list Z)
    (off : nat) (l : Z) :
  AudioNormSamples <= AudioNormCounter st + l ->
  AudioNormCounter (normalizer_turn st samples off l).1.1 = 0
  /\ AudioNormReady (normalizer_turn st samples off l).1.1
     = (if AudioNormReady st <? AudioNormMaxIndex
        then AudioNormReady st + 1 else AudioNormReady st).
Proof.
  intros H. unfold normalizer_turn. cbn [fst snd AudioNormCounter].
  set (n := if AudioNormCounter st + l >? AudioNormSamples
            then AudioNormSamples - AudioNormCounter st else l).
  assert (Hn : AudioNormCounter st + n = AudioNormSamples).
  { unfold n. destruct (AudioNormCounter st + l >? AudioNormSamples) eqn:E; lia. }
  rewrite Hn. rewrite (proj2 (Z.geb_le _ _)) by lia.
  match goal with |- context [block_complete ?s] =>
    destruct (block_complete_counts s) as (-> & -> & _)
  end.
  split; reflexivity.
Qed.

Lemma silent_block_facts :
  Forall (fun s => s = 0) silent_block
  /\ Z.of_nat (length silent_block) = AudioNormSamples.
Proof.
  unfold silent_block. split.
  - apply Forall_replicate. reflexivity.
  - rewrite length_replicate. apply Z2Nat.id. unfold AudioNormSamples. lia.
Qed.

(** A whole block of silence on a block boundary completes that block. *)
Lemma AudioNormalizer_silent_block (st : NormalizerState) :
  silent_inv st -> AudioNormCounter st = 0 ->
  exists st', AudioNormalizer st silent_block (2 * Z.of_nat (length silent_block))
              = Some (st', silent_block)
              /\ silent_inv st' /\ AudioNormCounter st' = 0
              /\ AudioNormReady st'
                 = (if AudioNormReady st <? AudioNormMaxIndex
                    then AudioNormReady st + 1 else AudioNormReady st).
Proof.
  intros Hinv Hc. destruct silent_block_facts as [Hz Hlen].
  unfold AudioNormalizer. rewrite sample_count_Z, Nat2Z.id, Hlen.
  rewrite AudioNormalizer_loop_S.
  destruct (normalizer_turn_rest st silent_block 0 AudioNormSamples) as [-> _].
  unfold turn_samples. rewrite Hc.
  replace (AudioNormSamples - Z.min AudioNormSamples (AudioNormSamples - 0)) with 0
    by lia.
  cbn [Z.gtb Z.compare].
  pose proof (normalizer_turn_silent st silent_block 0 AudioNormSamples Hz Hinv
                ltac:(unfold AudioNormSamples; lia)) as Hinv'.
  destruct (normalizer_turn_completes st silent_block 0 AudioNormSamples
              ltac:(lia)) as [Ec Er].
  eexists. split; [|split; [exact Hinv'|split; [exact Ec|exact Er]]].
  destruct Hinv' as (_ & _ & ->).
  rewrite <- (Nat2Z.id (length silent_block)), Hlen.
  rewrite <- Hlen, Nat2Z.id, (apply_factor_silent _ Hz). reflexivity.
Qed.

Lemma AudioNormalizer_silent_blocks (k : nat) (st : NormalizerState) :
  silent_inv st -> AudioNormCounter st = 0 ->
  0 <= AudioNormReady st <= AudioNormMaxIndex ->
  exists st', AudioNormalizer_calls st (replicate k silent_block)
              = Some (st', replicate k silent_block)
              /\ silent_inv st' /\ AudioNormCounter st' = 0
              /\ AudioNormReady st'
                 = Z.min (AudioNormReady st + Z.of_nat k) AudioNormMaxIndex.
Proof.
  revert st. induction k as [|k IH]; intros st Hinv Hc Hr;
    cbn [replicate AudioNormalizer_calls].
  - exists st. repeat split; try assumption; try apply Hinv. lia.
  - destruct (AudioNormalizer_silent_block st Hinv Hc) as (st1 & -> & Hinv1 & Hc1 & Hr1).
    assert (Hr1' : 0 <= AudioNormReady st1 <= AudioNormMaxIndex).
    { rewrite Hr1. destruct (AudioNormReady st <? AudioNormMaxIndex) eqn:E; lia. }
    destruct (IH st1 Hinv1 Hc1 Hr1') as (st2 & -> & Hinv2 & Hc2 & Hr2).
    exists st2. split; [reflexivity|]. split; [exact Hinv2|]. split; [exact Hc2|].
    rewrite Hr2, Hr1.
    destruct (AudioNormReady st <? AudioNormMaxIndex) eqn:E; lia.
Qed.

(** C7, as the code has it: after a reset, calls that carry nothing but
    zero samples leave the normalise factor at the reset value 1000 (the
    factor is only recomputed for a positive mean energy), return the
    samples unchanged, and whole blocks of silence fill the history: after
    [k] of them the ready counter is [min k 128]. *)
Theorem AudioNormalizer_silence_keeps_reset_factor
    (st0 : NormalizerState) (calls : list (list Z)) :
  length (AudioNormAverage st0) = Z.to_nat AudioNormMaxIndex ->
  Forall (Forall (fun s => s = 0)) calls ->
  exists st',
    AudioNormalizer_calls (AudioResetNormalizer st0) calls = Some (st', calls)
    /\ AudioNormalizeFactor st' = 1000
    /\ forall k : nat, calls = replicate k silent_block ->
                       AudioNormReady st' = Z.min (Z.of_nat k) AudioNormMaxIndex.
Proof.
  intros Hlen Hcalls.
  destruct (AudioResetNormalizer_silent st0 Hlen) as (Hinv & Hr & Hc).
  destruct (AudioNormalizer_calls_silent calls Hcalls _ Hinv) as (st' & E & Hinv').
  exists st'. split; [exact E|]. split; [apply Hinv'|].
  intros k ->.
  destruct (AudioNormalizer_silent_blocks k _ Hinv Hc
              ltac:(rewrite Hr; unfold AudioNormMaxIndex; lia))
    as (st2 & E2 & _ & _ & Hr2).
  rewrite E in E2. injection E2 as ->. rewrite Hr2, Hr. reflexivity.
Qed.

Lemma AudioNormalizer_silence_keeps_reset_factor_witness :
  exists st',
    AudioNormalizer_calls (AudioResetNormalizer normalizer_start) [[0; 0]; [0]]
    = Some (st', [[0; 0]; [0]])
    /\ AudioNormalizeFactor st' = 1000.
Proof.
  destruct (AudioNormalizer_silence_keeps_reset_factor normalizer_start [[0; 0]; [0]])
    as (st' & E & Hf & _).
  - reflexivity.
  - repeat constructor.
  - exists st'. split; [exact E|exact Hf].
Defined.

(** C7 as stated fails: after the reset and 129 blocks of silence the
    history is full (the ready counter is 128) and the factor is 1000, not
    the floor [AudioMinNormalize]. *)
Lemma AudioNormalizer_silence_not_at_floor :
  exists st',
    AudioNormalizer_calls (AudioResetNormalizer normalizer_start)
      (replicate 129 silent_block)
    = Some (st', replicate 129 silent_block)
    /\ AudioNormReady st' = AudioNormMaxIndex
    /\ AudioNormalizeFactor st' <> AudioMinNormalize.
Proof.
  destruct (AudioResetNormalizer_silent normalizer_start eq_refl) as (Hinv & Hr & Hc).
  destruct (AudioNormalizer_silent_blocks 129 _ Hinv Hc
              ltac:(rewrite Hr; unfold AudioNormMaxIndex; lia))
    as (st' & E & (_ & _ & Hf) & _ & Hr').
  exists st'. split; [exact E|]. split.
  - rewrite Hr', Hr. reflexivity.
  - rewrite Hf. discriminate.
Qed.

End NormalizerFacts.

(** *** The loop against the specification's step *)

Section NormalizerSteps.
Import Filter.

(** A [uint32_t] sum that stays below 2^32 is the plain sum. *)
Lemma fold_unsigned_sum (g g' : Z -> Z) (bound : Z) (l : list Z) (a : Z) :
  Forall (fun x => g x = g' x /\ 0 <= g' x <= bound) l ->
  0 <= a -> a + Z.of_nat (length l) * bound < 2 ^ 32 ->
  fold_left (fun a x => to_unsigned (a + g x)) l a = fold_left (fun a x => a + g' x) l a
  /\ a <= fold_left (fun a x => a + g' x) l a <= a + Z.of_nat (length l) * bound.
Proof.
  intros H. revert a. induction H as [|x l [Hg Hb] _ IH]; intros a Ha Hlt;
    cbn [fold_left length].
  - split; lia.
  - cbn [length] in Hlt. rewrite Nat2Z.inj_succ in Hlt |- *.
    rewrite Hg, to_unsigned_id by nia.
    destruct (IH (a + g' x) ltac:(lia) ltac:(nia)) as [E Hr].
    split; [exact E|nia].
Qed.

Lemma square_energy (t : Z) :
  is_int16 t ->
  cdiv (to_int (t * t)) AudioNormSamples = cdiv (t * t) AudioNormSamples
  /\ 0 <= cdiv (t * t) AudioNormSamples <= 2 ^ 18.
Proof.
  unfold is_int16, INT16_MIN, INT16_MAX, cdiv, AudioNormSamples. intros H.
  assert (Hsq : 0 <= t * t <= 1073741824) by nia.
  rewrite to_int_id by (unfold is_int, INT_MIN, INT_MAX; lia).
  split; [reflexivity|]. split.
  - apply Z.quot_pos; lia.
  - apply Z.quot_le_upper_bound; lia.
Qed.

Lemma accumulate_energy (pre block post : list Z) (a : Z) :
  Forall is_int16 block ->
  0 <= a -> a + Z.of_nat (length block) * 2 ^ 18 < 2 ^ 32 ->
  accumulate (pre ++ block ++ post) (length pre) (length block) a = energy_sum a block
  /\ a <= energy_sum a block <= a + Z.of_nat (length block) * 2 ^ 18.
Proof.
  intros Hb Ha Hlt. unfold accumulate, energy_sum.
  rewrite (for_loop_read_fold
             (fun a t => to_unsigned (a + cdiv (to_int (t * t)) AudioNormSamples))).
  apply (fold_unsigned_sum (fun t => cdiv (to_int (t * t)) AudioNormSamples)
           (fun t => cdiv (t * t) AudioNormSamples)); [|exact Ha|exact Hlt].
  eapply Forall_impl; [exact Hb|]. intros t Ht. apply square_energy. exact Ht.
Qed.

Lemma history_mean_energy (avgs : list Z) :
  length avgs = Z.to_nat AudioNormMaxIndex ->
  Forall (fun a => 0 <= a <= 2 ^ 30) avgs ->
  history_mean avgs = mean_energy avgs /\ 0 <= mean_energy avgs <= 2 ^ 30.
Proof.
  intros Hlen Hb. unfold history_mean, mean_energy. rewrite <- Hlen.
  rewrite (for_loop_read_fold0
             (fun a e => to_unsigned (a + cdiv e AudioNormMaxIndex))).
  destruct (fold_unsigned_sum (fun e => cdiv e AudioNormMaxIndex)
              (fun e => cdiv e AudioNormMaxIndex) (2 ^ 23) avgs 0) as [E Hr].
  - eapply Forall_impl; [exact Hb|]. cbv beta. intros e He.
    split; [reflexivity|]. unfold cdiv, AudioNormMaxIndex. split.
    + apply Z.quot_pos; lia.
    + apply Z.quot_le_upper_bound; lia.
  - lia.
  - rewrite Hlen, Z2Nat.id by (unfold AudioNormMaxIndex; lia).
    unfold AudioNormMaxIndex. lia.
  - split; [exact E|].
    rewrite Hlen, Z2Nat.id in Hr by (unfold AudioNormMaxIndex; lia).
    unfold AudioNormMaxIndex in Hr |- *. lia.
Qed.

Lemma normalize_target_range (mean : Z) :
  0 < mean -> 0 <= normalize_target mean <= 4095000.
Proof.
  intros H. unfold normalize_target, cdiv.
  change (INT16_MAX ÷ 8 * 1000) with 4095000.
  assert (0 < Z.sqrt mean) by (apply Z.sqrt_pos; exact H).
  split.
  - apply Z.quot_pos; lia.
  - apply Z.quot_le_upper_bound; nia.
Qed.

Lemma smooth_normalize_blend (old mean max_normalize : Z) :
  0 < mean <= 2 ^ 30 -> 0 <= old <= 65535 ->
  smooth_normalize old mean max_normalize
  = Z.min (Z.max (cdiv (500 * old + 500 * normalize_target mean) 1000)
                 AudioMinNormalize)
          max_normalize.
Proof.
  intros Hm Ho. pose proof (normalize_target_range mean ltac:(lia)) as Ht.
  unfold smooth_normalize, sqrt_uint32.
  assert (Hs : 0 < Z.sqrt mean <= mean).
  { split; [apply Z.sqrt_pos; lia|apply Z.sqrt_le_lin; lia]. }
  rewrite (to_unsigned_id (Z.sqrt mean)) by lia.
  rewrite (to_unsigned_id (cdiv INT16_MAX 8 * 1000)) by (vm_compute; split; congruence).
  fold (normalize_target mean).
  rewrite (to_int_id (normalize_target mean))
    by (unfold is_int, INT_MIN, INT_MAX; lia).
  rewrite (to_int_id (old * 500)) by (unfold is_int, INT_MIN, INT_MAX; lia).
  rewrite (to_int_id (normalize_target mean * 500))
    by (unfold is_int, INT_MIN, INT_MAX; lia).
  rewrite (to_int_id (old * 500 + normalize_target mean * 500))
    by (unfold is_int, INT_MIN, INT_MAX; lia).
  replace (old * 500 + normalize_target mean * 500)
    with (500 * old + 500 * normalize_target mean) by lia.
  set (blend := cdiv (500 * old + 500 * normalize_target mean) 1000).
  destruct (blend <? AudioMinNormalize) eqn:E1.
  - replace (Z.max blend AudioMinNormalize) with AudioMinNormalize by lia.
    destruct (AudioMinNormalize >? max_normalize) eqn:E2; lia.
  - replace (Z.max blend AudioMinNormalize) with blend by lia.
    destruct (blend >? max_normalize) eqn:E2; lia.
Qed.

Lemma slice_decompose (samples : list Z) (off n : nat) :
  (off + n <= length samples)%nat ->
  samples = take off samples ++ take n (drop off samples) ++ drop n (drop off samples)
  /\ length (take off samples) = off
  /\ length (take n (drop off samples)) = n.
Proof.
  intros H. rewrite !take_drop. rewrite length_take, length_take, length_drop.
  split; [reflexivity|]. lia.
Qed.

Lemma load_bound (avgs : list Z) (i : nat) :
  Forall (fun a => 0 <= a <= 2 ^ 30) avgs -> 0 <= load avgs i <= 2 ^ 30.
Proof.
  intros H. unfold load. destruct (avgs !! i) as [x|] eqn:E; cbn; [|lia].
  rewrite Forall_lookup in H. exact (H i x E).
Qed.

Lemma energy_sum_bound (a : Z) (block : list Z) :
  Forall is_int16 block ->
  a <= energy_sum a block <= a + Z.of_nat (length block) * 2 ^ 18.
Proof.
  intros H. unfold energy_sum. revert a.
  induction H as [|t block Ht _ IH]; intros a; cbn [fold_left length]; [lia|].
  destruct (square_energy t Ht) as [_ Hb]. rewrite Nat2Z.inj_succ.
  specialize (IH (a + cdiv (t * t) AudioNormSamples)). lia.
Qed.

(** The step of the specification keeps the normaliser's invariant. *)
Lemma normalizer_step_inv (st : NormalizerState) (block : list Z) :
  norm_inv st -> Forall is_int16 block ->
  AudioNormCounter st + Z.of_nat (length block) <= AudioNormSamples ->
  norm_inv (normalizer_step st block).
Proof.
  intros (Hlen & Hidx & Hcnt & Hb & Hcur & Hf & Hm) Hblock Hfit.
  pose proof (energy_sum_bound
                (load (AudioNormAverage st) (Z.to_nat (AudioNormIndex st))) block Hblock)
    as He.
  pose proof (load_bound _ (Z.to_nat (AudioNormIndex st)) Hb) as Hl.
  unfold AudioNormSamples, AudioNormMaxIndex in *.
  assert (Hhist : Forall (fun a => 0 <= a <= 2 ^ 30)
                    (<[Z.to_nat (AudioNormIndex st) :=
                         energy_sum (load (AudioNormAverage st)
                                       (Z.to_nat (AudioNormIndex st))) block]>
                       (AudioNormAverage st))).
  { apply Forall_insert; [exact Hb|]. lia. }
  unfold normalizer_step, norm_inv, AudioNormSamples, AudioNormMaxIndex.
  destruct (AudioNormCounter st + Z.of_nat (length block) <? 4096) eqn:E;
    cbn [AudioNormAverage AudioNormIndex AudioNormReady AudioNormCounter
         AudioNormalizeFactor AudioMaxNormalize].
  - rewrite length_insert. repeat split; try lia; try exact Hhist.
    unfold load. rewrite list_lookup_insert_eq by lia. cbn. fold (load (AudioNormAverage st) (Z.to_nat (AudioNormIndex st))). lia.
  - pose proof (Z.mod_pos_bound (AudioNormIndex st + 1) 128 ltac:(lia)) as Hn.
    rewrite !length_insert. repeat split; try lia.
    + apply Forall_insert; [exact Hhist|lia].
    + unfold load. rewrite list_lookup_insert_eq by (rewrite length_insert; lia).
      cbn. lia.
    + destruct ((128 <=? AudioNormReady st) && _); unfold AudioMinNormalize; lia.
    + destruct ((128 <=? AudioNormReady st) && _); unfold AudioMinNormalize; lia.
Qed.

(** A turn of the loop is the step of the specification on the samples
    the turn takes. *)
Lemma normalizer_turn_step (st : NormalizerState) (samples : list Z) (off : nat) (l : Z) :
  norm_inv st -> Forall is_int16 samples ->
  0 <= l -> (off + Z.to_nat l <= length samples)%nat ->
  normalizer_turn st samples off l
  = (normalizer_step st (take (Z.to_nat (turn_samples st l)) (drop off samples)),
     (off + Z.to_nat (turn_samples st l))%nat,
     l - turn_samples st l).
Proof.
  intros Hinv Hs Hl Hoff.
  pose proof Hinv as (Hlen & Hidx & Hcnt & Hb & Hcur & Hf & Hm).
  unfold normalizer_turn.
  assert (En : (if AudioNormCounter st + l >? AudioNormSamples
                then AudioNormSamples - AudioNormCounter st else l)
               = turn_samples st l).
  { unfold turn_samples.
    destruct (AudioNormCounter st + l >? AudioNormSamples) eqn:E; lia. }
  rewrite En. clear En.
  assert (Hn : 0 <= turn_samples st l <= l
               /\ AudioNormCounter st + turn_samples st l <= AudioNormSamples)
    by (unfold turn_samples; lia).
  set (n := turn_samples st l) in *.
  destruct (slice_decompose samples off (Z.to_nat n) ltac:(lia)) as (E & L1 & L2).
  set (block := take (Z.to_nat n) (drop off samples)) in *.
  assert (Hblock : Forall is_int16 block)
    by (apply Forall_take, Forall_drop; exact Hs).
  assert (Hlb : Z.of_nat (length block) = n) by (rewrite L2; lia).
  pose proof (load_bound _ (Z.to_nat (AudioNormIndex st)) Hb) as Hload.
  set (e := load (AudioNormAverage st) (Z.to_nat (AudioNormIndex st))) in *.
  unfold AudioNormSamples, AudioNormMaxIndex in Hidx, Hcnt, Hn, Hlen.
  assert (Eacc : accumulate samples off (Z.to_nat n) e = energy_sum e block).
  { transitivity (accumulate (take off samples ++ block ++ drop (Z.to_nat n) (drop off samples))
                    (length (take off samples)) (length block) e).
    - rewrite L1, L2, <- E. reflexivity.
    - apply accumulate_energy; [exact Hblock|lia|nia]. }
  rewrite Eacc. f_equal. f_equal.
  pose proof (energy_sum_bound e block Hblock) as He.
  unfold normalizer_step. fold e. rewrite Hlb.
  cbn [AudioNormCounter].
  destruct (AudioNormCounter st + n <? AudioNormSamples) eqn:Ec.
  - replace (AudioNormCounter st + n >=? AudioNormSamples) with false;
      [reflexivity|].
    symmetry. rewrite Z.geb_leb. apply Z.leb_gt. apply Z.ltb_lt. exact Ec.
  - replace (AudioNormCounter st + n >=? AudioNormSamples) with true
      by (symmetry; apply Z.geb_le; lia).
    unfold block_complete, store.
    cbn [AudioNormAverage AudioNormIndex AudioNormReady AudioNormCounter
         AudioNormalizeFactor AudioMaxNormalize].
    rewrite Z.rem_mod_nonneg by (unfold AudioNormMaxIndex; lia).
    set (history := <[Z.to_nat (AudioNormIndex st) := energy_sum e block]>
                      (AudioNormAverage st)).
    assert (Hhist : Forall (fun a => 0 <= a <= 2 ^ 30) history)
      by (apply Forall_insert; [exact Hb|unfold AudioNormSamples in *; nia]).
    destruct (history_mean_energy history) as [Em Hmean];
      [unfold history; rewrite length_insert; exact Hlen|exact Hhist|].
    rewrite Em.
    destruct (AudioNormReady st <? AudioNormMaxIndex) eqn:Er.
    + replace (AudioNormMaxIndex <=? AudioNormReady st) with false
        by (symmetry; apply Z.leb_gt; lia).
      reflexivity.
    + replace (AudioNormMaxIndex <=? AudioNormReady st) with true
        by (symmetry; apply Z.leb_le; lia).
      destruct (mean_energy history >? 0) eqn:Eg.
      * replace (0 <? mean_energy history) with true
          by (symmetry; apply Z.ltb_lt; lia).
        rewrite smooth_normalize_blend by lia. reflexivity.
      * replace (0 <? mean_energy history) with false
          by (symmetry; apply Z.ltb_ge; lia).
        reflexivity.
Qed.

Lemma chunks_nil (fuel n : nat) : chunks fuel n [] = [].
Proof. destruct fuel; reflexivity. Qed.

(** Enough fuel is as good as more. *)
Lemma chunks_fuel (n : nat) :
  (1 <= n)%nat ->
  forall (fuel fuel' : nat) (l : list Z),
    (length l <= fuel)%nat -> (length l <= fuel')%nat ->
    chunks fuel n l = chunks fuel' n l.
Proof.
  intros Hn. induction fuel as [|fuel IH]; intros fuel' l Hf Hf'.
  - destruct l; [|cbn in Hf; lia]. rewrite !chunks_nil. reflexivity.
  - destruct l as [|x l]; [rewrite !chunks_nil; reflexivity|].
    destruct fuel' as [|fuel']; [cbn in Hf'; lia|].
    cbn [chunks]. f_equal. cbn [length] in Hf, Hf'.
    apply IH; rewrite length_drop; cbn [length]; lia.
Qed.

Lemma concat_chunks (n : nat) :
  (1 <= n)%nat ->
  forall (fuel : nat) (l : list Z),
    (length l <= fuel)%nat -> concat (chunks fuel n l) = l.
Proof.
  intros Hn. induction fuel as [|fuel IH]; intros l Hf.
  - destruct l; [reflexivity|cbn in Hf; lia].
  - destruct l as [|x l]; [reflexivity|].
    cbn [chunks concat]. rewrite IH.
    + apply take_drop.
    + rewrite length_drop. cbn [length] in *. lia.
Qed.

(** The pieces of a call are its buffer. *)
Lemma concat_blocks_of (st : NormalizerState) (samples : list Z) :
  concat (blocks_of st samples) = samples.
Proof.
  unfold blocks_of. cbn [concat]. rewrite concat_chunks.
  - apply take_drop.
  - unfold AudioNormSamples. lia.
  - rewrite length_drop. lia.
Qed.

Lemma normalizer_step_complete (st : NormalizerState) (block : list Z) :
  AudioNormSamples <= AudioNormCounter st + Z.of_nat (length block) ->
  AudioNormCounter (normalizer_step st block) = 0.
Proof.
  intros H. unfold normalizer_step.
  replace (AudioNormCounter st + Z.of_nat (length block) <? AudioNormSamples)
    with false by lia.
  reflexivity.
Qed.

(** Behind a first piece that leaves samples over, the pieces are those of
    the rest for a normaliser at the start of a block. *)
Lemma blocks_of_next (st st' : NormalizerState) (d : list Z) :
  AudioNormCounter st' = 0 ->
  (Z.to_nat (AudioNormSamples - AudioNormCounter st) < length d)%nat ->
  blocks_of st d
  = take (Z.to_nat (AudioNormSamples - AudioNormCounter st)) d
    :: blocks_of st' (drop (Z.to_nat (AudioNormSamples - AudioNormCounter st)) d).
Proof.
  intros Ec Hlt. unfold blocks_of. rewrite Ec, Z.sub_0_r.
  generalize (Z.to_nat (AudioNormSamples - AudioNormCounter st)) Hlt.
  intros first Hfirst. f_equal.
  assert (H4096 : (1 <= Z.to_nat AudioNormSamples)%nat) by (unfold AudioNormSamples; lia).
  generalize (Z.to_nat AudioNormSamples) H4096. intros size Hsize.
  remember (drop first d) as d' eqn:Ed'.
  assert (Hd' : (length d' + first = length d)%nat)
    by (subst d'; rewrite length_drop; lia).
  destruct (length d) as [|m] eqn:Em; [lia|].
  destruct d' as [|x d'']; [cbn [length] in Hd'; lia|].
  cbn [chunks]. f_equal. apply (chunks_fuel size Hsize).
  - rewrite length_drop. cbn [length] in *. lia.
  - rewrite length_drop. lia.
Qed.

(** A first piece that takes the whole buffer is the only one. *)
Lemma blocks_of_last (st : NormalizerState) (d : list Z) :
  (length d <= Z.to_nat (AudioNormSamples - AudioNormCounter st))%nat ->
  blocks_of st d = [d].
Proof.
  intros Hle. unfold blocks_of.
  rewrite take_ge by exact Hle. rewrite drop_ge by exact Hle.
  rewrite chunks_nil. reflexivity.
Qed.

(** The loop of a call, started anywhere in the buffer, takes the pieces
    of the rest of the buffer one by one. *)
Lemma AudioNormalizer_loop_blocks (samples : list Z) :
  Forall is_int16 samples ->
  forall (fuel : nat) (st : NormalizerState) (off : nat) (l : Z),
    norm_inv st -> 0 <= l < Z.of_nat fuel ->
    (off + Z.to_nat l = length samples)%nat ->
    AudioNormalizer_loop fuel st samples off l
    = Some (normalizer_blocks st (drop off samples))
    /\ norm_inv (normalizer_blocks st (drop off samples)).
Proof.
  intros Hs. induction fuel as [|fuel IH]; intros st off l Hinv Hl Hoff; [lia|].
  rewrite AudioNormalizer_loop_S.
  rewrite normalizer_turn_step by (try assumption; lia).
  cbn [fst snd].
  pose proof Hinv as (_ & _ & Hcnt & _).
  assert (Hd : Z.of_nat (length (drop off samples)) = l)
    by (rewrite length_drop; lia).
  assert (Hn : 0 <= turn_samples st l <= l
               /\ AudioNormCounter st + turn_samples st l <= AudioNormSamples)
    by (unfold turn_samples; lia).
  assert (Hblock : Forall is_int16
                     (take (Z.to_nat (turn_samples st l)) (drop off samples)))
    by (apply Forall_take, Forall_drop; exact Hs).
  assert (Hlen : Z.of_nat (length (take (Z.to_nat (turn_samples st l))
                                     (drop off samples)))
                 = turn_samples st l)
    by (rewrite length_take; lia).
  pose proof (normalizer_step_inv st _ Hinv Hblock ltac:(lia)) as Hinv'.
  unfold normalizer_blocks.
  destruct (l - turn_samples st l >? 0) eqn:E.
  - (* the current block is completed and samples are left *)
    assert (En : turn_samples st l = AudioNormSamples - AudioNormCounter st)
      by (unfold turn_samples in *; lia).
    pose proof (normalizer_step_complete st
                  (take (Z.to_nat (turn_samples st l)) (drop off samples))
                  ltac:(lia)) as Ec.
    destruct (IH _ (off + Z.to_nat (turn_samples st l))%nat
                (l - turn_samples st l) Hinv' ltac:(lia) ltac:(lia))
      as [Eloop Hfinal].
    rewrite Eloop. unfold normalizer_blocks in Hfinal |- *.
    rewrite <- drop_drop in Hfinal |- *.
    rewrite (blocks_of_next st _ (drop off samples) Ec) by lia.
    rewrite <- En. cbn [fold_left]. split; [reflexivity|exact Hfinal].
  - (* the call ends inside the current block, or at its end *)
    rewrite blocks_of_last by lia. cbn [fold_left].
    rewrite take_ge in Hinv' |- * by lia.
    split; [reflexivity|exact Hinv'].
Qed.

(** C6: a call of the normaliser handles its buffer piece by piece, cut
    at the boundaries of the 4096-sample blocks, and each piece as the
    specification says: its energy is added to the current entry of the
    128-entry history; at 4096 samples the block completes, the index moves
    on cyclically, and with a full history and a positive mean energy the
    factor becomes the 50/50 blend with the target derived from the root of
    the mean, clamped into [AudioMinNormalize, AudioMaxNormalize].  The call
    returns with exactly the variables these steps give, keeps the
    invariant, and scales every sample of its buffer by the final factor
    with hard clamping; every turn of the loop is one such step, and a call
    that stays within the current block is a single step. *)
Theorem AudioNormalizer_blocks (st : NormalizerState) (samples : list Z) :
  norm_inv st -> Forall is_int16 samples ->
  (forall (off : nat) (l : Z),
      0 <= l -> (off + Z.to_nat l <= length samples)%nat ->
      normalizer_turn st samples off l
      = (normalizer_step st (take (Z.to_nat (turn_samples st l)) (drop off samples)),
         (off + Z.to_nat (turn_samples st l))%nat,
         l - turn_samples st l))
  /\ (AudioNormalizer st samples (2 * Z.of_nat (length samples))
      = Some (normalizer_blocks st samples,
              map (fun s =>
                     clamp16 (cdiv (s * AudioNormalizeFactor (normalizer_blocks st samples))
                                1000))
                samples)
      /\ concat (blocks_of st samples) = samples
      /\ norm_inv (normalizer_blocks st samples)
      /\ Forall is_int16
           (map (fun s =>
                   clamp16 (cdiv (s * AudioNormalizeFactor (normalizer_blocks st samples))
                              1000))
              samples))
  /\ (AudioNormCounter st + Z.of_nat (length samples) <= AudioNormSamples ->
      AudioNormalizer st samples (2 * Z.of_nat (length samples))
      = Some (normalizer_step st samples,
              map (fun s =>
                     clamp16 (cdiv (s * AudioNormalizeFactor (normalizer_step st samples))
                                1000))
                samples))
  /\ (forall block : list Z,
        AudioNormSamples <= AudioNormCounter st + Z.of_nat (length block) ->
        AudioNormMaxIndex <= AudioNormReady st ->
        0 < mean_energy
              (<[Z.to_nat (AudioNormIndex st) :=
                   energy_sum (load (AudioNormAverage st)
                                 (Z.to_nat (AudioNormIndex st))) block]>
                 (AudioNormAverage st)) ->
        AudioMinNormalize <= AudioMaxNormalize st ->
        AudioMinNormalize <= AudioNormalizeFactor (normalizer_step st block)
                          <= AudioMaxNormalize st).
Proof.
  intros Hinv Hs.
  assert (Hscale : forall st', norm_inv st' ->
            apply_factor (AudioNormalizeFactor st') samples (length samples)
            = map (fun s => clamp16 (cdiv (s * AudioNormalizeFactor st') 1000)) samples).
  { intros st' (_ & _ & _ & _ & _ & Hf & _). apply apply_factor_scaled.
    eapply Forall_impl; [exact Hs|]. cbv beta.
    unfold is_int16, is_int, INT16_MIN, INT16_MAX, INT_MIN, INT_MAX. intros s Hr. nia. }
  split; [|split; [|split]].
  - intros off l Hl Hoff. apply normalizer_turn_step; assumption.
  - destruct (AudioNormalizer_loop_blocks samples Hs (S (length samples)) st 0%nat
                (Z.of_nat (length samples)) Hinv ltac:(lia) ltac:(lia))
      as [Eloop Hfinal].
    rewrite drop_0 in Eloop, Hfinal.
    unfold AudioNormalizer. rewrite sample_count_Z, Nat2Z.id, Eloop.
    rewrite (Hscale _ Hfinal).
    split; [reflexivity|]. split; [apply concat_blocks_of|].
    split; [exact Hfinal|apply Forall_clamp16].
  - intros Hfit. unfold AudioNormalizer. rewrite sample_count_Z, Nat2Z.id.
    rewrite AudioNormalizer_loop_S.
    rewrite normalizer_turn_step by (try assumption; lia).
    cbn [fst snd]. unfold turn_samples.
    replace (Z.min (Z.of_nat (length samples)) (AudioNormSamples - AudioNormCounter st))
      with (Z.of_nat (length samples)) by lia.
    rewrite Z.sub_diag. cbn [Z.gtb Z.compare].
    rewrite Nat2Z.id, drop_0, firstn_all.
    rewrite Hscale; [reflexivity|].
    apply normalizer_step_inv; assumption.
  - intros block Hfull Hready Hmean Hmax. unfold normalizer_step.
    replace (AudioNormCounter st + Z.of_nat (length block) <? AudioNormSamples)
      with false by lia.
    cbn [AudioNormalizeFactor].
    replace (AudioNormMaxIndex <=? AudioNormReady st) with true by lia.
    match goal with |- context [0 <? ?m] => replace (0 <? m) with true by lia end.
    cbn [andb]. lia.
Qed.

(** AudioResetNormalizer establishes the invariant for a configured
    maximum that keeps the scaling inside an [int]. *)
Lemma AudioResetNormalizer_inv (st : NormalizerState) :
  length (AudioNormAverage st) = Z.to_nat AudioNormMaxIndex ->
  0 <= AudioNormIndex st < AudioNormMaxIndex ->
  0 <= AudioMaxNormalize st <= 65535 ->
  norm_inv (AudioResetNormalizer st).
Proof.
  intros Hlen Hidx Hmax.
  destruct (AudioResetNormalizer_silent st Hlen) as ((Hz & Hc & Hf) & _ & _).
  unfold norm_inv. rewrite Hf, (load_all_zero _ _ Hz).
  split.
  { unfold AudioResetNormalizer. cbn [AudioNormAverage].
    rewrite for_loop_length; [exact Hlen|].
    intros j b. unfold store. apply length_insert. }
  split; [exact Hidx|]. split; [exact Hc|]. split.
  { eapply Forall_impl; [exact Hz|]. cbv beta. intros a ->. lia. }
  split; [lia|]. split; [lia|exact Hmax].
Qed.

Lemma normalizer_full_inv : norm_inv normalizer_full.
Proof.
  unfold norm_inv, normalizer_full.
  cbn [AudioNormAverage AudioNormIndex AudioNormReady AudioNormCounter
       AudioNormalizeFactor AudioMaxNormalize].
  split; [apply length_replicate|].
  split; [unfold AudioNormMaxIndex; lia|].
  split; [unfold AudioNormSamples; lia|].
  split; [apply Forall_replicate; lia|].
  split; [vm_compute; discriminate|].
  split; lia.
Qed.

(** A call of two samples across a block boundary: the first sample
    completes the block and raises the factor, the second opens the next
    block. *)
Lemma AudioNormalizer_blocks_witness :
  exists avgs,
    AudioNormalizer normalizer_full [1000; 1000] 4
    = Some ({| AudioNormAverage := avgs; AudioNormIndex := 1; AudioNormReady := 128;
               AudioNormCounter := 1; AudioNormalizeFactor := 2000;
               AudioMaxNormalize := 2000 |},
            [2000; 2000]).
Proof.
  destruct (AudioNormalizer_blocks normalizer_full [1000; 1000]) as (_ & (H & _) & _).
  - exact normalizer_full_inv.
  - repeat constructor; vm_compute; discriminate.
  - eexists. refine (eq_trans H _). vm_compute. reflexivity.
Defined.

End NormalizerSteps.

(** ** The ring of audio ring buffers *)

Section RingFacts.
Import Ring.

Lemma search_rate_table (sample_rate : Z) :
  search_rate AudioRatesTable 0 sample_rate
  = if sample_rate =? 44100 then Some 0%nat
    else if sample_rate =? 48000 then Some 1%nat
    else if sample_rate =? 192000 then Some 2%nat
    else None.
Proof.
  unfold AudioRatesTable. cbn [search_rate].
  destruct (sample_rate =? 44100) eqn:E1.
  - replace (44100 =? sample_rate) with true by lia. reflexivity.
  - replace (44100 =? sample_rate) with false by lia.
    destruct (44100 >? sample_rate) eqn:G1.
    { replace (sample_rate =? 48000) with false by lia.
      replace (sample_rate =? 192000) with false by lia. reflexivity. }
    destruct (sample_rate =? 48000) eqn:E2.
    + replace (48000 =? sample_rate) with true by lia. reflexivity.
    + replace (48000 =? sample_rate) with false by lia.
      destruct (48000 >? sample_rate) eqn:G2.
      { replace (sample_rate =? 192000) with false by lia. reflexivity. }
      destruct (sample_rate =? 192000) eqn:E3.
      * replace (192000 =? sample_rate) with true by lia. reflexivity.
      * replace (192000 =? sample_rate) with false by lia.
        destruct (192000 >? sample_rate); reflexivity.
Qed.

(** The search finds a rate exactly when the table holds it, at its index. *)
Lemma search_rate_found (sample_rate : Z) (u : nat) :
  search_rate AudioRatesTable 0 sample_rate = Some u
  <-> AudioRatesTable !! u = Some sample_rate.
Proof.
  rewrite search_rate_table. unfold AudioRatesTable. split.
  - destruct (sample_rate =? 44100) eqn:E1;
      [|destruct (sample_rate =? 48000) eqn:E2;
        [|destruct (sample_rate =? 192000) eqn:E3]];
      intros [= <-]; cbn; f_equal; lia.
  - destruct u as [|[|[|u]]]; cbn; intros [= <-]; reflexivity.
Qed.

Lemma search_rate_missing (sample_rate : Z) :
  search_rate AudioRatesTable 0 sample_rate = None
  <-> sample_rate <> 44100 /\ sample_rate <> 48000 /\ sample_rate <> 192000.
Proof.
  rewrite search_rate_table.
  destruct (sample_rate =? 44100) eqn:E1;
    [|destruct (sample_rate =? 48000) eqn:E2;
      [|destruct (sample_rate =? 192000) eqn:E3]];
    split; try discriminate; try lia; intros; reflexivity.
Qed.

Lemma matrix_entry_defined (m : list (list Z)) (u : nat) (channels : Z) :
  matrix_wf m -> (u < length AudioRatesTable)%nat -> 0 <= channels <= 8 ->
  is_Some (matrix_entry m u channels).
Proof.
  intros [Hlen Hrows] Hu Hc. unfold matrix_entry.
  replace (channels <? 0) with false by lia.
  destruct (lookup_lt_is_Some_2 m u ltac:(lia)) as [row Hrow]. rewrite Hrow.
  apply lookup_lt_is_Some_2.
  rewrite Forall_lookup in Hrows. rewrite (Hrows u row Hrow). lia.
Qed.

(** What a single call does, by the three checks in their order. *)
Lemma AudioRingAdd_cases (st : AudioState) (sample_rate channels passthrough : Z) :
  matrix_wf (AudioChannelMatrix st) -> 0 <= channels <= 8 ->
  exists r st',
    AudioRingAdd st sample_rate channels passthrough = Some (r, st')
    /\ AudioChannelMatrix st' = AudioChannelMatrix st
    /\ (r = RingAddOk ->
        AudioRingFilled st <> AUDIO_RING_MAX
        /\ AudioRingFilled st' = AudioRingFilled st + 1)
    /\ (r <> RingAddOk -> st' = st)
    /\ (r = RingAddError OutOfRingBuffers -> AudioRingFilled st = AUDIO_RING_MAX).
Proof.
  intros Hm Hc. unfold AudioRingAdd.
  destruct (search_rate AudioRatesTable 0 sample_rate) as [u|] eqn:Es.
  - assert (Hu : (u < length AudioRatesTable)%nat).
    { apply search_rate_found in Es. eapply lookup_lt_Some. exact Es. }
    destruct (matrix_entry_defined _ u channels Hm Hu Hc) as [hw ->].
    destruct (hw =? 0) eqn:Eh.
    + eexists _, _. split; [reflexivity|]. repeat split; try discriminate; auto.
    + destruct (AudioRingFilled st =? AUDIO_RING_MAX) eqn:Ef.
      * eexists _, _. split; [reflexivity|].
        repeat split; try discriminate; auto. intros _. lia.
      * eexists _, _. split; [reflexivity|]. cbn.
        repeat split; try discriminate; try lia. intros H. contradiction H. reflexivity.
  - eexists _, _. split; [reflexivity|]. repeat split; try discriminate; auto.
Qed.

(** AudioRingInit leaves a ring that counts as empty. *)
Lemma AudioRingInit_filled (st : AudioState) :
  AudioRingFilled (AudioRingInit st) = 0
  /\ AudioChannelMatrix (AudioRingInit st) = AudioChannelMatrix st.
Proof. split; reflexivity. Qed.

Lemma ring_start_matrix : matrix_wf (AudioChannelMatrix ring_start).
Proof. split; [reflexivity|]. repeat constructor. Qed.

(** C1: in every sequence of AudioRingAdd calls with nothing draining the
    ring, every call returns and AudioRingFilled stays at most
    AUDIO_RING_MAX = 8; a call whose rate and channel checks succeed fails
    with the ring-full error exactly when AudioRingFilled is 8 at entry and
    otherwise succeeds, and no call reports a full ring at another fill
    level. *)
Theorem AudioRingAdd_never_overfills (st : AudioState) (calls : list ring_add_call) :
  matrix_wf (AudioChannelMatrix st) ->
  AudioRingFilled st <= AUDIO_RING_MAX ->
  Forall valid_call calls ->
  (exists trace,
      AudioRingAdd_calls st calls = Some trace
      /\ length trace = length calls
      /\ Forall (fun rs => AudioRingFilled rs.2 <= AUDIO_RING_MAX) trace)
  /\ (forall sample_rate channels passthrough u hw,
        search_rate AudioRatesTable 0 sample_rate = Some u ->
        matrix_entry (AudioChannelMatrix st) u channels = Some hw -> hw <> 0 ->
        exists r st',
          AudioRingAdd st sample_rate channels passthrough = Some (r, st')
          /\ (r = RingAddError OutOfRingBuffers <-> AudioRingFilled st = AUDIO_RING_MAX)
          /\ (r = RingAddOk <-> AudioRingFilled st <> AUDIO_RING_MAX))
  /\ (forall sample_rate channels passthrough r st',
        AudioRingAdd st sample_rate channels passthrough = Some (r, st') ->
        r = RingAddError OutOfRingBuffers -> AudioRingFilled st = AUDIO_RING_MAX).
Proof.
  intros Hm Hf Hcalls. split; [|split].
  - revert st Hm Hf.
    induction Hcalls as [|c calls Hc _ IH]; intros st Hm Hf; cbn [AudioRingAdd_calls].
    + exists []. repeat split. constructor.
    + destruct (AudioRingAdd_cases st (call_sample_rate c) (call_channels c)
                  (call_passthrough c) Hm Hc)
        as (r & st' & -> & Em & Hok & Herr & _).
      assert (Hf' : AudioRingFilled st' <= AUDIO_RING_MAX).
      { destruct r as [|e].
        - destruct (Hok eq_refl) as [Hne ->]. lia.
        - rewrite (Herr ltac:(discriminate)). exact Hf. }
      destruct (IH st' ltac:(rewrite Em; exact Hm) Hf') as (trace & -> & Hlen & Hall).
      exists ((r, st') :: trace). split; [reflexivity|]. split.
      * cbn [length]. rewrite Hlen. reflexivity.
      * constructor; [exact Hf'|exact Hall].
  - intros sample_rate channels passthrough u hw Es Eh Hhw.
    unfold AudioRingAdd. rewrite Es, Eh.
    replace (hw =? 0) with false by lia.
    destruct (AudioRingFilled st =? AUDIO_RING_MAX) eqn:Ef.
    + eexists _, _. split; [reflexivity|]. split; split; try discriminate; try lia.
      reflexivity.
    + eexists _, _. split; [reflexivity|]. split; split; try discriminate; try lia.
      reflexivity.
  - intros sample_rate channels passthrough r st' E ->.
    unfold AudioRingAdd in E.
    destruct (search_rate AudioRatesTable 0 sample_rate); [|discriminate].
    destruct (matrix_entry (AudioChannelMatrix st) n channels); [|discriminate].
    destruct (z =? 0); [discriminate|].
    destruct (AudioRingFilled st =? AUDIO_RING_MAX) eqn:Ef; [lia|discriminate].
Qed.

Lemma AudioRingAdd_never_overfills_witness :
  exists trace,
    AudioRingAdd_calls ring_start
      (replicate 9 {| call_sample_rate := 48000; call_channels := 2;
                      call_passthrough := 0 |})
    = Some trace
    /\ length trace = 9%nat
    /\ Forall (fun rs => AudioRingFilled rs.2 <= AUDIO_RING_MAX) trace.
Proof.
  refine (proj1 (AudioRingAdd_never_overfills ring_start
                   (replicate 9 {| call_sample_rate := 48000; call_channels := 2;
                                   call_passthrough := 0 |}) _ _ _)).
  - exact ring_start_matrix.
  - vm_compute. discriminate.
  - apply Forall_replicate. unfold valid_call. simpl. lia.
Defined.

(** C2 as stated fails: on hardware whose matrix accepts two channels at
    every rate and with an empty ring, a request for 32000 Hz is not mapped
    to the nearest table rate but refused as an unsupported rate. *)
Lemma AudioRingAdd_rate_not_nearest :
  (forall u : nat, (u < length AudioRatesTable)%nat ->
                   matrix_entry (AudioChannelMatrix ring_start) u 2 = Some 2)
  /\ AudioRingFilled ring_start <> AUDIO_RING_MAX
  /\ AudioRingAdd ring_start 32000 2 0 = Some (RingAddError UnsupportedRate, ring_start).
Proof.
  split; [|split].
  - intros [|[|[|u]]] Hu; [reflexivity..|cbn in Hu; lia].
  - discriminate.
  - reflexivity.
Qed.

(** C2, as the code has it: the requested rate must equal an entry of the
    rates table (44100, 48000, 192000), otherwise the call fails with the
    unsupported-rate error; for the table entry [u] of the rate the call
    fails with the unsupported-channels error exactly when
    [AudioChannelMatrix[u][channels]] is zero; with both checks passed and
    a free slot it advances the write index by one modulo 8, resets that
    slot's ring buffer, stores the rate as requested and the hardware
    channel count of the matrix (an [int] read into an [unsigned] field, so
    itself when it is not negative), stores the pass-through argument
    narrowed to the field's [char] (itself in -128..127, and zero exactly
    for a multiple of 256), sets the slot's PTS to the unknown value, leaves
    the other slots alone and increments AudioRingFilled. *)
Theorem AudioRingAdd_exact_rate (st : AudioState) (sample_rate channels passthrough : Z) :
  matrix_wf (AudioChannelMatrix st) -> ring_wf st -> 0 <= channels <= 8 ->
  (~ In sample_rate AudioRatesTable ->
   AudioRingAdd st sample_rate channels passthrough
   = Some (RingAddError UnsupportedRate, st))
  /\ (forall u : nat, AudioRatesTable !! u = Some sample_rate ->
      exists hw,
        matrix_entry (AudioChannelMatrix st) u channels = Some hw
        /\ (AudioRingAdd st sample_rate channels passthrough
            = Some (RingAddError UnsupportedChannels, st) <-> hw = 0)
        /\ (hw <> 0 -> AudioRingFilled st <> AUDIO_RING_MAX ->
            exists st',
              AudioRingAdd st sample_rate channels passthrough = Some (RingAddOk, st')
              /\ AudioRingWrite st' = (AudioRingWrite st + 1) mod AUDIO_RING_MAX
              /\ AudioRingFilled st' = AudioRingFilled st + 1
              /\ slot st' (AudioRingWrite st')
                 = {| FlushBuffers := false;
                      Passthrough := to_char passthrough;
                      PacketSize := 0;
                      HwSampleRate := sample_rate;
                      HwChannels := to_unsigned hw;
                      InSampleRate := sample_rate;
                      InChannels := channels;
                      PTS := AV_NOPTS;
                      Buffer := RingBufferReset
                                  (Buffer (slot st ((AudioRingWrite st + 1)
                                                    mod AUDIO_RING_MAX))) |}
              /\ (0 <= hw <= INT_MAX ->
                  HwChannels (slot st' (AudioRingWrite st')) = hw)
              /\ (-128 <= passthrough <= 127 ->
                  Passthrough (slot st' (AudioRingWrite st')) = passthrough)
              /\ (Passthrough (slot st' (AudioRingWrite st')) = 0
                  <-> passthrough mod 256 = 0)
              /\ RingBufferUsedBytes (Buffer (slot st' (AudioRingWrite st'))) = 0
              /\ (forall i, 0 <= i -> i <> AudioRingWrite st' -> slot st' i = slot st i))).
Proof.
  intros Hm [Hlen Hw] Hc. split.
  - intros Hnot. unfold AudioRingAdd.
    replace (search_rate AudioRatesTable 0 sample_rate) with (@None nat); [reflexivity|].
    symmetry. apply search_rate_missing. unfold AudioRatesTable in Hnot. cbn in Hnot.
    repeat split; intros ->; apply Hnot; auto.
  - intros u Hu.
    assert (Hlt : (u < length AudioRatesTable)%nat) by (eapply lookup_lt_Some; exact Hu).
    destruct (matrix_entry_defined _ u channels Hm Hlt Hc) as [hw Eh].
    exists hw. split; [exact Eh|].
    apply search_rate_found in Hu. unfold AudioRingAdd. rewrite Hu, Eh.
    unfold AUDIO_RING_MAX in *.
    split.
    + destruct (hw =? 0) eqn:E0.
      * split; [lia|reflexivity].
      * split; [|lia]. destruct (AudioRingFilled st =? 8); discriminate.
    + intros Hhw Hfree.
      replace (hw =? 0) with false by lia.
      replace (AudioRingFilled st =? 8) with false by lia.
      rewrite Z.rem_mod_nonneg by lia.
      pose proof (Z.mod_pos_bound (AudioRingWrite st + 1) 8 ltac:(lia)) as Hb.
      eexists. split; [reflexivity|].
      cbn [AudioRingWrite AudioRingFilled].
      split; [reflexivity|]. split; [reflexivity|].
      assert (Es : forall r,
                 default zero_slot
                   (<[Z.to_nat ((AudioRingWrite st + 1) mod 8) := r]> (AudioRing st)
                    !! Z.to_nat ((AudioRingWrite st + 1) mod 8)) = r).
      { intros r. rewrite list_lookup_insert_eq by lia. reflexivity. }
      assert (Ech : to_unsigned channels = channels) by (apply to_unsigned_id; lia).
      split; [|split; [|split; [|split; [|split]]]].
      * unfold slot at 1, set_slot. cbn [AudioRing]. rewrite Es, Ech. reflexivity.
      * intros Hpos. unfold slot at 1, set_slot. cbn [AudioRing]. rewrite Es.
        cbn [HwChannels]. apply to_unsigned_id. unfold INT_MAX in Hpos. lia.
      * intros Hp. unfold slot at 1, set_slot. cbn [AudioRing]. rewrite Es.
        cbn [Passthrough]. apply to_char_id. exact Hp.
      * unfold slot at 1, set_slot. cbn [AudioRing]. rewrite Es.
        cbn [Passthrough]. apply to_char_zero.
      * unfold slot at 1, set_slot. cbn [AudioRing]. rewrite Es. reflexivity.
      * intros i Hi Hne. unfold slot, set_slot. cbn [AudioRing].
        rewrite list_lookup_insert_ne by lia. reflexivity.
Qed.

Lemma AudioRingAdd_exact_rate_witness :
  exists st',
    AudioRingAdd ring_start 48000 2 0 = Some (RingAddOk, st')
    /\ AudioRingWrite st' = 1
    /\ AudioRingFilled st' = 1
    /\ HwChannels (slot st' 1) = 2
    /\ PTS (slot st' 1) = AV_NOPTS.
Proof.
  destruct (AudioRingAdd_exact_rate ring_start 48000 2 0) as [_ H].
  - exact ring_start_matrix.
  - split; [reflexivity|]. vm_compute. split; [discriminate|reflexivity].
  - lia.
  - destruct (H 1%nat eq_refl) as (hw & Eh & _ & Hok).
    injection Eh as <-.
    destruct (Hok ltac:(discriminate) ltac:(discriminate))
      as (st' & E & Ew & Ef & Es & _).
    exists st'. split; [exact E|].
    assert (Ew' : AudioRingWrite st' = 1) by (rewrite Ew; reflexivity).
    rewrite Ew' in Es. rewrite Es. cbn.
    repeat split; [exact Ew'|rewrite Ef; reflexivity].
Defined.

End RingFacts.

(** ** Audio clock and audio/video synchronisation *)

Section SyncFacts.
Import Ring Sync.

Lemma AV_NOPTS_value : AV_NOPTS = - 2 ^ 63.
Proof. reflexivity. Qed.

Lemma bytes_per_second_exact (r : AudioRingRing) :
  0 < HwSampleRate r -> 0 < HwChannels r -> HwSampleRate r * HwChannels r < 2 ^ 31 ->
  bytes_per_second r = HwSampleRate r * HwChannels r * 2
  /\ 0 < bytes_per_second r.
Proof.
  intros Hr Hc Hb. unfold bytes_per_second, AudioBytesProSample.
  rewrite (to_unsigned_id (HwSampleRate r * HwChannels r)) by nia.
  rewrite to_unsigned_id by nia. split; nia.
Qed.

Lemma ticks_bound (x d : Z) : 0 <= x -> 0 < d -> 0 <= cdiv (x * 90 * 1000) d <= x * 90000.
Proof.
  intros Hx Hd. unfold cdiv. split.
  - apply Z.quot_pos; lia.
  - apply Z.quot_le_upper_bound; nia.
Qed.

Lemma AlsaGetDelay_ticks (alsa : AlsaState) (st : AudioState) :
  0 < HwSampleRate (slot st (AudioRingRead st)) ->
  hardware_delay_frames alsa < 2 ^ 32 ->
  AlsaGetDelay alsa st
  = cdiv (hardware_delay_frames alsa * 90 * 1000)
         (HwSampleRate (slot st (AudioRingRead st))).
Proof.
  intros Hr Hd. unfold AlsaGetDelay, hardware_delay_frames in *.
  replace (HwSampleRate (slot st (AudioRingRead st)) =? 0) with false by lia.
  destruct (AlsaPCMHandle alsa); cbn [negb orb]; [|reflexivity].
  assert (G : forall d, 0 <= d < 2 ^ 32 ->
                        to_int64 (to_int64 (d * 90) * 1000) = d * 90 * 1000).
  { intros d Hb. rewrite (to_int64_id (d * 90)) by lia. apply to_int64_id. lia. }
  destruct (snd_pcm_delay alsa) as [d|].
  - destruct (d <? 0) eqn:E.
    + replace (Z.max 0 d) with 0 by lia. reflexivity.
    + replace (Z.max 0 d) with d in * by lia. rewrite G by lia. reflexivity.
  - reflexivity.
Qed.

(** C3 as stated fails: with playback running on a single configured slot
    whose time stamp is known, an empty buffer and a sink without delay
    make the delay zero, and AudioGetClock answers "unknown" instead of the
    time stamp minus that delay. *)
Lemma AudioGetClock_zero_delay_unknown :
  AudioRunning clock_state = true
  /\ HwSampleRate (slot clock_state (AudioRingRead clock_state)) = 48000
  /\ AudioRingFilled clock_state = 0
  /\ PTS (slot clock_state (AudioRingRead clock_state)) = 90000
  /\ AudioGetDelay alsa_idle clock_state = Some 0
  /\ AudioGetClock alsa_idle clock_state = Some AV_NOPTS
  /\ AV_NOPTS <> 90000 - 0.
Proof. repeat split; try reflexivity. discriminate. Qed.

(** C3, as the code has it: AudioGetClock answers "unknown" whenever
    playback is not running, the read slot has no hardware format, ring
    slots are pending, or the read slot's time stamp is unknown; otherwise
    the delay is the sink's delay plus the read slot's buffered bytes, both
    in 90 kHz ticks, and the clock is the slot's time stamp minus that delay
    unless the delay is zero, which again gives "unknown". *)
Theorem AudioGetClock_delay (alsa : AlsaState) (st : AudioState) :
  let r := slot st (AudioRingRead st) in
  (AudioRunning st = false \/ HwSampleRate r = 0 \/ AudioRingFilled st <> 0
   \/ PTS r = AV_NOPTS ->
   AudioGetClock alsa st = Some AV_NOPTS)
  /\ (AudioRunning st = true -> AudioRingFilled st = 0 -> PTS r <> AV_NOPTS ->
      0 < HwSampleRate r -> 0 < HwChannels r ->
      HwSampleRate r * HwChannels r < 2 ^ 31 ->
      0 <= Filled (Buffer r) < 2 ^ 32 -> hardware_delay_frames alsa < 2 ^ 32 ->
      - 2 ^ 62 <= PTS r < 2 ^ 62 ->
      let delay :=
        cdiv (hardware_delay_frames alsa * 90 * 1000) (HwSampleRate r)
        + cdiv (Filled (Buffer r) * 90 * 1000)
               (HwSampleRate r * HwChannels r * AudioBytesProSample) in
      AudioGetDelay alsa st = Some delay
      /\ AudioGetClock alsa st
         = Some (if delay =? 0 then AV_NOPTS else PTS r - delay)).
Proof.
  intros r. split.
  - intros H. unfold AudioGetClock, AudioGetDelay. fold r.
    destruct (PTS r =? AV_NOPTS) eqn:Ep; [reflexivity|]. cbn [negb].
    destruct (AudioRunning st) eqn:Er; cbn [negb]; [|reflexivity].
    destruct (HwSampleRate r =? 0) eqn:Eh; [reflexivity|].
    destruct (AudioRingFilled st =? 0) eqn:Ef; cbn [negb]; [|reflexivity].
    destruct H as [H|[H|[H|H]]]; try discriminate; lia.
  - intros Hrun Hfill Hpts Hrate Hch Hprod Hused Hhw Hrange delay.
    destruct (bytes_per_second_exact r Hrate Hch Hprod) as [Eb Hb].
    assert (Hframes : 0 <= hardware_delay_frames alsa).
    { unfold hardware_delay_frames.
      destruct (AlsaPCMHandle alsa); [destruct (snd_pcm_delay alsa)|]; lia. }
    pose proof (ticks_bound (hardware_delay_frames alsa) (HwSampleRate r)
                  Hframes Hrate) as Hd1.
    pose proof (ticks_bound (Filled (Buffer r)) (bytes_per_second r)
                  ltac:(lia) Hb) as Hd2.
    assert (Ed : AudioGetDelay alsa st = Some delay).
    { unfold AudioGetDelay. fold r. rewrite Hrun, Hfill. cbn [negb Z.eqb].
      replace (HwSampleRate r =? 0) with false by lia.
      replace (bytes_per_second r =? 0) with false by lia.
      rewrite AlsaGetDelay_ticks by (fold r; assumption). fold r.
      unfold RingBufferUsedBytes.
      rewrite (to_int64_id (Filled (Buffer r))) by lia.
      rewrite (to_int64_id (Filled (Buffer r) * 90)) by lia.
      rewrite (to_int64_id (Filled (Buffer r) * 90 * 1000)) by lia.
      rewrite to_int64_id by lia.
      unfold delay, AudioBytesProSample. rewrite <- Eb. reflexivity. }
    split; [exact Ed|].
    unfold AudioGetClock. fold r. rewrite Ed.
    replace (PTS r =? AV_NOPTS) with false by lia. cbn [negb].
    assert (Hdelay : 0 <= delay < 2 ^ 62).
    { unfold delay, AudioBytesProSample. rewrite <- Eb. lia. }
    destruct (delay =? 0) eqn:E0; cbn [negb]; [reflexivity|].
    rewrite to_int64_id by lia. f_equal. lia.
Qed.

Lemma AudioGetClock_delay_witness :
  AudioGetClock {| AlsaPCMHandle := true; snd_pcm_delay := Some 480 |}
    {| AudioRing := <[0%nat := stereo_slot 90000 19200]> (AudioRing ring_start);
       AudioRingWrite := 0; AudioRingRead := 0; AudioRingFilled := 0;
       AudioStartThreshold := 0; AudioRunning := true; AudioVideoIsReady := true;
       AudioSkip := 0; AudioBufferTime := 336; VideoAudioDelay := 0;
       AudioThread := true; AudioChannelMatrix := AudioChannelMatrix ring_start |}
  = Some (90000 - (900 + 9000)).
Proof.
  refine (proj2 (proj2 (AudioGetClock_delay _ _) _ _ _ _ _ _ _ _ _));
    try reflexivity; try discriminate; vm_compute; split; congruence.
Defined.

(** C10: called with the unknown time stamp, AudioVideoReady returns with
    the state as it was. *)
Theorem AudioVideoReady_no_video (st : AudioState) :
  AV_NOPTS = to_int64 9223372036854775808
  /\ AudioVideoReady st AV_NOPTS = Some st.
Proof.
  split; [reflexivity|].
  unfold AudioVideoReady. rewrite Z.eqb_refl. reflexivity.
Qed.

Lemma to_int64_size_t (x : Z) : to_int64 (to_size_t x) = to_int64 x.
Proof.
  unfold to_int64, to_size_t, wrap_signed, wrap_unsigned.
  rewrite Zplus_mod_idemp_l. reflexivity.
Qed.

Lemma audio_pts_exact (r : AudioRingRing) (used : Z) :
  0 < HwSampleRate r -> 0 < HwChannels r -> HwSampleRate r * HwChannels r < 2 ^ 31 ->
  0 <= used < 2 ^ 31 -> - 2 ^ 62 <= PTS r < 2 ^ 62 ->
  audio_pts_of r used
  = PTS r - cdiv (used * 90 * 1000)
                 (HwSampleRate r * HwChannels r * AudioBytesProSample).
Proof.
  intros Hr Hc Hb Hu Hp. unfold audio_pts_of.
  destruct (bytes_per_second_exact r Hr Hc Hb) as [Eb Hpos].
  rewrite to_int64_size_t.
  rewrite (to_size_t_id (used * 90)) by lia.
  rewrite (to_size_t_id (used * 90 * 1000)) by lia.
  pose proof (ticks_bound used (bytes_per_second r) ltac:(lia) Hpos) as Hq.
  rewrite to_int64_id by lia.
  unfold AudioBytesProSample. rewrite <- Eb. reflexivity.
Qed.

Lemma skip_bytes_exact (r : AudioRingRing) (skip : Z) :
  0 < skip < 2000 * 90 ->
  0 < HwSampleRate r -> 0 < HwChannels r -> HwSampleRate r * HwChannels r < 2 ^ 29 ->
  skip_bytes r skip
  = cdiv (skip * HwSampleRate r) (1000 * 90) * HwChannels r * AudioBytesProSample
  /\ 0 <= skip_bytes r skip < 2 ^ 31.
Proof.
  intros Hs Hr Hc Hb. unfold skip_bytes, AudioBytesProSample.
  assert (Hq : 0 <= cdiv (skip * HwSampleRate r) (1000 * 90) <= 2 * HwSampleRate r).
  { unfold cdiv. split.
    - apply Z.quot_pos; lia.
    - apply Z.quot_le_upper_bound; nia. }
  rewrite (to_int64_id (skip * HwSampleRate r)) by nia.
  set (q := cdiv (skip * HwSampleRate r) (1000 * 90)) in *.
  assert (Hqc : 0 <= q * HwChannels r <= 2 * (HwSampleRate r * HwChannels r)) by nia.
  rewrite (to_int64_id (q * HwChannels r)) by lia.
  rewrite (to_int64_id (q * HwChannels r * 2)) by lia.
  rewrite to_int_id by (unfold is_int, INT_MIN, INT_MAX; lia).
  split; [reflexivity|lia].
Qed.

Lemma with_buffer_same (r : AudioRingRing) : with_buffer r (Buffer r) = r.
Proof. destruct r. reflexivity. Qed.

Lemma slot_set_slot (st : AudioState) (i : Z) (r : AudioRingRing) :
  (Z.to_nat i < length (AudioRing st))%nat ->
  default zero_slot (set_slot st i r !! Z.to_nat i) = r.
Proof.
  intros H. unfold set_slot. rewrite list_lookup_insert_eq by exact H. reflexivity.
Qed.

Lemma RingBufferReadAdvance_capped (rb : RingBuffer) (cnt : Z) :
  cnt <= Filled rb ->
  RingBufferReadAdvance rb cnt
  = ({| Size := Size rb; ReadPointer := (ReadPointer rb + cnt) mod Size rb;
        WritePointer := WritePointer rb; Filled := Filled rb - cnt |}, cnt).
Proof.
  intros H. unfold RingBufferReadAdvance.
  replace (cnt >? Filled rb) with false by lia. reflexivity.
Qed.

(** The skip left over by AudioVideoReady is taken from the write slot's
    buffer by the start check of AudioEnqueue. *)
Lemma AudioEnqueue_takes_skip (s : AudioState) :
  let w := slot s (AudioRingWrite s) in
  let used := Filled (Buffer w) in
  let taken := Z.min (AudioSkip s) used in
  AudioRunning s = false -> ring_wf s ->
  0 <= used < 2 ^ 31 -> 0 < AudioSkip s < 2 ^ 31 ->
  AudioSkip (AudioEnqueue_start_check s) = AudioSkip s - taken
  /\ Buffer (slot (AudioEnqueue_start_check s) (AudioRingWrite s))
     = (RingBufferReadAdvance (Buffer w) taken).1.
Proof.
  intros w used taken Hrun [Hlen Hw] Hused Hskip.
  unfold AudioEnqueue_start_check. rewrite Hrun. cbn [negb]. fold w.
  replace (to_size_t (RingBufferUsedBytes (Buffer w))) with used
    by (symmetry; apply to_size_t_id; lia).
  replace (AudioSkip s =? 0) with false by lia. cbn [negb].
  rewrite (to_unsigned_id (AudioSkip s)) by lia.
  assert (E : (if used <? AudioSkip s then to_int used else AudioSkip s) = taken).
  { unfold taken. destruct (used <? AudioSkip s) eqn:E.
    - rewrite to_int_id by (unfold is_int, INT_MIN, INT_MAX; lia). lia.
    - lia. }
  rewrite E.
  rewrite (to_size_t_id taken) by (unfold taken; lia).
  rewrite (to_int_id (AudioSkip s - taken))
    by (unfold is_int, INT_MIN, INT_MAX, taken; lia).
  cbn [AudioSkip]. split; [reflexivity|].
  unfold slot at 1. cbn [AudioRing].
  rewrite slot_set_slot by (unfold AUDIO_RING_MAX in *; lia).
  reflexivity.
Qed.

(** C4: with a valid format and time stamp in the write slot and playback
    not running, AudioVideoReady computes
    [skip = pts - 15*20*90 - AudioBufferTime*90 - audio_pts + VideoAudioDelay]
    as an [int]; for [0 < skip < 2000*90] it converts the skip to bytes of
    the slot's hardware format, advances the read pointer of the write
    slot's buffer by the smaller of that and the bytes buffered, and stores
    what is left in AudioSkip, from where the start check of AudioEnqueue
    takes it; outside the guard neither the buffer nor AudioSkip changes.
    The slot's format is one whose byte rate fits the arithmetic
    ([HwSampleRate * HwChannels < 2^29]). *)
Theorem AudioVideoReady_skips (st : AudioState) (pts : Z) :
  let w := slot st (AudioRingWrite st) in
  let used := Filled (Buffer w) in
  let audio_pts := audio_pts_of w used in
  let skip := skip_ticks st pts audio_pts in
  let bytes :=
    cdiv (skip * HwSampleRate w) (1000 * 90) * HwChannels w * AudioBytesProSample in
  let advance := Z.min bytes used in
  pts <> AV_NOPTS -> PTS w <> AV_NOPTS -> AudioRunning st = false ->
  ring_wf st ->
  0 < HwSampleRate w -> 0 < HwChannels w -> HwSampleRate w * HwChannels w < 2 ^ 29 ->
  0 <= used < 2 ^ 31 ->
  (- 2 ^ 62 <= PTS w < 2 ^ 62 -> is_int (AudioBufferTime st * 90) ->
   is_int (pts - 15 * 20 * 90 - AudioBufferTime st * 90
           - (PTS w - cdiv (used * 90 * 1000)
                           (HwSampleRate w * HwChannels w * AudioBytesProSample))
           + VideoAudioDelay st) ->
   audio_pts = PTS w - cdiv (used * 90 * 1000)
                            (HwSampleRate w * HwChannels w * AudioBytesProSample)
   /\ skip = pts - 15 * 20 * 90 - AudioBufferTime st * 90 - audio_pts
             + VideoAudioDelay st)
  /\ (0 < skip < 2000 * 90 ->
      exists st',
        AudioVideoReady st pts = Some st'
        /\ slot st' (AudioRingWrite st)
           = with_buffer w (RingBufferReadAdvance (Buffer w) advance).1
        /\ ReadPointer (Buffer (slot st' (AudioRingWrite st)))
           = (ReadPointer (Buffer w) + advance) mod Size (Buffer w)
        /\ Filled (Buffer (slot st' (AudioRingWrite st))) = used - advance
        /\ AudioSkip st' = (if used <? bytes then bytes - used else AudioSkip st)
        /\ AudioRunning st' = (AudioStartThreshold st <? used - advance)
        /\ AudioVideoIsReady st' = true)
  /\ (~ 0 < skip < 2000 * 90 ->
      exists st',
        AudioVideoReady st pts = Some st'
        /\ slot st' (AudioRingWrite st) = w
        /\ AudioSkip st' = AudioSkip st
        /\ AudioVideoIsReady st' = true)
  /\ (forall s : AudioState,
        AudioRunning s = false -> ring_wf s ->
        0 <= Filled (Buffer (slot s (AudioRingWrite s))) < 2 ^ 31 ->
        0 < AudioSkip s < 2 ^ 31 ->
        AudioSkip (AudioEnqueue_start_check s)
        = AudioSkip s - Z.min (AudioSkip s) (Filled (Buffer (slot s (AudioRingWrite s))))
        /\ Buffer (slot (AudioEnqueue_start_check s) (AudioRingWrite s))
           = (RingBufferReadAdvance (Buffer (slot s (AudioRingWrite s)))
                (Z.min (AudioSkip s)
                   (Filled (Buffer (slot s (AudioRingWrite s)))))).1).
Proof.
  intros w used audio_pts skip bytes advance
         Hpts Hwpts Hrun [Hlen Hw] Hrate Hch Hprod Hused.
  assert (Hidx : (Z.to_nat (AudioRingWrite st) < length (AudioRing st))%nat)
    by (unfold AUDIO_RING_MAX in *; lia).
  destruct (bytes_per_second_exact w Hrate Hch ltac:(lia)) as [Eb Hb].
  assert (Hprefix :
             AudioVideoReady st pts
             = (let '(rb, audio_skip) :=
                  if (skip >? 0) && (skip <? 2000 * 90) then
                    let skip := skip_bytes w skip in
                    let '(skip, audio_skip) :=
                      if to_unsigned skip >? used
                      then (to_int used, to_int (to_size_t (skip - used)))
                      else (skip, AudioSkip st) in
                    ((RingBufferReadAdvance (Buffer w) (to_size_t skip)).1, audio_skip)
                  else (Buffer w, AudioSkip st) in
                let used := to_size_t (RingBufferUsedBytes rb) in
                let running :=
                  if AudioStartThreshold st <? used then true else AudioRunning st in
                Some (set_video_ready st
                        (set_slot st (AudioRingWrite st) (with_buffer w rb))
                        audio_skip running))).
  { unfold AudioVideoReady. fold w.
    replace (pts =? AV_NOPTS) with false by lia.
    replace (HwSampleRate w =? 0) with false by lia.
    replace (HwChannels w =? 0) with false by lia.
    replace (PTS w =? AV_NOPTS) with false by lia.
    replace (bytes_per_second w =? 0) with false by lia.
    cbn [orb]. rewrite Hrun. cbn [negb].
    replace (to_size_t (RingBufferUsedBytes (Buffer w))) with used
      by (symmetry; apply to_size_t_id; lia).
    reflexivity. }
  split; [|split; [|split]].
  - intros Hrange Hbt Hv.
    assert (Ea : audio_pts
                 = PTS w - cdiv (used * 90 * 1000)
                                (HwSampleRate w * HwChannels w * AudioBytesProSample)).
    { apply audio_pts_exact; try assumption; lia. }
    split; [exact Ea|].
    unfold skip, skip_ticks. rewrite (to_int_id _ Hbt). rewrite Ea.
    unfold is_int, INT_MIN, INT_MAX in Hv.
    rewrite to_int64_id by lia.
    apply to_int_id. exact Hv.
  - intros Hguard.
    destruct (skip_bytes_exact w skip Hguard Hrate Hch Hprod) as [Ebytes Hbytes].
    fold bytes in Ebytes. rewrite Ebytes in Hbytes.
    rewrite Hprefix.
    replace ((skip >? 0) && (skip <? 2000 * 90)) with true
      by (symmetry; apply andb_true_iff; lia).
    cbv zeta. rewrite Ebytes. rewrite (to_unsigned_id bytes) by lia.
    assert (Eadv : (let '(skip0, audio_skip) :=
                      if bytes >? used
                      then (to_int used, to_int (to_size_t (bytes - used)))
                      else (bytes, AudioSkip st) in
                    ((RingBufferReadAdvance (Buffer w) (to_size_t skip0)).1, audio_skip))
                   = ((RingBufferReadAdvance (Buffer w) advance).1,
                      if used <? bytes then bytes - used else AudioSkip st)).
    { unfold advance. destruct (bytes >? used) eqn:E.
      - replace (used <? bytes) with true by lia.
        rewrite (to_int_id used) by (unfold is_int, INT_MIN, INT_MAX; lia).
        rewrite (to_size_t_id (bytes - used)) by lia.
        rewrite (to_int_id (bytes - used)) by (unfold is_int, INT_MIN, INT_MAX; lia).
        rewrite (to_size_t_id used) by lia.
        replace (Z.min bytes used) with used by lia. reflexivity.
      - replace (used <? bytes) with false by lia.
        rewrite (to_size_t_id bytes) by lia.
        replace (Z.min bytes used) with bytes by lia. reflexivity. }
    rewrite Eadv.
    rewrite (RingBufferReadAdvance_capped (Buffer w) advance)
      by (unfold advance; fold used; lia).
    cbn [fst RingBufferUsedBytes Filled]. fold used.
    rewrite (to_size_t_id (used - advance)) by (unfold advance; lia).
    eexists. split; [reflexivity|].
    unfold slot at 1 2 3. cbn [set_video_ready AudioRing].
    rewrite slot_set_slot by exact Hidx.
    cbn [with_buffer Buffer ReadPointer Filled AudioSkip AudioRunning
         AudioVideoIsReady].
    rewrite Hrun.
    repeat split.
    destruct (AudioStartThreshold st <? used - advance); reflexivity.
  - intros Hguard. rewrite Hprefix.
    replace ((skip >? 0) && (skip <? 2000 * 90)) with false
      by (symmetry; apply andb_false_iff; lia).
    eexists. split; [reflexivity|].
    unfold slot at 1. cbn [set_video_ready AudioRing].
    rewrite slot_set_slot by exact Hidx.
    split; [apply with_buffer_same|]. split; reflexivity.
  - intros s Hs Hwf Hu Hk. apply AudioEnqueue_takes_skip; assumption.
Qed.

Lemma AudioVideoReady_skips_witness :
  exists st',
    AudioVideoReady sync_state 1066240 = Some st'
    /\ Filled (Buffer (slot st' 0)) = 0
    /\ AudioSkip st' = 19200.
Proof.
  destruct (AudioVideoReady_skips sync_state 1066240) as (_ & H & _).
  - discriminate.
  - discriminate.
  - reflexivity.
  - split; [reflexivity|]. vm_compute. split; [discriminate|reflexivity].
  - reflexivity.
  - reflexivity.
  - reflexivity.
  - vm_compute. split; [discriminate|reflexivity].
  - destruct H as (st' & E & _ & _ & Hf & Hs & _).
    + vm_compute. split; reflexivity.
    + exists st'. split; [exact E|]. split; [exact Hf|exact Hs].
Defined.

End SyncFacts.

(** * Further properties of the code *)

(** ** Channel remix: what each conversion writes *)

Section MixerConversions.
Import Mixer.

(** A loop that stores [g i] at [out[q + i]]. *)
Lemma for_loop_store_at_lookup (g : nat -> Z) (q n i0 : nat) (out : list Z) (k : nat) :
  for_loop n i0 (fun i o => store o (q + i) (g i)) out !! k
  = if decide (q + i0 <= k < q + i0 + n)%nat
    then (fun _ => g (k - q)%nat) <$> (out !! k)
    else out !! k.
Proof.
  revert i0 out. induction n as [|n IH]; intros i0 out; cbn [for_loop].
  - destruct (decide _); [lia|reflexivity].
  - rewrite IH. unfold store.
    destruct (decide (k = q + i0)%nat) as [->|Hne].
    + destruct (decide (q + S i0 <= q + i0 < q + S i0 + n)%nat); [lia|].
      destruct (decide (q + i0 <= q + i0 < q + i0 + S n)%nat); [|lia].
      destruct (out !! (q + i0)%nat) as [x|] eqn:E.
      * rewrite list_lookup_insert_eq by (eapply lookup_lt_Some; eauto).
        cbn. do 2 f_equal. lia.
      * rewrite list_insert_ge by (apply lookup_ge_None; exact E).
        rewrite E. reflexivity.
    + rewrite list_lookup_insert_ne by lia.
      destruct (decide (q + S i0 <= k < q + S i0 + n)%nat),
               (decide (q + i0 <= k < q + i0 + S n)%nat); try reflexivity; lia.
Qed.

Lemma memcpy_samples_lookup (out inb : list Z) (n k : nat) :
  memcpy_samples out inb n !! k
  = if decide (k < n)%nat then (fun _ => load inb k) <$> (out !! k) else out !! k.
Proof.
  unfold memcpy_samples.
  rewrite (for_loop_store_lookup (fun i _ => load inb i)).
  destruct (decide (0 <= k < 0 + n)%nat), (decide (k < n)%nat); try reflexivity; lia.
Qed.

Lemma load_int16 (b : list Z) (i : nat) : Forall is_int16 b -> is_int16 (load b i).
Proof.
  intros H. unfold load. destruct (b !! i) as [x|] eqn:E; cbn.
  - rewrite Forall_lookup in H. exact (H i x E).
  - unfold is_int16, INT16_MIN, INT16_MAX. lia.
Qed.

(** X1: equal channel counts copy the samples through. *)
Theorem AudioResample_identity (inb out : list Z) (chan : Z) (frames : nat) :
  1 <= chan <= 8 ->
  length inb = Z.to_nat (Z.of_nat frames * chan) ->
  length out = length inb ->
  AudioResample inb chan frames out chan = Resampled inb.
Proof.
  intros Hc Hin Hout.
  assert (E : AudioResample inb chan frames out chan
              = Resampled (memcpy_samples out inb (Z.to_nat (Z.of_nat frames * chan)))).
  { assert (H : chan = 1 \/ chan = 2 \/ chan = 3 \/ chan = 4 \/ chan = 5 \/ chan = 6
                \/ chan = 7 \/ chan = 8) by lia.
    destruct H as [->|[->|[->|[->|[->|[->|[->| ->]]]]]]]; reflexivity. }
  rewrite E. f_equal. rewrite <- Hin.
  apply list_eq. intros k. rewrite memcpy_samples_lookup.
  destruct (decide (k < length inb)%nat) as [H|H].
  - destruct (lookup_lt_is_Some_2 out k ltac:(lia)) as [x ->].
    destruct (lookup_lt_is_Some_2 inb k H) as [y Hy].
    cbn. rewrite Hy. f_equal. apply load_lookup. exact Hy.
  - rewrite (proj2 (lookup_ge_None out k)) by lia.
    rewrite (proj2 (lookup_ge_None inb k)) by lia. reflexivity.
Qed.

Lemma AudioResample_identity_witness :
  AudioResample [1; -2; 3; -4] 2 2 [0; 0; 0; 0] 2 = Resampled [1; -2; 3; -4].
Proof.
  apply (AudioResample_identity [1; -2; 3; -4] [0; 0; 0; 0] 2 2);
    [lia|reflexivity|reflexivity].
Defined.

(** X2: mono to stereo writes every input sample to both channels of its
    frame and nothing else. *)
Theorem AudioMono2Stereo_frames (inb out : list Z) (frames : nat) :
  Forall is_int16 inb -> (2 * frames <= length out)%nat ->
  length (AudioMono2Stereo inb frames out) = length out
  /\ (forall i : nat, (i < frames)%nat ->
        AudioMono2Stereo inb frames out !! (2 * i)%nat = Some (load inb i)
        /\ AudioMono2Stereo inb frames out !! (2 * i + 1)%nat = Some (load inb i))
  /\ (forall k : nat, (2 * frames <= k)%nat ->
        AudioMono2Stereo inb frames out !! k = out !! k).
Proof.
  intros Hin Hlen. split; [|split].
  - unfold AudioMono2Stereo. apply for_loop_length.
    intros j b. unfold store. rewrite !length_insert. reflexivity.
  - intros i Hi.
    destruct (AudioMono2Stereo_duplicates inb out frames i Hlen Hi) as [E1 E2].
    rewrite E1, E2, (to_int16_id _ (load_int16 inb i Hin)). split; reflexivity.
  - intros k Hk. unfold AudioMono2Stereo.
    rewrite AudioMono2Stereo_loop_lookup by (simpl; lia).
    destruct (decide _) as [H|H]; [lia|reflexivity].
Qed.

Lemma AudioMono2Stereo_frames_witness :
  AudioMono2Stereo [5; -6] 2 [0; 0; 0; 0; 9] !! 3%nat = Some (-6).
Proof.
  destruct (AudioMono2Stereo_frames [5; -6] [0; 0; 0; 0; 9] 2) as (_ & H & _).
  - repeat constructor; vm_compute; discriminate.
  - simpl. lia.
  - exact (proj2 (H 1%nat ltac:(lia))).
Defined.

(** The samples AudioStereo2Mono does write: from pair [j] on, every
    pair [k] with [2 k < frames] gets its truncated mean. *)
Lemma AudioStereo2Mono_loop_lookup (fuel j frames : nat) (inb out : list Z) (k : nat) :
  (frames <= 2 * (j + fuel))%nat ->
  AudioStereo2Mono_loop fuel (2 * j) frames inb out !! k
  = if decide (j <= k /\ 2 * k < frames)%nat
    then (fun _ => to_int16 (cdiv (load inb (2 * k) + load inb (2 * k + 1)) 2))
           <$> (out !! k)
    else out !! k.
Proof.
  revert j out. induction fuel as [|fuel IH]; intros j out Hf;
    cbn [AudioStereo2Mono_loop].
  - destruct (decide _) as [H|H]; [lia|reflexivity].
  - destruct (2 * j <? frames)%nat eqn:E.
    + apply Nat.ltb_lt in E.
      replace (2 * j + 2)%nat with (2 * S j)%nat by lia.
      rewrite IH by lia.
      replace (2 * j / 2)%nat with j by (rewrite Nat.mul_comm, Nat.div_mul; lia).
      unfold store.
      destruct (decide (k = j)) as [->|Hne].
      * destruct (decide (S j <= j /\ 2 * j < frames)%nat) as [H|_]; [lia|].
        destruct (decide (j <= j /\ 2 * j < frames)%nat) as [_|H]; [|lia].
        destruct (out !! j) as [x|] eqn:Ej.
        -- rewrite list_lookup_insert_eq by (eapply lookup_lt_Some; eauto).
           cbn. rewrite Nat.add_0_r. reflexivity.
        -- rewrite list_insert_ge by (apply lookup_ge_None; exact Ej).
           rewrite Ej. reflexivity.
      * rewrite list_lookup_insert_ne by lia.
        destruct (decide (S j <= k /\ 2 * k < frames)%nat),
                 (decide (j <= k /\ 2 * k < frames)%nat); try reflexivity; lia.
    + apply Nat.ltb_ge in E.
      destruct (decide _) as [H|H]; [lia|reflexivity].
Qed.

(** X3: stereo to mono writes the truncated mean of the input pair [k] to
    [out[k]] for the pairs with [2 k < frames], and leaves every other
    output sample as it was. *)
Theorem AudioStereo2Mono_means (inb out : list Z) (frames : nat) :
  Forall is_int16 inb -> (frames <= length out)%nat ->
  (forall k : nat, (2 * k < frames)%nat ->
     AudioStereo2Mono inb frames out !! k
     = Some (cdiv (load inb (2 * k) + load inb (2 * k + 1)) 2))
  /\ (forall k : nat, (frames <= 2 * k)%nat ->
        AudioStereo2Mono inb frames out !! k = out !! k).
Proof.
  intros Hin Hlen.
  assert (E : forall k,
             AudioStereo2Mono inb frames out !! k
             = if decide (0 <= k /\ 2 * k < frames)%nat
               then (fun _ => to_int16 (cdiv (load inb (2 * k) + load inb (2 * k + 1)) 2))
                      <$> (out !! k)
               else out !! k).
  { intros k. unfold AudioStereo2Mono.
    change 0%nat with (2 * 0)%nat at 1.
    apply AudioStereo2Mono_loop_lookup. lia. }
  split; intros k Hk; rewrite E.
  - destruct (decide _) as [_|H]; [|lia].
    destruct (lookup_lt_is_Some_2 out k ltac:(lia)) as [x ->].
    cbn [fmap option_fmap option_map]. f_equal.
    apply to_int16_id.
    pose proof (load_int16 inb (2 * k) Hin) as H1.
    pose proof (load_int16 inb (2 * k + 1) Hin) as H2.
    unfold is_int16, INT16_MIN, INT16_MAX, cdiv in *.
    set (s := load inb (2 * k) + load inb (2 * k + 1)) in *.
    assert (- 65536 <= s <= 65534) by (unfold s; lia).
    pose proof (Z.quot_le_mono s 65534 2 ltac:(lia) ltac:(lia)) as Hu.
    pose proof (Z.quot_le_mono (-65536) s 2 ltac:(lia) ltac:(lia)) as Hl.
    change (65534 ÷ 2) with 32767 in Hu. change (-65536 ÷ 2) with (-32768) in Hl.
    lia.
  - destruct (decide _) as [H|_]; [lia|reflexivity].
Qed.

Lemma AudioStereo2Mono_means_witness :
  AudioStereo2Mono [10; 20; 30; 40; 50; 61] 3 [7; 7; 7] !! 1%nat = Some 35.
Proof.
  destruct (AudioStereo2Mono_means [10; 20; 30; 40; 50; 61] [7; 7; 7] 3) as [H _].
  - repeat constructor; vm_compute; discriminate.
  - simpl. lia.
  - exact (H 1%nat ltac:(lia)).
Defined.

End MixerConversions.

(** ** Channel remix: downmix to stereo and upmix *)

Section MixerSurround.
Import Mixer.

(** The weights of every case add up to 1000 per output channel, so the
    mixed values stay inside the sample range. *)
Lemma AudioSurround2Stereo_mix_range (in_chan : Z) (inb : list Z) (p : nat) (l r : Z) :
  Forall is_int16 inb ->
  AudioSurround2Stereo_mix in_chan inb p = Some (l, r) ->
  is_int16 (cdiv l 1000) /\ is_int16 (cdiv r 1000).
Proof.
  intros Hin E.
  assert (Hs : forall k, -32768 <= load inb (p + k) <= 32767)
    by (intros k; exact (load_int16 inb (p + k) Hin)).
  assert (Hl : -32768 * 1000 <= l <= 32767 * 1000
               /\ -32768 * 1000 <= r <= 32767 * 1000).
  { unfold AudioSurround2Stereo_mix in E.
    pose proof (Hs 0%nat). pose proof (Hs 1%nat). pose proof (Hs 2%nat).
    pose proof (Hs 3%nat). pose proof (Hs 4%nat). pose proof (Hs 5%nat).
    pose proof (Hs 6%nat). pose proof (Hs 7%nat).
    destruct in_chan as [|c|c]; try discriminate.
    repeat (destruct c as [c|c|]; try discriminate);
      injection E as <- <-; lia. }
  unfold is_int16, INT16_MIN, INT16_MAX, cdiv.
  destruct Hl as [[Hl1 Hl2] [Hr1 Hr2]].
  pose proof (Z.quot_le_mono l (32767 * 1000) 1000 ltac:(lia) Hl2) as A1.
  pose proof (Z.quot_le_mono (-32768 * 1000) l 1000 ltac:(lia) Hl1) as A2.
  pose proof (Z.quot_le_mono r (32767 * 1000) 1000 ltac:(lia) Hr2) as B1.
  pose proof (Z.quot_le_mono (-32768 * 1000) r 1000 ltac:(lia) Hr1) as B2.
  change (32767 * 1000 ÷ 1000) with 32767 in *.
  change (-32768 * 1000 ÷ 1000) with (-32768) in *.
  lia.
Qed.

Lemma AudioSurround2Stereo_loop_lookup (in_chan : Z) (inb : list Z) (frames : nat) :
  3 <= in_chan <= 8 -> Forall is_int16 inb ->
  forall (p q : nat) (out : list Z),
    (q + 2 * frames <= length out)%nat ->
    exists out',
      AudioSurround2Stereo_loop frames in_chan inb p q out = Some out'
      /\ length out' = length out
      /\ (forall (f : nat) (l r : Z),
            (f < frames)%nat ->
            AudioSurround2Stereo_mix in_chan inb (p + f * Z.to_nat in_chan) = Some (l, r) ->
            out' !! (q + 2 * f)%nat = Some (cdiv l 1000)
            /\ out' !! (q + 2 * f + 1)%nat = Some (cdiv r 1000))
      /\ (forall k : nat, (k < q \/ q + 2 * frames <= k)%nat -> out' !! k = out !! k).
Proof.
  intros Hc Hin. induction frames as [|frames IH]; intros p q out Hlen;
    cbn [AudioSurround2Stereo_loop].
  - exists out. split; [reflexivity|]. split; [reflexivity|].
    split; [intros; lia|reflexivity].
  - destruct (AudioSurround2Stereo_mix_some in_chan inb p Hc) as [[l0 r0] E0].
    rewrite E0.
    destruct (AudioSurround2Stereo_mix_range _ _ _ _ _ Hin E0) as [Hl0 Hr0].
    rewrite (to_int16_id _ Hl0), (to_int16_id _ Hr0).
    set (out1 := store (store out (q + 0) (cdiv l0 1000)) (q + 1) (cdiv r0 1000)).
    assert (Hlen1 : length out1 = length out)
      by (unfold out1, store; rewrite !length_insert; reflexivity).
    destruct (IH (p + Z.to_nat in_chan)%nat (q + 2)%nat out1 ltac:(lia))
      as (out' & E & Hlen' & Hw & Hu).
    exists out'. split; [exact E|]. split; [lia|]. split.
    + intros f l r Hf Em. destruct f as [|f].
      * rewrite Nat.mul_0_l, Nat.add_0_r in Em. rewrite E0 in Em.
        injection Em as <- <-.
        rewrite !Hu by lia. unfold out1, store. split.
        -- rewrite list_lookup_insert_ne by lia.
           replace (q + 2 * 0)%nat with (q + 0)%nat by lia.
           apply list_lookup_insert_eq. lia.
        -- replace (q + 2 * 0 + 1)%nat with (q + 1)%nat by lia.
           apply list_lookup_insert_eq. rewrite length_insert. lia.
      * replace (p + S f * Z.to_nat in_chan)%nat
          with (p + Z.to_nat in_chan + f * Z.to_nat in_chan)%nat in Em by lia.
        destruct (Hw f l r ltac:(lia) Em) as [A B].
        replace (q + 2 * S f)%nat with (q + 2 + 2 * f)%nat by lia.
        split; [exact A|exact B].
    + intros k Hk. rewrite Hu by lia. unfold out1, store.
      rewrite !list_lookup_insert_ne by lia. reflexivity.
Qed.

(** X4: for 3 to 8 input channels AudioSurround2Stereo returns, writes for
    every frame the two weighted sums over 1000, which need no clipping
    since the weights of a channel add up to 1000, and leaves the output
    beyond the frames alone. *)
Theorem AudioSurround2Stereo_downmix (inb out : list Z) (in_chan : Z) (frames : nat) :
  3 <= in_chan <= 8 -> Forall is_int16 inb -> (2 * frames <= length out)%nat ->
  exists out',
    AudioSurround2Stereo inb in_chan frames out = Some out'
    /\ length out' = length out
    /\ (forall f : nat, (f < frames)%nat ->
          exists l r,
            AudioSurround2Stereo_mix in_chan inb (f * Z.to_nat in_chan) = Some (l, r)
            /\ out' !! (2 * f)%nat = Some (cdiv l 1000)
            /\ out' !! (2 * f + 1)%nat = Some (cdiv r 1000)
            /\ is_int16 (cdiv l 1000) /\ is_int16 (cdiv r 1000))
    /\ (forall k : nat, (2 * frames <= k)%nat -> out' !! k = out !! k).
Proof.
  intros Hc Hin Hlen.
  destruct (AudioSurround2Stereo_loop_lookup in_chan inb frames Hc Hin 0 0 out
              ltac:(lia)) as (out' & E & Hlen' & Hw & Hu).
  exists out'. split; [exact E|]. split; [exact Hlen'|]. split.
  - intros f Hf.
    destruct (AudioSurround2Stereo_mix_some in_chan inb (f * Z.to_nat in_chan) Hc)
      as [[l r] Em].
    exists l, r. split; [exact Em|].
    destruct (Hw f l r Hf Em) as [A B].
    destruct (AudioSurround2Stereo_mix_range _ _ _ _ _ Hin Em) as [Rl Rr].
    split; [exact A|]. split; [exact B|]. split; assumption.
  - intros k Hk. apply Hu. lia.
Qed.

Lemma AudioSurround2Stereo_downmix_witness :
  AudioSurround2Stereo [1000; 2000; 3000; 4000; 5000; 6000] 6 1 [0; 0]
  = Some [3100; 3700].
Proof.
  destruct (AudioSurround2Stereo_downmix [1000; 2000; 3000; 4000; 5000; 6000]
              [0; 0] 6 1) as (out' & E & Hlen & Hw & _).
  - lia.
  - repeat constructor; vm_compute; discriminate.
  - simpl. lia.
  - rewrite E. f_equal.
    destruct (Hw 0%nat ltac:(lia)) as (l & r & Em & A & B & _).
    injection Em as <- <-.
    destruct out' as [|a [|b [|c out']]]; try discriminate Hlen.
    injection A as ->. injection B as ->. reflexivity.
Defined.

(** One frame of AudioUpmix, read back. *)
Lemma AudioUpmix_frame_lookup (in_chan out_chan : nat) (inb : list Z) (p q : nat)
    (out : list Z) (k : nat) :
  (in_chan <= out_chan)%nat ->
  AudioUpmix_frame in_chan out_chan inb p q out !! k
  = if decide (q <= k < q + in_chan)%nat
    then (fun _ => load inb (p + (k - q))) <$> (out !! k)
    else if decide (q + in_chan <= k < q + out_chan)%nat
    then (fun _ => 0) <$> (out !! k)
    else out !! k.
Proof.
  intros Hle. unfold AudioUpmix_frame.
  rewrite (for_loop_store_at_lookup (fun _ => 0)).
  rewrite (for_loop_store_at_lookup (fun i => load inb (p + i))).
  destruct (decide (q + in_chan <= k < q + in_chan + (out_chan - in_chan))%nat),
           (decide (q + 0 <= k < q + 0 + in_chan)%nat),
           (decide (q <= k < q + in_chan)%nat),
           (decide (q + in_chan <= k < q + out_chan)%nat);
    try reflexivity; lia.
Qed.

Lemma AudioUpmix_loop_lookup (in_chan out_chan : nat) (inb : list Z) (frames : nat) :
  (in_chan <= out_chan)%nat ->
  forall (p q : nat) (out : list Z),
    (q + frames * out_chan <= length out)%nat ->
    length (AudioUpmix_loop frames in_chan out_chan inb p q out) = length out
    /\ (forall f c : nat, (f < frames)%nat -> (c < out_chan)%nat ->
          AudioUpmix_loop frames in_chan out_chan inb p q out
            !! (q + f * out_chan + c)%nat
          = Some (if (c <? in_chan)%nat then load inb (p + f * in_chan + c) else 0))
    /\ (forall k : nat, (k < q \/ q + frames * out_chan <= k)%nat ->
          AudioUpmix_loop frames in_chan out_chan inb p q out !! k = out !! k).
Proof.
  intros Hle. induction frames as [|frames IH]; intros p q out Hlen;
    cbn [AudioUpmix_loop].
  - split; [reflexivity|]. split; [intros; lia|reflexivity].
  - replace (Nat.max in_chan out_chan) with out_chan by lia.
    set (out1 := AudioUpmix_frame in_chan out_chan inb p q out).
    assert (Hlen1 : length out1 = length out).
    { unfold out1, AudioUpmix_frame.
      rewrite !for_loop_length; [reflexivity| |];
        intros j b; unfold store; apply length_insert. }
    destruct (IH (p + in_chan)%nat (q + out_chan)%nat out1 ltac:(lia))
      as (Hl & Hw & Hu).
    split; [lia|]. split.
    + intros f c Hf Hcc. destruct f as [|f].
      * rewrite Hu by lia. unfold out1.
        rewrite AudioUpmix_frame_lookup by exact Hle.
        destruct (lookup_lt_is_Some_2 out (q + 0 * out_chan + c) ltac:(lia)) as [x ->].
        destruct (c <? in_chan)%nat eqn:E.
        -- apply Nat.ltb_lt in E.
           destruct (decide _) as [_|H]; [|lia]. cbn [fmap option_fmap option_map].
           do 2 f_equal. lia.
        -- apply Nat.ltb_ge in E.
           destruct (decide _) as [H|_]; [lia|].
           destruct (decide _) as [_|H]; [reflexivity|lia].
      * replace (q + S f * out_chan + c)%nat with (q + out_chan + f * out_chan + c)%nat
          by lia.
        rewrite (Hw f c ltac:(lia) Hcc).
        replace (p + in_chan + f * in_chan + c)%nat with (p + S f * in_chan + c)%nat
          by lia.
        reflexivity.
    + intros k Hk. rewrite Hu by lia. unfold out1.
      rewrite AudioUpmix_frame_lookup by exact Hle.
      destruct (decide _) as [H|_]; [lia|].
      destruct (decide _) as [H|_]; [lia|reflexivity].
Qed.

(** X5: the upmixes of AudioResample (5 to 6, 3 to 8, 5 to 8, 6 to 8) copy
    the input channels of every frame to the first channels of the output
    frame and silence the remaining ones. *)
Theorem AudioResample_upmix (inb out : list Z) (in_chan out_chan : Z) (frames : nat) :
  (in_chan, out_chan) = (5, 6) \/ (in_chan, out_chan) = (3, 8)
  \/ (in_chan, out_chan) = (5, 8) \/ (in_chan, out_chan) = (6, 8) ->
  (frames * Z.to_nat out_chan <= length out)%nat ->
  exists out',
    AudioResample inb in_chan frames out out_chan = Resampled out'
    /\ length out' = length out
    /\ (forall f c : nat, (f < frames)%nat -> (c < Z.to_nat out_chan)%nat ->
          out' !! (f * Z.to_nat out_chan + c)%nat
          = Some (if (c <? Z.to_nat in_chan)%nat
                  then load inb (f * Z.to_nat in_chan + c) else 0))
    /\ (forall k : nat, (frames * Z.to_nat out_chan <= k)%nat -> out' !! k = out !! k).
Proof.
  intros Hpair Hlen.
  assert (E : AudioResample inb in_chan frames out out_chan
              = Resampled (AudioUpmix inb in_chan frames out out_chan)
              /\ (Z.to_nat in_chan <= Z.to_nat out_chan)%nat).
  { destruct Hpair as [H|[H|[H|H]]]; injection H as -> ->; split; (reflexivity || lia). }
  destruct E as [E Hle]. rewrite E. unfold AudioUpmix.
  destruct (AudioUpmix_loop_lookup (Z.to_nat in_chan) (Z.to_nat out_chan) inb frames
              Hle 0 0 out ltac:(lia)) as (Hl & Hw & Hu).
  eexists. split; [reflexivity|]. split; [exact Hl|]. split.
  - intros f c Hf Hc. exact (Hw f c Hf Hc).
  - intros k Hk. apply Hu. lia.
Qed.

Lemma AudioResample_upmix_witness :
  exists out',
    AudioResample [1; 2; 3; 4; 5] 5 1 [9; 9; 9; 9; 9; 9] 6 = Resampled out'
    /\ out' !! 4%nat = Some 5 /\ out' !! 5%nat = Some 0.
Proof.
  destruct (AudioResample_upmix [1; 2; 3; 4; 5] [9; 9; 9; 9; 9; 9] 5 6 1)
    as (out' & E & _ & Hw & _).
  - left. reflexivity.
  - simpl. lia.
  - exists out'. split; [exact E|]. split.
    + exact (Hw 0%nat 4%nat ltac:(lia) ltac:(simpl; lia)).
    + exact (Hw 0%nat 5%nat ltac:(lia) ltac:(simpl; lia)).
Defined.

End MixerSurround.

(** ** Software volume *)

Section VolumeFacts.
Import Filter Ring Volume.

Lemma quot_1000_between (s a : Z) :
  0 <= a <= 1000 ->
  (0 <= s -> 0 <= cdiv (s * a) 1000 <= s) /\ (s <= 0 -> s <= cdiv (s * a) 1000 <= 0).
Proof.
  intros Ha. unfold cdiv. split; intros Hs.
  - split; [apply Z.quot_pos; nia|apply Z.quot_le_upper_bound; nia].
  - replace (s * a) with (- ((- s) * a)) by lia.
    rewrite Z.quot_opp_l by lia.
    assert (0 <= (- s * a) ÷ 1000 <= - s); [|lia].
    split; [apply Z.quot_pos; nia|apply Z.quot_le_upper_bound; nia].
Qed.

Lemma quot_1000_shrinks (s a : Z) :
  0 <= a <= 1000 -> Z.abs (cdiv (s * a) 1000) <= Z.abs s.
Proof.
  intros Ha. destruct (quot_1000_between s a Ha) as [Hp Hn]. lia.
Qed.

Lemma scale_sample_quieter (s a : Z) :
  is_int16 s -> 0 <= a <= 1000 ->
  to_int16 (clamp16 (cdiv (to_int (s * a)) 1000)) = cdiv (s * a) 1000
  /\ Z.abs (cdiv (s * a) 1000) <= Z.abs s.
Proof.
  intros Hs Ha. pose proof (quot_1000_shrinks s a Ha) as Hq.
  destruct (quot_1000_between s a Ha) as [Hp Hn].
  unfold is_int16, INT16_MIN, INT16_MAX in Hs.
  rewrite to_int_id by (unfold is_int, INT_MIN, INT_MAX; nia).
  assert (Hr : is_int16 (cdiv (s * a) 1000)).
  { unfold is_int16, INT16_MIN, INT16_MAX. lia. }
  rewrite (clamp16_id _ Hr), (to_int16_id _ Hr). split; [reflexivity|exact Hq].
Qed.

(** For a whole number of samples [memset] clears whole samples only. *)
Lemma memset_bytes_whole (samples : list Z) :
  memset_bytes samples (2 * Z.of_nat (length samples))
  = memset_zero samples (length samples).
Proof.
  unfold memset_bytes. rewrite count_samples.
  replace (Z.odd (2 * Z.of_nat (length samples))) with false; [reflexivity|].
  symmetry. rewrite Z.odd_mul. reflexivity.
Qed.

(** X6: the software amplifier silences the buffer when muted or when
    the amplification is zero, leaves it unchanged at 1000 per mille, and for
    a factor between 0 and 1000 makes no sample louder. *)
Theorem AudioSoftAmplifier_levels (vol : VolumeState) (samples : list Z) :
  Forall is_int16 samples ->
  let out := AudioSoftAmplifier vol samples (2 * Z.of_nat (length samples)) in
  (AudioMute vol <> 0 \/ AudioAmplifier vol = 0 ->
   out = replicate (length samples) 0)
  /\ (AudioMute vol = 0 -> AudioAmplifier vol = 1000 -> out = samples)
  /\ (AudioMute vol = 0 -> 0 < AudioAmplifier vol <= 1000 ->
      out = map (fun s => cdiv (s * AudioAmplifier vol) 1000) samples
      /\ Forall2 (fun o s => Z.abs o <= Z.abs s) out samples).
Proof.
  intros Hs out. unfold out, AudioSoftAmplifier.
  rewrite memset_bytes_whole, ?count_samples.
  assert (Hscale : AudioMute vol = 0 -> 0 < AudioAmplifier vol <= 1000 ->
            (if negb (AudioMute vol =? 0) || (AudioAmplifier vol =? 0)
             then memset_zero samples (length samples)
             else apply_factor (AudioAmplifier vol) samples (length samples))
            = map (fun s => cdiv (s * AudioAmplifier vol) 1000) samples).
  { intros Hm Ha. rewrite Hm. replace (AudioAmplifier vol =? 0) with false by lia.
    cbn [Z.eqb negb orb]. rewrite apply_factor_all. apply map_ext_Forall.
    eapply Forall_impl; [exact Hs|]. cbv beta. intros s Hr.
    apply scale_sample_quieter; [exact Hr|lia]. }
  split; [|split].
  - intros H.
    replace (negb (AudioMute vol =? 0) || (AudioAmplifier vol =? 0)) with true.
    + apply memset_zero_all.
    + symmetry. apply orb_true_iff.
      destruct H as [H|H]; [left; apply negb_true_iff; lia|right; lia].
  - intros Hm Ha. rewrite Hscale by lia. rewrite Ha.
    clear -Hs. induction Hs as [|s samples _ _ IH]; cbn [map]; [reflexivity|].
    rewrite IH. f_equal. unfold cdiv. apply Z.quot_mul. lia.
  - intros Hm Ha. rewrite Hscale by assumption. split; [reflexivity|].
    clear -Hs Ha. induction Hs as [|s samples Hr _ IH]; cbn [map]; constructor.
    + apply quot_1000_shrinks. lia.
    + exact IH.
Qed.

Lemma AudioSoftAmplifier_levels_witness :
  AudioSoftAmplifier {| AudioSoftVolume := 1; AudioMute := 0; AudioAmplifier := 500;
                        AudioStereoDescent := 0; AudioVolume := 500 |}
    [1000; -3] 4
  = [500; -1].
Proof.
  destruct (AudioSoftAmplifier_levels
              {| AudioSoftVolume := 1; AudioMute := 0; AudioAmplifier := 500;
                 AudioStereoDescent := 0; AudioVolume := 500 |} [1000; -3])
    as (_ & _ & H).
  - repeat constructor; vm_compute; discriminate.
  - exact (proj1 (H eq_refl ltac:(simpl; lia))).
Defined.

Lemma set_volume_amplifier_bounds (vol : VolumeState) (st : AudioState)
    (alsa_ratio : option Z) (volume : Z) :
  0 <= volume <= 1000 -> 0 <= AudioStereoDescent vol <= INT_MAX ->
  (AudioMute (AudioSetVolume vol st alsa_ratio volume).1 <> 0 <-> volume = 0)
  /\ 0 <= AudioAmplifier (AudioSetVolume vol st alsa_ratio volume).1 <= volume.
Proof.
  intros Hv Hd. unfold AudioSetVolume. cbn [fst AudioMute AudioAmplifier].
  unfold INT_MAX in Hd. split.
  - destruct (volume =? 0) eqn:E; split; intros H; lia.
  - rewrite (to_int_id (volume - AudioStereoDescent vol))
      by (unfold is_int, INT_MIN, INT_MAX; lia).
    destruct (negb (AudioStereoDescent vol =? 0)
              && (InChannels (slot st (AudioRingRead st)) =? 2)
              && (Passthrough (slot st (AudioRingRead st)) =? 0)); [|lia].
    destruct (volume - AudioStereoDescent vol <? 0) eqn:E1;
      [|destruct (volume - AudioStereoDescent vol >? 1000) eqn:E2]; lia.
Qed.

(** X7: AudioSetVolume mutes exactly for volume 0, and for a volume in
    0..1000 the amplifier it sets is again in 0..1000 and not above the volume
    when the stereo descent is not negative; the hardware mixer is only
    touched when software volume is off. *)
Theorem AudioSetVolume_range (vol : VolumeState) (st : AudioState)
    (alsa_ratio : option Z) (volume : Z) :
  0 <= volume <= 1000 -> 0 <= AudioStereoDescent vol <= INT_MAX ->
  let vol' := (AudioSetVolume vol st alsa_ratio volume).1 in
  (AudioMute vol' <> 0 <-> volume = 0)
  /\ AudioVolume vol' = volume
  /\ 0 <= AudioAmplifier vol' <= volume
  /\ (AudioAmplifier vol' = volume
      \/ AudioAmplifier vol' = Z.max 0 (volume - AudioStereoDescent vol))
  /\ (AudioSoftVolume vol <> 0 -> (AudioSetVolume vol st alsa_ratio volume).2 = None).
Proof.
  intros Hv Hd vol'. unfold vol', AudioSetVolume.
  cbn [fst snd AudioMute AudioVolume AudioAmplifier].
  unfold INT_MAX in Hd.
  split; [|split; [reflexivity|]].
  - destruct (volume =? 0) eqn:E; split; intros H; lia.
  - assert (Ed : to_int (volume - AudioStereoDescent vol)
                 = volume - AudioStereoDescent vol)
      by (apply to_int_id; unfold is_int, INT_MIN, INT_MAX; lia).
    rewrite Ed.
    destruct (negb (AudioStereoDescent vol =? 0)
              && (InChannels (slot st (AudioRingRead st)) =? 2)
              && (Passthrough (slot st (AudioRingRead st)) =? 0)).
    + destruct (volume - AudioStereoDescent vol <? 0) eqn:E1;
        [|destruct (volume - AudioStereoDescent vol >? 1000) eqn:E2];
        (split; [lia|split; [right; lia|]]);
        intros Hs; replace (AudioSoftVolume vol =? 0) with false by lia; reflexivity.
    + split; [lia|split; [left; reflexivity|]].
      intros Hs; replace (AudioSoftVolume vol =? 0) with false by lia; reflexivity.
Qed.

Lemma AudioSetVolume_range_witness :
  0 <= AudioAmplifier
         (AudioSetVolume {| AudioSoftVolume := 1; AudioMute := 0; AudioAmplifier := 0;
                            AudioStereoDescent := 100; AudioVolume := 0 |}
            Sync.clock_state None 600).1 <= 600.
Proof.
  destruct (AudioSetVolume_range
              {| AudioSoftVolume := 1; AudioMute := 0; AudioAmplifier := 0;
                 AudioStereoDescent := 100; AudioVolume := 0 |}
              Sync.clock_state None 600) as (_ & _ & H & _).
  - lia.
  - vm_compute. split; discriminate.
  - exact H.
Defined.

(** X8: after AudioSetVolume with a volume in 0..1000 the software
    amplifier never makes a sample louder, and after AudioSetVolume(0) it
    plays silence. *)
Theorem AudioSetVolume_then_amplify (vol : VolumeState) (st : AudioState)
    (alsa_ratio : option Z) (volume : Z) (samples : list Z) :
  0 <= volume <= 1000 -> 0 <= AudioStereoDescent vol <= INT_MAX ->
  Forall is_int16 samples ->
  let out :=
    AudioSoftAmplifier (AudioSetVolume vol st alsa_ratio volume).1 samples
      (2 * Z.of_nat (length samples)) in
  Forall2 (fun o s => Z.abs o <= Z.abs s) out samples
  /\ (volume = 0 -> out = replicate (length samples) 0).
Proof.
  intros Hv Hd Hs out.
  destruct (set_volume_amplifier_bounds vol st alsa_ratio volume Hv Hd)
    as (Hm & Ha).
  destruct (AudioSoftAmplifier_levels
              (AudioSetVolume vol st alsa_ratio volume).1 samples Hs)
    as (Hz & _ & Hq).
  fold out in Hz, Hq.
  assert (Hzero : Forall2 (fun o s => Z.abs o <= Z.abs s)
                    (replicate (length samples) 0) samples).
  { clear. induction samples as [|s samples IH]; cbn; constructor; [lia|exact IH]. }
  split.
  - destruct (Z.eq_dec volume 0) as [E0|E0].
    + rewrite Hz; [exact Hzero|]. left. apply Hm. exact E0.
    + destruct (Z.eq_dec (AudioAmplifier (AudioSetVolume vol st alsa_ratio volume).1) 0)
        as [Ea|Ea].
      * rewrite Hz; [exact Hzero|]. right. exact Ea.
      * apply Hq; [|lia].
        destruct (Z.eq_dec (AudioMute (AudioSetVolume vol st alsa_ratio volume).1) 0)
          as [Em|Em]; [exact Em|]. apply Hm in Em. contradiction.
  - intros E0. apply Hz. left. apply Hm. exact E0.
Qed.

Lemma AudioSetVolume_then_amplify_witness :
  AudioSoftAmplifier
    (AudioSetVolume {| AudioSoftVolume := 1; AudioMute := 0; AudioAmplifier := 700;
                       AudioStereoDescent := 0; AudioVolume := 700 |}
       ring_start None 0).1 [1000; -3] (2 * Z.of_nat (length [1000; -3]))
  = replicate (length [1000; -3]) 0.
Proof.
  refine (proj2 (AudioSetVolume_then_amplify
                   {| AudioSoftVolume := 1; AudioMute := 0; AudioAmplifier := 700;
                      AudioStereoDescent := 0; AudioVolume := 700 |}
                   ring_start None 0 [1000; -3] _ _ _) eq_refl).
  - lia.
  - vm_compute. split; discriminate.
  - repeat constructor; vm_compute; discriminate.
Defined.

End VolumeFacts.

(** ** Compressor: what it guarantees *)

Section CompressorGuarantees.
Import Filter Volume.

(** X9: the compression factor is never above the configured maximum:
    AudioSetCompression and AudioResetCompressor establish this, and
    AudioCompressor keeps it for every block. *)
Theorem compression_factor_capped (st : CompressorState) :
  (forall flag onoff maxfac,
      let st' := (AudioSetCompression flag st onoff maxfac).2 in
      AudioCompressionFactor st' <= AudioMaxCompression st'
      /\ AudioMaxCompression st' = maxfac)
  /\ AudioCompressionFactor (AudioResetCompressor st)
     <= AudioMaxCompression (AudioResetCompressor st)
  /\ (forall samples count,
        AudioCompressionFactor st <= AudioMaxCompression st ->
        let st' := (AudioCompressor st samples count).1 in
        AudioCompressionFactor st' <= AudioMaxCompression st'
        /\ AudioMaxCompression st' = AudioMaxCompression st).
Proof.
  split; [|split].
  - intros flag onoff maxfac. unfold AudioSetCompression.
    cbn [snd AudioCompressionFactor AudioMaxCompression]. split; [|reflexivity].
    destruct (AudioCompressionFactor st =? 0);
      match goal with |- context [?a >? ?b] => destruct (a >? b) eqn:E end; lia.
  - unfold AudioResetCompressor. cbn [AudioCompressionFactor AudioMaxCompression].
    destruct (2000 >? AudioMaxCompression st) eqn:E; lia.
  - intros samples count Hcap. unfold AudioCompressor.
    destruct (find_max_sample samples _ >? 0).
    + cbn [fst AudioCompressionFactor AudioMaxCompression]. split; [|reflexivity].
      match goal with |- context [?a >? AudioMaxCompression st] =>
        destruct (a >? AudioMaxCompression st) eqn:E end; lia.
    + cbn [fst]. split; [exact Hcap|reflexivity].
Qed.

Lemma compression_factor_capped_witness :
  AudioCompressionFactor
    (AudioCompressor {| AudioCompressionFactor := 1500; AudioMaxCompression := 2000 |}
       [100; -200] 4).1 <= 2000.
Proof.
  destruct (compression_factor_capped
              {| AudioCompressionFactor := 1500; AudioMaxCompression := 2000 |})
    as (_ & _ & H).
  destruct (H [100; -200] 4 ltac:(simpl; lia)) as [H1 H2].
  rewrite H2 in H1. exact H1.
Defined.

(** X10: the compressor does not clip: for non-negative factors whose
    blend fits an [int], every output sample is the scaled input itself, the
    hard clamp never cuts, and the loudest output stays within full scale. *)
Theorem AudioCompressor_no_clipping (st : CompressorState) (samples : list Z) :
  Exists (fun s => s <> 0) samples ->
  0 <= AudioCompressionFactor st -> 0 <= AudioMaxCompression st ->
  is_int (950 * AudioCompressionFactor st
          + 50 * cdiv (INT16_MAX * 1000) (peak_magnitude samples)) ->
  let '(st', out) := AudioCompressor st samples (2 * Z.of_nat (length samples)) in
  out = map (fun s => cdiv (s * AudioCompressionFactor st') 1000) samples
  /\ Forall (fun o => Z.abs o <= INT16_MAX) out
  /\ 0 <= AudioCompressionFactor st'
  /\ AudioCompressionFactor st' * peak_magnitude samples <= INT16_MAX * 1000.
Proof.
  intros Hnz Hold Hmax Hint.
  pose proof (peak_magnitude_positive samples Hnz) as Hpeak.
  set (peak := peak_magnitude samples) in *.
  set (instant := cdiv (INT16_MAX * 1000) peak) in *.
  assert (Hinst : 0 <= instant <= 32767000).
  { unfold instant, cdiv, INT16_MAX. split.
    - apply Z.quot_pos; lia.
    - transitivity (32767 * 1000); [|lia]. apply Z.quot_le_upper_bound; nia. }
  assert (Hmul : peak * instant <= 32767000).
  { unfold instant, cdiv, INT16_MAX.
    pose proof (Z.mul_quot_le (32767 * 1000) peak ltac:(lia) ltac:(lia)). lia. }
  unfold AudioCompressor. rewrite count_samples, find_max_sample_peak. fold peak.
  replace (peak >? 0) with true by lia. fold instant.
  unfold is_int, INT_MIN, INT_MAX in Hint.
  rewrite (to_int_id (AudioCompressionFactor st * 950))
    by (unfold is_int, INT_MIN, INT_MAX; lia).
  rewrite (to_int_id (instant * 50)) by (unfold is_int, INT_MIN, INT_MAX; lia).
  rewrite (to_int_id (AudioCompressionFactor st * 950 + instant * 50))
    by (unfold is_int, INT_MIN, INT_MAX; lia).
  set (blend := cdiv (AudioCompressionFactor st * 950 + instant * 50) 1000).
  assert (Hblend : 0 <= blend) by (unfold blend, cdiv; apply Z.quot_pos; lia).
  set (new := if (if blend >? instant then instant else blend) >? AudioMaxCompression st
              then AudioMaxCompression st
              else if blend >? instant then instant else blend).
  assert (Hnew : 0 <= new <= instant).
  { unfold new. destruct (blend >? instant) eqn:E1;
      [destruct (instant >? AudioMaxCompression st) eqn:E2
      |destruct (blend >? AudioMaxCompression st) eqn:E2]; lia. }
  cbn [AudioCompressionFactor].
  assert (Hsample : Forall (fun s => Z.abs (s * new) <= 32767000) samples).
  { eapply Forall_impl; [apply peak_magnitude_bound|]. cbv beta. fold peak.
    intros s Hs. rewrite Z.abs_mul, (Z.abs_eq new) by lia. nia. }
  assert (Hq : Forall (fun s => Z.abs (cdiv (s * new) 1000) <= 32767) samples).
  { eapply Forall_impl; [exact Hsample|]. cbv beta. intros s Hs. unfold cdiv.
    destruct (Z.le_gt_cases 0 (s * new)) as [Hp|Hn].
    - rewrite Z.abs_eq by (apply Z.quot_pos; lia).
      apply Z.quot_le_upper_bound; lia.
    - replace (s * new) with (- (- (s * new))) by lia.
      rewrite Z.quot_opp_l by lia. rewrite Z.abs_opp.
      rewrite Z.abs_eq by (apply Z.quot_pos; lia).
      apply Z.quot_le_upper_bound; lia. }
  assert (Eout : apply_factor new samples (length samples)
                 = map (fun s => cdiv (s * new) 1000) samples).
  { rewrite apply_factor_all. apply map_ext_Forall.
    rewrite Forall_forall in Hsample, Hq. apply Forall_forall. intros s Hin.
    specialize (Hsample s Hin). specialize (Hq s Hin). cbv beta in *.
    rewrite to_int_id by (unfold is_int, INT_MIN, INT_MAX; lia).
    assert (Hr : is_int16 (cdiv (s * new) 1000))
      by (unfold is_int16, INT16_MIN, INT16_MAX; lia).
    rewrite (clamp16_id _ Hr). apply to_int16_id. exact Hr. }
  rewrite Eout. split; [reflexivity|]. split; [|split].
  - apply List.Forall_map. exact Hq.
  - lia.
  - unfold INT16_MAX. nia.
Qed.

Lemma AudioCompressor_no_clipping_witness :
  (AudioCompressor {| AudioCompressionFactor := 1000; AudioMaxCompression := 2000 |}
     [16000; -8000] (2 * Z.of_nat (length [16000; -8000]))).2
  = map (fun s => cdiv (s * 1052) 1000) [16000; -8000].
Proof.
  pose proof (AudioCompressor_no_clipping
                {| AudioCompressionFactor := 1000; AudioMaxCompression := 2000 |}
                [16000; -8000]) as H.
  destruct (AudioCompressor _ _ _) as [st' out] eqn:E in H.
  destruct H as (H & _).
  - apply Exists_cons_hd. discriminate.
  - simpl. lia.
  - simpl. lia.
  - vm_compute. split; discriminate.
  - rewrite E. cbn [snd]. rewrite H. f_equal.
    replace st' with (AudioCompressor
                        {| AudioCompressionFactor := 1000; AudioMaxCompression := 2000 |}
                        [16000; -8000] (2 * Z.of_nat (length [16000; -8000]))).1
      by (rewrite E; reflexivity).
    reflexivity.
Defined.

End CompressorGuarantees.

(** ** Normaliser: the blocks before the history is full *)

Section NormalizerWarmUp.
Import Filter.

Lemma block_complete_not_full (st : NormalizerState) :
  AudioNormReady st < AudioNormMaxIndex ->
  AudioNormalizeFactor (block_complete st) = AudioNormalizeFactor st.
Proof.
  intros H. unfold block_complete.
  replace (AudioNormReady st <? AudioNormMaxIndex) with true by lia. reflexivity.
Qed.

(** A turn while fewer than 128 blocks are complete: the factor stays, and
    the samples seen so far (blocks counted, samples in the block, samples
    left in the call) are conserved. *)
Lemma normalizer_turn_warm (st : NormalizerState) (samples : list Z) (off : nat) (l : Z) :
  0 <= AudioNormCounter st < AudioNormSamples -> 0 <= l ->
  AudioNormSamples * AudioNormReady st + AudioNormCounter st + l
  < (AudioNormMaxIndex + 1) * AudioNormSamples ->
  let st' := (normalizer_turn st samples off l).1.1 in
  let l' := (normalizer_turn st samples off l).2 in
  AudioNormalizeFactor st' = AudioNormalizeFactor st
  /\ 0 <= AudioNormCounter st' < AudioNormSamples
  /\ AudioNormSamples * AudioNormReady st' + AudioNormCounter st' + l'
     = AudioNormSamples * AudioNormReady st + AudioNormCounter st + l
  /\ 0 <= l' <= l /\ (0 < l -> l' < l).
Proof.
  intros Hc Hl Hpot st' l'.
  destruct (normalizer_turn_rest st samples off l) as [El _]. fold l' in El.
  unfold st', normalizer_turn. cbn [fst snd AudioNormCounter].
  set (n := if AudioNormCounter st + l >? AudioNormSamples
            then AudioNormSamples - AudioNormCounter st else l).
  assert (Hn : n = turn_samples st l).
  { unfold n, turn_samples.
    destruct (AudioNormCounter st + l >? AudioNormSamples) eqn:E; lia. }
  unfold turn_samples in Hn, El.
  unfold AudioNormSamples, AudioNormMaxIndex in *.
  destruct (AudioNormCounter st + n >=? 4096) eqn:E.
  - match goal with |- context [block_complete ?s] =>
      destruct (block_complete_counts s) as (Ec & Er & _ & _);
      pose proof (block_complete_not_full s) as Ef
    end.
    cbn [AudioNormReady AudioNormalizeFactor] in Er, Ef.
    unfold AudioNormMaxIndex in Er, Ef.
    assert (Hr : AudioNormReady st < 128) by lia.
    rewrite Ec, Er, (Ef Hr).
    replace (AudioNormReady st <? 128) with true by lia.
    repeat split; lia.
  - cbn [AudioNormalizeFactor AudioNormCounter AudioNormReady].
    repeat split; lia.
Qed.

Lemma AudioNormalizer_loop_warm (samples : list Z) :
  forall (fuel : nat) (st : NormalizerState) (off : nat) (l : Z),
    0 <= AudioNormCounter st < AudioNormSamples -> 0 <= l < Z.of_nat fuel ->
    AudioNormSamples * AudioNormReady st + AudioNormCounter st + l
    < (AudioNormMaxIndex + 1) * AudioNormSamples ->
    exists st',
      AudioNormalizer_loop fuel st samples off l = Some st'
      /\ AudioNormalizeFactor st' = AudioNormalizeFactor st
      /\ 0 <= AudioNormCounter st' < AudioNormSamples
      /\ AudioNormSamples * AudioNormReady st' + AudioNormCounter st'
         = AudioNormSamples * AudioNormReady st + AudioNormCounter st + l.
Proof.
  induction fuel as [|fuel IH]; intros st off l Hc Hl Hpot; [lia|].
  rewrite AudioNormalizer_loop_S.
  destruct (normalizer_turn_warm st samples off l Hc ltac:(lia) Hpot)
    as (Ef & Hc' & Ep & Hl' & Hdec).
  destruct ((normalizer_turn st samples off l).2 >? 0) eqn:E.
  - destruct (IH (normalizer_turn st samples off l).1.1
                (normalizer_turn st samples off l).1.2
                (normalizer_turn st samples off l).2 Hc' ltac:(lia) ltac:(lia))
      as (st' & -> & Ef' & Hc'' & Ep').
    exists st'. split; [reflexivity|]. split; [lia|]. split; [exact Hc''|lia].
  - eexists. split; [reflexivity|]. split; [exact Ef|]. split; [exact Hc'|lia].
Qed.

Lemma apply_factor_unity (samples : list Z) :
  Forall is_int16 samples -> apply_factor 1000 samples (length samples) = samples.
Proof.
  intros H. rewrite apply_factor_all.
  induction H as [|s samples Hs _ IH]; cbn [map]; [reflexivity|].
  rewrite IH. f_equal.
  unfold is_int16, INT16_MIN, INT16_MAX in Hs.
  rewrite to_int_id by (unfold is_int, INT_MIN, INT_MAX; lia).
  unfold cdiv. rewrite Z.quot_mul by lia.
  rewrite clamp16_id by exact Hs. apply to_int16_id. exact Hs.
Qed.

(** X11: while the factor is at its reset value 1000 and fewer than 128
    blocks have been completed since the reset, AudioNormalizer returns the
    samples unchanged: a call passes through whenever the blocks counted,
    the samples already in the current block and the samples of the call
    together stay below 129 blocks, and it only advances that count. *)
Theorem AudioNormalizer_warm_up (st : NormalizerState) (samples : list Z) :
  Forall is_int16 samples ->
  AudioNormalizeFactor st = 1000 ->
  0 <= AudioNormCounter st < AudioNormSamples ->
  AudioNormSamples * AudioNormReady st + AudioNormCounter st
  + Z.of_nat (length samples) < (AudioNormMaxIndex + 1) * AudioNormSamples ->
  exists st',
    AudioNormalizer st samples (2 * Z.of_nat (length samples)) = Some (st', samples)
    /\ AudioNormalizeFactor st' = 1000
    /\ 0 <= AudioNormCounter st' < AudioNormSamples
    /\ AudioNormSamples * AudioNormReady st' + AudioNormCounter st'
       = AudioNormSamples * AudioNormReady st + AudioNormCounter st
         + Z.of_nat (length samples).
Proof.
  intros Hs Hf Hc Hpot. unfold AudioNormalizer.
  rewrite sample_count_Z, Nat2Z.id.
  destruct (AudioNormalizer_loop_warm samples (S (length samples)) st 0
              (Z.of_nat (length samples)) Hc ltac:(lia) Hpot)
    as (st' & -> & Ef & Hc' & Ep).
  exists st'. rewrite Ef, Hf, (apply_factor_unity _ Hs).
  split; [reflexivity|]. split; [reflexivity|]. split; [exact Hc'|exact Ep].
Qed.

Lemma AudioNormalizer_warm_up_witness :
  exists st',
    AudioNormalizer (AudioResetNormalizer normalizer_start) [12000; -7; 300]
      (2 * Z.of_nat (length [12000; -7; 300]))
    = Some (st', [12000; -7; 300])
    /\ AudioNormalizeFactor st' = 1000.
Proof.
  destruct (AudioNormalizer_warm_up (AudioResetNormalizer normalizer_start)
              [12000; -7; 300]) as (st' & E & Hf & _).
  - repeat constructor; vm_compute; discriminate.
  - reflexivity.
  - vm_compute. split; [discriminate|reflexivity].
  - vm_compute. reflexivity.
  - exists st'. split; [exact E|exact Hf].
Defined.

End NormalizerWarmUp.

(** ** The ring under producer and play thread *)

Section RingOpsFacts.
Import Ring RingOps.

Lemma ring_succ_mod (x : Z) :
  0 <= x < AUDIO_RING_MAX ->
  Z.rem (x + 1) AUDIO_RING_MAX = (x + 1) mod AUDIO_RING_MAX
  /\ 0 <= (x + 1) mod AUDIO_RING_MAX < AUDIO_RING_MAX.
Proof.
  unfold AUDIO_RING_MAX. intros H. split.
  - apply Z.rem_mod_nonneg; lia.
  - apply Z.mod_pos_bound. lia.
Qed.

Lemma AudioRingAdd_inv (st : AudioState) (sample_rate channels passthrough : Z)
    (r : ring_add_result) (st' : AudioState) :
  ring_inv st ->
  AudioRingAdd st sample_rate channels passthrough = Some (r, st') ->
  ring_inv st'.
Proof.
  intros Hinv E. pose proof Hinv as (Hlen & Hw & Hr & Hf & Hd).
  unfold AudioRingAdd in E.
  destruct (search_rate AudioRatesTable 0 sample_rate) as [u|];
    [|injection E as <- <-; exact Hinv].
  destruct (matrix_entry (AudioChannelMatrix st) u channels) as [hw|]; [|discriminate].
  destruct (hw =? 0); [injection E as <- <-; exact Hinv|].
  destruct (AudioRingFilled st =? AUDIO_RING_MAX) eqn:Ef;
    [injection E as <- <-; exact Hinv|].
  injection E as <- <-.
  destruct (ring_succ_mod _ Hw) as [Em Hb]. unfold ring_inv, set_slot.
  cbn [AudioRing AudioRingWrite AudioRingRead AudioRingFilled].
  rewrite length_insert, Em. unfold AUDIO_RING_MAX in *.
  repeat split; try lia.
  clear -Hd. Z.div_mod_to_equations. lia.
Qed.

Lemma AudioFlushBuffers_inv (flags : FilterFlags) (st : AudioState) :
  ring_inv st -> ring_inv (AudioFlushBuffers flags st).2.
Proof.
  intros Hinv. pose proof Hinv as (Hlen & Hw & Hr & Hf & Hd).
  unfold AudioFlushBuffers.
  destruct (AudioRingFilled st >=? AUDIO_RING_MAX) eqn:Ef; [exact Hinv|].
  destruct (ring_succ_mod _ Hw) as [Em Hb]. unfold ring_inv, set_slot.
  cbn [snd AudioRing AudioRingWrite AudioRingRead AudioRingFilled].
  rewrite length_insert, Em. unfold AUDIO_RING_MAX in *.
  repeat split; try lia.
  clear -Hd. Z.div_mod_to_equations. lia.
Qed.

Lemma next_ring_buffer_inv (st st' : AudioState) :
  ring_inv st -> next_ring_buffer st = Some st' -> ring_inv st'.
Proof.
  intros (Hlen & Hw & Hr & Hf & Hd) E. unfold next_ring_buffer in E.
  destruct (AudioRingFilled st =? 0) eqn:Ef; [discriminate|]. injection E as <-.
  destruct (ring_succ_mod _ Hr) as [Em Hb]. unfold ring_inv.
  cbn [AudioRing AudioRingWrite AudioRingRead AudioRingFilled].
  rewrite Em. unfold AUDIO_RING_MAX in *.
  repeat split; try lia.
  clear -Hd. Z.div_mod_to_equations. lia.
Qed.

(** What the scan leaves: everything but flush flags and read index as it
    was, and the read index on the last flagged ring buffer, [flush] being
    its distance from where the scan began. *)
Lemma flush_scan_loop_result (n : nat) :
  forall (filled i read : Z) (st : AudioState) (flush : Z),
    0 <= read < AUDIO_RING_MAX ->
    let st' := (flush_scan_loop n filled i read st flush).1 in
    let flush' := (flush_scan_loop n filled i read st flush).2 in
    length (AudioRing st') = length (AudioRing st)
    /\ AudioRingWrite st' = AudioRingWrite st
    /\ AudioRingFilled st' = AudioRingFilled st
    /\ ((flush' = flush /\ AudioRingRead st' = AudioRingRead st)
        \/ exists t, 1 <= t <= Z.of_nat n
                     /\ flush' = filled - i + t
                     /\ AudioRingRead st' = (read + t) mod AUDIO_RING_MAX).
Proof.
  induction n as [|n IH]; intros filled i read st flush Hr; cbn [flush_scan_loop].
  - cbn [fst snd]. repeat split. left. split; reflexivity.
  - destruct (ring_succ_mod _ Hr) as [Em Hb]. rewrite Em.
    assert (Hshift : forall t, ((read + 1) mod AUDIO_RING_MAX + t) mod AUDIO_RING_MAX
                               = (read + (t + 1)) mod AUDIO_RING_MAX).
    { intros t. unfold AUDIO_RING_MAX. Z.div_mod_to_equations. lia. }
    destruct (FlushBuffers (slot st ((read + 1) mod AUDIO_RING_MAX))).
    + specialize (IH filled (i - 1) ((read + 1) mod AUDIO_RING_MAX)
                    (take_flush st ((read + 1) mod AUDIO_RING_MAX))
                    (filled - (i - 1)) Hb).
      cbv zeta in IH. destruct IH as (Hl & Hw & Hf & Hc).
      split; [rewrite Hl; unfold take_flush, set_slot; cbn [AudioRing];
              apply length_insert|].
      split; [exact Hw|]. split; [exact Hf|]. right.
      destruct Hc as [[Hfl Hrd]|(t & Ht & Hfl & Hrd)].
      * exists 1. split; [lia|]. split; [lia|]. rewrite Hrd. reflexivity.
      * exists (t + 1). split; [lia|]. split; [lia|]. rewrite Hrd. apply Hshift.
    + specialize (IH filled (i - 1) ((read + 1) mod AUDIO_RING_MAX) st flush Hb).
      cbv zeta in IH. destruct IH as (Hl & Hw & Hf & Hc).
      split; [exact Hl|]. split; [exact Hw|]. split; [exact Hf|].
      destruct Hc as [[Hfl Hrd]|(t & Ht & Hfl & Hrd)].
      * left. split; assumption.
      * right. exists (t + 1). split; [lia|]. split; [lia|].
        rewrite Hrd. apply Hshift.
Qed.

Lemma flush_scan_matrix (n : nat) :
  forall (filled i read : Z) (st : AudioState) (flush : Z),
    AudioChannelMatrix (flush_scan_loop n filled i read st flush).1
    = AudioChannelMatrix st.
Proof.
  induction n as [|n IH]; intros filled i read st flush; cbn [flush_scan_loop];
    [reflexivity|].
  destruct (FlushBuffers _); rewrite IH; reflexivity.
Qed.

Lemma flush_scan_inv (st : AudioState) : ring_inv st -> ring_inv (flush_scan st).1.
Proof.
  intros (Hlen & Hw & Hr & Hf & Hd). unfold flush_scan.
  pose proof (flush_scan_loop_result (Z.to_nat (AudioRingFilled st))
                (AudioRingFilled st) (AudioRingFilled st) (AudioRingRead st) st 0 Hr)
    as H.
  cbv zeta in H.
  destruct (flush_scan_loop _ _ _ _ st 0) as [st' flush]. cbn [fst snd] in H.
  destruct H as (Hl & Ew & Ef & Hc).
  destruct Hc as [[-> Hrd]|(t & Ht & Hfl & Hrd)].
  - cbn [Z.eqb negb fst]. unfold ring_inv. rewrite Hl, Ew, Ef, Hrd.
    repeat split; assumption || lia.
  - replace (flush =? 0) with false by lia. cbn [negb fst].
    unfold ring_inv, set_filled.
    cbn [AudioRing AudioRingWrite AudioRingRead AudioRingFilled].
    rewrite Hl, Ew, Ef, Hrd, Hfl. unfold AUDIO_RING_MAX in *.
    pose proof (Z.mod_pos_bound (AudioRingRead st + t) 8 ltac:(lia)).
    repeat split; try assumption; try lia.
    clear -Hd. Z.div_mod_to_equations. lia.
Qed.

(** X12: AudioRingAdd, AudioFlushBuffers, the play thread's flush
    handling and its step to the next ring buffer keep, in any order, both
    ring indices inside the ring, the pending count within 0..8, and the
    write index the pending count ahead of the read index. *)
Theorem ring_indices_consistent (ops : list ring_op) :
  forall (flags : FilterFlags) (st : AudioState),
    ring_inv st -> matrix_wf (AudioChannelMatrix st) -> Forall valid_op ops ->
    exists flags' st',
      ring_run (flags, st) ops = Some (flags', st')
      /\ ring_inv st'
      /\ AudioChannelMatrix st' = AudioChannelMatrix st.
Proof.
  induction ops as [|op ops IH]; intros flags st Hinv Hm Hops; cbn [ring_run].
  - eauto.
  - apply Forall_cons in Hops as [Hop Hops].
    assert (Hstep : exists flags1 st1,
               ring_step (flags, st) op = Some (flags1, st1)
               /\ ring_inv st1 /\ AudioChannelMatrix st1 = AudioChannelMatrix st).
    { destruct op as [sample_rate channels passthrough| | |]; cbn [ring_step fst snd].
      - destruct (AudioRingAdd_cases st sample_rate channels passthrough Hm Hop)
          as (r & st1 & E & Em & _).
        rewrite E. exists flags, st1. split; [reflexivity|].
        split; [eapply AudioRingAdd_inv; eauto|exact Em].
      - pose proof (AudioFlushBuffers_inv flags st Hinv) as H.
        destruct (AudioFlushBuffers flags st) as [[res flags1] st1] eqn:E.
        exists flags1, st1. split; [reflexivity|]. split; [exact H|].
        unfold AudioFlushBuffers in E.
        destruct (AudioRingFilled st >=? AUDIO_RING_MAX); injection E as _ _ <-;
          reflexivity.
      - exists flags, (flush_scan st).1. split; [reflexivity|].
        split; [apply flush_scan_inv; exact Hinv|].
        unfold flush_scan.
        pose proof (flush_scan_matrix (Z.to_nat (AudioRingFilled st))
                      (AudioRingFilled st) (AudioRingFilled st) (AudioRingRead st)
                      st 0) as Hmx.
        destruct (flush_scan_loop _ _ _ _ st 0) as [st1 flush]. cbn [fst] in Hmx.
        destruct (negb (flush =? 0)); exact Hmx.
      - destruct (next_ring_buffer st) as [st1|] eqn:E.
        + exists flags, st1. split; [reflexivity|].
          split; [eapply next_ring_buffer_inv; eauto|].
          unfold next_ring_buffer in E.
          destruct (AudioRingFilled st =? 0); [discriminate|].
          injection E as <-. reflexivity.
        + exists flags, st. split; [reflexivity|]. split; [exact Hinv|reflexivity]. }
    destruct Hstep as (flags1 & st1 & -> & Hinv1 & Em1).
    destruct (IH flags1 st1 Hinv1 ltac:(rewrite Em1; exact Hm) Hops)
      as (flags' & st' & E & Hinv' & Em').
    exists flags', st'. split; [exact E|]. split; [exact Hinv'|]. congruence.
Qed.

Lemma ring_indices_consistent_witness :
  exists flags' st',
    ring_run ({| FilterInit := false; Filterchanged := false |}, ring_start)
      [OpAdd 48000 2 0; OpFlush; OpScan; OpNext; OpAdd 44100 6 0]
    = Some (flags', st')
    /\ ring_inv st'.
Proof.
  destruct (ring_indices_consistent
              [OpAdd 48000 2 0; OpFlush; OpScan; OpNext; OpAdd 44100 6 0]
              {| FilterInit := false; Filterchanged := false |} ring_start)
    as (flags' & st' & E & Hinv & _).
  - unfold ring_inv. vm_compute. repeat split; congruence.
  - exact ring_start_matrix.
  - repeat constructor; simpl; lia.
  - exists flags', st'. split; [exact E|exact Hinv].
Defined.

Lemma slot_take_flush_ne (st : AudioState) (read j : Z) :
  0 <= read -> 0 <= j -> j <> read -> slot (take_flush st read) j = slot st j.
Proof.
  intros Hr Hj Hne. unfold slot, take_flush, set_slot. cbn [AudioRing].
  rewrite list_lookup_insert_ne by lia. reflexivity.
Qed.

(** All of a ring buffer's fields but the flush flag. *)
Lemma flush_scan_loop_last (n : nat) :
  forall (filled i read : Z) (st : AudioState) (flush : Z),
    0 <= read < AUDIO_RING_MAX -> (1 <= n <= 8)%nat ->
    length (AudioRing st) = Z.to_nat AUDIO_RING_MAX ->
    FlushBuffers (slot st ((read + Z.of_nat n) mod AUDIO_RING_MAX)) = true ->
    let st' := (flush_scan_loop n filled i read st flush).1 in
    let last := (read + Z.of_nat n) mod AUDIO_RING_MAX in
    (flush_scan_loop n filled i read st flush).2 = filled - i + Z.of_nat n
    /\ AudioRingRead st' = last
    /\ FlushBuffers (slot st' last) = false
    /\ PTS (slot st' last) = PTS (slot st last)
    /\ Buffer (slot st' last) = Buffer (slot st last)
    /\ HwSampleRate (slot st' last) = HwSampleRate (slot st last)
    /\ HwChannels (slot st' last) = HwChannels (slot st last).
Proof.
  induction n as [|n IH]; intros filled i read st flush Hr Hn Hlen Hflag; [lia|].
  cbn [flush_scan_loop]. destruct (ring_succ_mod _ Hr) as [Em Hb]. rewrite Em.
  set (read1 := (read + 1) mod AUDIO_RING_MAX) in *.
  destruct n as [|n].
  - (* the last turn *)
    replace ((read + Z.of_nat 1) mod AUDIO_RING_MAX) with read1 in * by reflexivity.
    rewrite Hflag. cbn [flush_scan_loop fst snd].
    split; [lia|]. split; [reflexivity|].
    unfold slot, take_flush, set_slot. cbn [AudioRing].
    rewrite list_lookup_insert_eq by (unfold AUDIO_RING_MAX in *; lia).
    cbn. repeat split.
  - assert (Hlast : (read + Z.of_nat (S (S n))) mod AUDIO_RING_MAX
                    = (read1 + Z.of_nat (S n)) mod AUDIO_RING_MAX).
    { unfold read1, AUDIO_RING_MAX. Z.div_mod_to_equations. lia. }
    assert (Hne : (read1 + Z.of_nat (S n)) mod AUDIO_RING_MAX <> read1).
    { unfold read1, AUDIO_RING_MAX in *. Z.div_mod_to_equations. lia. }
    assert (Hp : 0 <= (read1 + Z.of_nat (S n)) mod AUDIO_RING_MAX)
      by (apply Z.mod_pos_bound; unfold AUDIO_RING_MAX; lia).
    cbv zeta. rewrite Hlast in *.
    destruct (FlushBuffers (slot st read1)).
    + destruct (IH filled (i - 1) read1 (take_flush st read1) (filled - (i - 1))
                  Hb ltac:(lia))
        as (Ef & Erd & Efl & Ep & Ebuf & Ehr & Ehc).
      * unfold take_flush, set_slot. cbn [AudioRing]. rewrite length_insert. exact Hlen.
      * rewrite slot_take_flush_ne by lia. exact Hflag.
      * rewrite slot_take_flush_ne in Ep, Ebuf, Ehr, Ehc by lia.
        split; [lia|]. repeat split; assumption.
    + destruct (IH filled (i - 1) read1 st flush Hb ltac:(lia) Hlen Hflag)
        as (Ef & Erd & Efl & Ep & Ebuf & Ehr & Ehc).
      split; [lia|]. repeat split; assumption.
Qed.

Lemma RingBuffer_drained (rb : RingBuffer) :
  RingBufferUsedBytes (RingBufferReadAdvance rb (RingBufferUsedBytes rb)).1 = 0.
Proof.
  unfold RingBufferUsedBytes, RingBufferReadAdvance. cbn [fst Filled].
  rewrite Z.gtb_ltb, Z.ltb_irrefl. cbn [Filled]. lia.
Qed.

(** X13: AudioFlushBuffers on a full ring changes nothing in the ring;
    otherwise it moves the write index on by one, gives that ring buffer the
    previous format, the flush flag, the unknown time stamp and an empty
    sample buffer, clears the video-ready flag and the pending skip, counts
    the ring buffer as pending and wakes the play thread. *)
Theorem AudioFlushBuffers_new_slot (flags : FilterFlags) (st : AudioState) :
  ring_inv st ->
  (AudioRingFilled st = AUDIO_RING_MAX ->
   (AudioFlushBuffers flags st).1.1 = FlushOutOfRingBuffers
   /\ (AudioFlushBuffers flags st).2 = st)
  /\ (AudioRingFilled st < AUDIO_RING_MAX ->
      let st' := (AudioFlushBuffers flags st).2 in
      let old := slot st (AudioRingWrite st) in
      let new := slot st' (AudioRingWrite st') in
      (AudioFlushBuffers flags st).1.1 = FlushDone
      /\ AudioRingWrite st' = (AudioRingWrite st + 1) mod AUDIO_RING_MAX
      /\ AudioRingFilled st' = AudioRingFilled st + 1
      /\ FlushBuffers new = true /\ PTS new = AV_NOPTS
      /\ RingBufferUsedBytes (Buffer new) = 0
      /\ HwSampleRate new = HwSampleRate old /\ HwChannels new = HwChannels old
      /\ InSampleRate new = InSampleRate old /\ InChannels new = InChannels old
      /\ Passthrough new = Passthrough old
      /\ AudioSkip st' = 0 /\ AudioVideoIsReady st' = false
      /\ AudioRunning st' = true).
Proof.
  intros (Hlen & Hw & Hr & Hf & Hd). unfold AudioFlushBuffers. split.
  - intros ->. cbn. split; reflexivity.
  - intros Hlt. replace (AudioRingFilled st >=? AUDIO_RING_MAX) with false by lia.
    destruct (ring_succ_mod _ Hw) as [Em Hb]. rewrite Em.
    cbn [fst snd AudioRingWrite AudioRingFilled AudioSkip AudioVideoIsReady
         AudioRunning].
    unfold slot, set_slot. cbn [AudioRing].
    rewrite list_lookup_insert_eq by (unfold AUDIO_RING_MAX in *; lia).
    cbn [default FlushBuffers PTS Buffer HwSampleRate HwChannels InSampleRate
         InChannels Passthrough].
    repeat split.
    exact (RingBuffer_drained _).
Qed.

Lemma AudioFlushBuffers_new_slot_witness :
  PTS (slot (AudioFlushBuffers {| FilterInit := true; Filterchanged := false |}
               ring_start).2
         (AudioRingWrite (AudioFlushBuffers {| FilterInit := true;
                                               Filterchanged := false |}
                            ring_start).2))
  = AV_NOPTS.
Proof.
  destruct (AudioFlushBuffers_new_slot {| FilterInit := true; Filterchanged := false |}
              ring_start) as [_ H].
  - unfold ring_inv. vm_compute. repeat split; congruence.
  - destruct H as (_ & _ & _ & _ & H & _); [vm_compute; reflexivity|exact H].
Defined.

Lemma flush_slot_fields (flags : FilterFlags) (st : AudioState) :
  ring_inv st -> AudioRingFilled st < AUDIO_RING_MAX ->
  let st' := (AudioFlushBuffers flags st).2 in
  AudioRingWrite st' = (AudioRingWrite st + 1) mod AUDIO_RING_MAX
  /\ AudioRingFilled st' = AudioRingFilled st + 1
  /\ AudioRingRead st' = AudioRingRead st
  /\ FlushBuffers (slot st' (AudioRingWrite st')) = true
  /\ PTS (slot st' (AudioRingWrite st')) = AV_NOPTS
  /\ Buffer (slot st' (AudioRingWrite st'))
     = (RingBufferReadAdvance (Buffer (slot st (AudioRingWrite st')))
          (RingBufferUsedBytes (Buffer (slot st (AudioRingWrite st'))))).1
  /\ HwSampleRate (slot st' (AudioRingWrite st'))
     = HwSampleRate (slot st (AudioRingWrite st))
  /\ HwChannels (slot st' (AudioRingWrite st'))
     = HwChannels (slot st (AudioRingWrite st)).
Proof.
  intros (Hlen & Hw & Hr & Hf & Hd) Hlt. unfold AudioFlushBuffers.
  replace (AudioRingFilled st >=? AUDIO_RING_MAX) with false by lia.
  destruct (ring_succ_mod _ Hw) as [Em Hb]. rewrite Em.
  cbn [fst snd AudioRingWrite AudioRingFilled AudioRingRead].
  unfold slot, set_slot. cbn [AudioRing].
  rewrite list_lookup_insert_eq by (unfold AUDIO_RING_MAX in *; lia).
  cbn [default FlushBuffers PTS Buffer HwSampleRate HwChannels].
  repeat split.
Qed.

(** X14: after AudioFlushBuffers has found room, the play thread's flush
    handling drops every pending ring buffer: it reports all of them as
    flushed, puts the read index on the new write slot, whose flush flag it
    clears and whose buffer is empty with the time stamp unknown, and leaves
    nothing pending. *)
Theorem flush_reaches_play_thread (flags : FilterFlags) (st : AudioState) :
  ring_inv st -> AudioRingFilled st < AUDIO_RING_MAX ->
  let st1 := (AudioFlushBuffers flags st).2 in
  let st2 := (flush_scan st1).1 in
  (flush_scan st1).2 = AudioRingFilled st + 1
  /\ AudioRingRead st2 = AudioRingWrite st1
  /\ AudioRingWrite st2 = AudioRingWrite st1
  /\ AudioRingFilled st2 = 0
  /\ FlushBuffers (slot st2 (AudioRingRead st2)) = false
  /\ PTS (slot st2 (AudioRingRead st2)) = AV_NOPTS
  /\ RingBufferUsedBytes (Buffer (slot st2 (AudioRingRead st2))) = 0
  /\ HwSampleRate (slot st2 (AudioRingRead st2))
     = HwSampleRate (slot st (AudioRingWrite st))
  /\ HwChannels (slot st2 (AudioRingRead st2))
     = HwChannels (slot st (AudioRingWrite st)).
Proof.
  intros Hinv Hlt st1 st2.
  destruct (flush_slot_fields flags st Hinv Hlt)
    as (Ew & Ef & Erd & Efl & Ep & Eb & Ehr & Ehc).
  fold st1 in Ew, Ef, Erd, Efl, Ep, Eb, Ehr, Ehc.
  pose proof (AudioFlushBuffers_inv flags st Hinv) as Hinv1. fold st1 in Hinv1.
  pose proof Hinv as (_ & _ & _ & Hf & _).
  destruct Hinv1 as (Hlen1 & Hw1 & Hr1 & Hf1 & Hd1).
  assert (Hlast : (AudioRingRead st1 + Z.of_nat (Z.to_nat (AudioRingFilled st1)))
                  mod AUDIO_RING_MAX = AudioRingWrite st1).
  { rewrite Z2Nat.id by lia. unfold AUDIO_RING_MAX in *.
    clear -Hd1 Hw1 Hr1 Hf1. Z.div_mod_to_equations. lia. }
  pose proof (flush_scan_loop_last (Z.to_nat (AudioRingFilled st1))
                (AudioRingFilled st1) (AudioRingFilled st1) (AudioRingRead st1) st1 0
                Hr1 ltac:(unfold AUDIO_RING_MAX in *; lia) Hlen1
                ltac:(rewrite Hlast; exact Efl)) as H.
  cbv zeta in H. rewrite Hlast in H.
  pose proof (flush_scan_loop_result (Z.to_nat (AudioRingFilled st1))
                (AudioRingFilled st1) (AudioRingFilled st1) (AudioRingRead st1) st1 0
                Hr1) as H'.
  cbv zeta in H'.
  unfold st2, flush_scan.
  destruct (flush_scan_loop _ _ _ _ st1 0) as [st' flush]. cbn [fst snd] in H, H'.
  destruct H as (Hfl & Hrd & Hflag & Hp & Hb & Hhr & Hhc).
  destruct H' as (_ & Hw' & Hf' & _).
  rewrite Z2Nat.id in Hfl by lia.
  replace (flush =? 0) with false by lia. cbn [negb fst snd].
  assert (Es : forall f i, slot (set_filled st' f) i = slot st' i) by reflexivity.
  rewrite !Es. cbn [set_filled AudioRingRead AudioRingWrite AudioRingFilled].
  rewrite Hrd, Hflag, Hp, Hb, Hhr, Hhc, Hw', Hf', Ep, Eb, Ehr, Ehc.
  repeat split; try lia.
  exact (RingBuffer_drained _).
Qed.

Lemma flush_reaches_play_thread_witness :
  AudioRingFilled
    (flush_scan (AudioFlushBuffers {| FilterInit := true; Filterchanged := false |}
                   ring_start).2).1 = 0.
Proof.
  destruct (flush_reaches_play_thread {| FilterInit := true; Filterchanged := false |}
              ring_start) as (_ & _ & _ & H & _).
  - unfold ring_inv. vm_compute. repeat split; congruence.
  - vm_compute. reflexivity.
  - exact H.
Defined.

(** X15: with seven ring buffers pending a further AudioRingAdd still
    succeeds, and the ring buffer it sets up is the one the read index points
    at: that buffer is reset and gets the new format and an unknown time
    stamp while it is the play thread's current one. *)
Theorem AudioRingAdd_eighth_is_read_slot (st st' : AudioState)
    (sample_rate channels passthrough : Z) :
  ring_inv st -> AudioRingFilled st = 7 ->
  AudioRingAdd st sample_rate channels passthrough = Some (RingAddOk, st') ->
  AudioRingFilled st' = AUDIO_RING_MAX
  /\ AudioRingRead st' = AudioRingRead st
  /\ AudioRingWrite st' = AudioRingRead st'
  /\ HwSampleRate (slot st' (AudioRingRead st')) = sample_rate
  /\ PTS (slot st' (AudioRingRead st')) = AV_NOPTS
  /\ RingBufferUsedBytes (Buffer (slot st' (AudioRingRead st'))) = 0.
Proof.
  intros Hinv H7 E.
  pose proof (AudioRingAdd_inv _ _ _ _ _ _ Hinv E) as (Hlen' & Hw' & Hr' & Hf' & Hd').
  unfold AudioRingAdd in E.
  destruct (search_rate AudioRatesTable 0 sample_rate) as [u|]; [|discriminate].
  destruct (matrix_entry (AudioChannelMatrix st) u channels) as [hw|]; [|discriminate].
  destruct (hw =? 0); [discriminate|].
  destruct (AudioRingFilled st =? AUDIO_RING_MAX); [discriminate|].
  injection E as <-.
  cbn [AudioRingFilled AudioRingRead AudioRingWrite] in *.
  assert (Ewr : Z.rem (AudioRingWrite st + 1) AUDIO_RING_MAX = AudioRingRead st).
  { rewrite H7 in Hd'. unfold AUDIO_RING_MAX in *.
    clear -Hd' Hw' Hr'. Z.div_mod_to_equations. lia. }
  split; [unfold AUDIO_RING_MAX; lia|]. split; [reflexivity|]. split; [exact Ewr|].
  unfold slot, set_slot. cbn [AudioRing]. rewrite Ewr.
  cbn [length AudioRing] in Hlen'. unfold set_slot in Hlen'.
  rewrite length_insert in Hlen'.
  rewrite list_lookup_insert_eq by (unfold AUDIO_RING_MAX in *; lia).
  cbn. repeat split.
Qed.

Lemma AudioRingAdd_eighth_is_read_slot_witness :
  exists st',
    AudioRingAdd seven_pending 48000 2 0 = Some (RingAddOk, st')
    /\ AudioRingWrite st' = AudioRingRead st'.
Proof.
  eexists. split; [vm_compute; reflexivity|].
  eapply (AudioRingAdd_eighth_is_read_slot seven_pending _ 48000 2 0).
  - unfold ring_inv. vm_compute. repeat split; congruence.
  - reflexivity.
  - vm_compute. reflexivity.
Defined.

End RingOpsFacts.

(** ** The channel matrix built by AudioInit *)

Section InitFacts.
Import Ring Init.

Lemma for_loop_invariant {A : Type} (P : nat -> A -> Prop) (body : nat -> A -> A)
    (n : nat) :
  forall (i : nat) (a : A),
    P i a ->
    (forall j b, (i <= j < i + n)%nat -> P j b -> P (S j) (body j b)) ->
    P (i + n)%nat (for_loop n i body a).
Proof.
  induction n as [|n IH]; intros i a Ha Hstep; cbn [for_loop].
  - rewrite Nat.add_0_r. exact Ha.
  - replace (i + S n)%nat with (S i + n)%nat by lia.
    apply IH.
    + apply Hstep; [lia|exact Ha].
    + intros j b Hj. apply Hstep. lia.
Qed.

Lemma load_store_same (b : list Z) (i : nat) (v : Z) :
  (i < length b)%nat -> load (store b i v) i = v.
Proof.
  intros H. unfold load, store. rewrite list_lookup_insert_eq by exact H. reflexivity.
Qed.

Lemma load_store_other (b : list Z) (i j : nat) (v : Z) :
  i <> j -> load (store b i v) j = load b j.
Proof.
  intros H. unfold load, store. rewrite list_lookup_insert_ne by exact H. reflexivity.
Qed.

Lemma store_load_id (b : list Z) (i : nat) :
  (i < length b)%nat -> store b i (load b i) = b.
Proof.
  intros H. unfold load, store.
  destruct (lookup_lt_is_Some_2 b i H) as [x Hx]. rewrite Hx. cbn.
  apply list_insert_id. exact Hx.
Qed.

Lemma length_store (b : list Z) (i : nat) (v : Z) : length (store b i v) = length b.
Proof. unfold store. apply length_insert. Qed.

Lemma mark_rate_set (rates : list Z) (u chan : nat) :
  (u < length rates)%nat -> load (mark_rate rates u chan) u <> 0.
Proof.
  intros H. unfold mark_rate. rewrite load_store_same by exact H.
  intros E. apply Z.lor_eq_0_iff in E as [_ E].
  apply Z.shiftl_eq_0_iff in E; lia.
Qed.

Lemma probe_all_spec (ok : Z -> Z -> bool) (freq : Z) (u : nat) (hw : HwSupport) :
  hw_wf hw -> (u < length AudioRatesTable)%nat ->
  let hw' := probe_all ok freq u hw in
  hw_wf hw'
  /\ (forall c, (1 <= c <= 8)%nat ->
        load (AudioChannelsInHw hw') c
        = if ok freq (Z.of_nat c) then Z.of_nat c else 0)
  /\ (load (AudioRatesInHw hw') u <> 0
      <-> exists c, (1 <= c <= 8)%nat /\ ok freq (Z.of_nat c) = true)
  /\ (forall v, v <> u -> load (AudioRatesInHw hw') v = load (AudioRatesInHw hw) v).
Proof.
  intros [Hc Hr] Hu hw'.
  pose (P := fun (j : nat) (h : HwSupport) =>
    hw_wf h
    /\ (forall c, (1 <= c < j)%nat ->
          load (AudioChannelsInHw h) c
          = if ok freq (Z.of_nat c) then Z.of_nat c else 0)
    /\ (load (AudioRatesInHw h) u <> 0
        <-> exists c, (1 <= c < j)%nat /\ ok freq (Z.of_nat c) = true)
    /\ (forall v, v <> u -> load (AudioRatesInHw h) v = load (AudioRatesInHw hw) v)).
  assert (H : P (1 + 8)%nat hw').
  { apply (for_loop_invariant P).
    - unfold P, hw_wf. cbn [AudioChannelsInHw AudioRatesInHw].
      rewrite length_store. repeat split; try assumption.
      + intros c Hc'. lia.
      + intros E. rewrite load_store_same in E by lia. congruence.
      + intros (c & Hc' & _). lia.
      + intros v Hv. apply load_store_other. congruence.
    - intros j h Hj ([Hc' Hr'] & Hch & Hrt & Hoth).
      destruct (ok freq (Z.of_nat j)) eqn:Eok; unfold P, hw_wf;
        cbn [AudioChannelsInHw AudioRatesInHw].
      + unfold mark_rate at 1. rewrite !length_store.
        repeat split; try assumption.
        * intros c Hcj. destruct (Nat.eq_dec c j) as [->|Hne].
          -- rewrite load_store_same by lia. rewrite Eok. reflexivity.
          -- rewrite load_store_other by congruence. apply Hch. lia.
        * intros _. exists j. split; [lia|exact Eok].
        * intros _. apply mark_rate_set. lia.
        * intros v Hv. unfold mark_rate. rewrite load_store_other by congruence.
          apply Hoth. exact Hv.
      + rewrite length_store. repeat split; try assumption.
        * intros c Hcj. destruct (Nat.eq_dec c j) as [->|Hne].
          -- rewrite load_store_same by lia. rewrite Eok. reflexivity.
          -- rewrite load_store_other by congruence. apply Hch. lia.
        * intros E. apply Hrt in E as (c & Hcj & E). exists c. split; [lia|exact E].
        * intros (c & Hcj & E). apply Hrt.
          destruct (Nat.eq_dec c j) as [->|Hne]; [congruence|].
          exists c. split; [lia|exact E]. }
  destruct H as (Hwf & Hch & Hrt & Hoth).
  split; [exact Hwf|]. split; [|split; [|exact Hoth]].
  - intros c Hc'. apply Hch. lia.
  - rewrite Hrt. split; intros (c & Hc' & E); exists c; (split; [lia|exact E]).
Qed.

Lemma probe_known_spec (ok : Z -> Z -> bool) (freq : Z) (u : nat) (hw : HwSupport) :
  hw_wf hw -> (u < length AudioRatesTable)%nat ->
  (forall c, (1 <= c <= 8)%nat ->
     load (AudioChannelsInHw hw) c = 0 \/ load (AudioChannelsInHw hw) c = Z.of_nat c) ->
  let hw' := probe_known ok freq u hw in
  hw_wf hw'
  /\ AudioChannelsInHw hw' = AudioChannelsInHw hw
  /\ (load (AudioRatesInHw hw') u <> 0
      <-> exists c, (1 <= c <= 8)%nat /\ load (AudioChannelsInHw hw) c <> 0
                    /\ ok freq (Z.of_nat c) = true)
  /\ (forall v, v <> u -> load (AudioRatesInHw hw') v = load (AudioRatesInHw hw) v).
Proof.
  intros [Hc Hr] Hu Hval hw'.
  pose (P := fun (j : nat) (h : HwSupport) =>
    hw_wf h
    /\ AudioChannelsInHw h = AudioChannelsInHw hw
    /\ (load (AudioRatesInHw h) u <> 0
        <-> exists c, (1 <= c < j)%nat /\ load (AudioChannelsInHw hw) c <> 0
                      /\ ok freq (Z.of_nat c) = true)
    /\ (forall v, v <> u -> load (AudioRatesInHw h) v = load (AudioRatesInHw hw) v)).
  assert (H : P (1 + 8)%nat hw').
  { apply (for_loop_invariant P).
    - unfold P, hw_wf. cbn [AudioChannelsInHw AudioRatesInHw].
      rewrite length_store. repeat split; try assumption.
      + intros E. rewrite load_store_same in E by lia. congruence.
      + intros (c & Hc' & _). lia.
      + intros v Hv. apply load_store_other. congruence.
    - intros j h Hj ([Hc' Hr'] & Hch & Hrt & Hoth).
      assert (Hkeep : (exists c, (1 <= c < S j)%nat
                                 /\ load (AudioChannelsInHw hw) c <> 0
                                 /\ ok freq (Z.of_nat c) = true)
                      <-> (exists c, (1 <= c < j)%nat
                                     /\ load (AudioChannelsInHw hw) c <> 0
                                     /\ ok freq (Z.of_nat c) = true)
                          \/ (load (AudioChannelsInHw hw) j <> 0
                              /\ ok freq (Z.of_nat j) = true)).
      { split.
        - intros (c & Hcj & E). destruct (Nat.eq_dec c j) as [->|Hne].
          + right. exact E.
          + left. exists c. split; [lia|exact E].
        - intros [(c & Hcj & E)|E].
          + exists c. split; [lia|exact E].
          + exists j. split; [lia|exact E]. }
      rewrite Hch.
      destruct (load (AudioChannelsInHw hw) j =? 0) eqn:Ez.
      + unfold P, hw_wf. rewrite Hkeep. repeat split; try assumption.
        * intros E. left. apply Hrt. exact E.
        * intros [E|[E _]]; [apply Hrt; exact E|lia].
      + destruct (ok freq (Z.of_nat j)) eqn:Eok.
        * unfold P, hw_wf. cbn [AudioChannelsInHw AudioRatesInHw]. rewrite Hkeep.
          assert (Eid : store (AudioChannelsInHw hw) j (Z.of_nat j)
                        = AudioChannelsInHw hw).
          { destruct (Hval j ltac:(lia)) as [E|E]; [lia|].
            rewrite <- E. apply store_load_id. lia. }
          rewrite Eid. unfold mark_rate at 1. rewrite length_store.
          repeat split; try assumption.
          -- intros _. right. split; [lia|reflexivity].
          -- intros _. apply mark_rate_set. lia.
          -- intros v Hv. unfold mark_rate. rewrite load_store_other by congruence.
             apply Hoth. exact Hv.
        * unfold P, hw_wf. rewrite Hkeep. repeat split; try assumption.
          -- intros E. left. apply Hrt. exact E.
          -- intros [E|[_ E]]; [apply Hrt; exact E|discriminate]. }
  destruct H as (Hwf & Hch & Hrt & Hoth).
  split; [exact Hwf|]. split; [exact Hch|]. split; [|exact Hoth].
  rewrite Hrt. split; intros (c & Hc' & E); exists c; (split; [lia|exact E]).
Qed.

Lemma set_entry_wf (m : list (list Z)) (u c : nat) (v : Z) :
  matrix_wf m -> matrix_wf (set_entry m u c v).
Proof.
  intros [Hlen Hrows]. unfold set_entry. destruct (m !! u) as [row|] eqn:E.
  - split; [rewrite length_insert; exact Hlen|].
    rewrite Forall_lookup in Hrows |- *. intros i r Hi.
    destruct (Nat.eq_dec i u) as [->|Hne].
    + rewrite list_lookup_insert_eq in Hi by (apply lookup_lt_Some in E; exact E).
      injection Hi as <-. rewrite length_store. apply (Hrows u row E).
    + rewrite list_lookup_insert_ne in Hi by congruence. apply (Hrows i r Hi).
  - split; assumption.
Qed.

Lemma cell_set_entry_same (m : list (list Z)) (u c : nat) (v : Z) :
  matrix_wf m -> (u < length AudioRatesTable)%nat -> (c < 9)%nat ->
  cell (set_entry m u c v) u c = v.
Proof.
  intros [Hlen Hrows] Hu Hc. unfold cell, set_entry.
  destruct (lookup_lt_is_Some_2 m u ltac:(lia)) as [row E]. rewrite E.
  rewrite list_lookup_insert_eq by lia. cbn [default].
  apply load_store_same. rewrite Forall_lookup in Hrows. rewrite (Hrows u row E). exact Hc.
Qed.

Lemma cell_set_entry_other (m : list (list Z)) (u c u' c' : nat) (v : Z) :
  u' <> u \/ c' <> c -> cell (set_entry m u c v) u' c' = cell m u' c'.
Proof.
  intros H. unfold cell, set_entry. destruct (m !! u) as [row|] eqn:E; [|reflexivity].
  destruct (Nat.eq_dec u' u) as [->|Hne].
  - rewrite list_lookup_insert_eq by (apply lookup_lt_Some in E; exact E).
    rewrite E. cbn [default]. apply load_store_other. destruct H; congruence.
  - rewrite list_lookup_insert_ne by congruence. reflexivity.
Qed.

Lemma matrix_entry_cell (m : list (list Z)) (u : nat) (channels : Z) :
  matrix_wf m -> (u < length AudioRatesTable)%nat -> 0 <= channels <= 8 ->
  matrix_entry m u channels = Some (cell m u (Z.to_nat channels)).
Proof.
  intros [Hlen Hrows] Hu Hc. unfold matrix_entry, cell.
  replace (channels <? 0) with false by lia.
  destruct (lookup_lt_is_Some_2 m u ltac:(lia)) as [row E]. rewrite E. cbn [default].
  rewrite Forall_lookup in Hrows.
  destruct (lookup_lt_is_Some_2 row (Z.to_nat channels)
              ltac:(rewrite (Hrows u row E); lia)) as [x Hx].
  rewrite Hx. symmetry. f_equal. apply load_lookup. exact Hx.
Qed.

(** The two loops write [matrix_value] into every entry with a channel
    count from 1 to 8 and leave column 0 alone. *)
Lemma build_matrix_spec (hw : HwSupport) (m : list (list Z)) :
  matrix_wf m ->
  matrix_wf (build_matrix hw m)
  /\ (forall u c, (u < length AudioRatesTable)%nat -> (1 <= c <= 8)%nat ->
        cell (build_matrix hw m) u c = matrix_value hw u c)
  /\ (forall u, cell (build_matrix hw m) u 0 = cell m u 0).
Proof.
  intros Hwf.
  pose (P := fun (j : nat) (m' : list (list Z)) =>
    matrix_wf m'
    /\ (forall u c, (u < j)%nat -> (1 <= c <= 8)%nat -> cell m' u c = matrix_value hw u c)
    /\ (forall u c, (j <= u)%nat \/ c = 0%nat -> cell m' u c = cell m u c)).
  assert (H : P (0 + length AudioRatesTable)%nat (build_matrix hw m)).
  { apply (for_loop_invariant P).
    - unfold P. split; [exact Hwf|]. split; [intros; lia|reflexivity].
    - intros u m1 Hu (Hwf1 & Hdone & Hrest).
      pose (Q := fun (k : nat) (m' : list (list Z)) =>
        matrix_wf m'
        /\ (forall c, (1 <= c < k)%nat -> cell m' u c = matrix_value hw u c)
        /\ (forall u' c, u' <> u \/ c = 0%nat \/ (k <= c)%nat ->
              cell m' u' c = cell m1 u' c)).
      match goal with |- P _ ?t => assert (HQ : Q (1 + 8)%nat t) end.
      { apply (for_loop_invariant Q).
        - unfold Q. split; [exact Hwf1|]. split; [intros; lia|reflexivity].
        - intros c m2 Hc (Hwf2 & Hd2 & Hr2).
          assert (Hw0 := set_entry_wf m2 u c 0 Hwf2).
          assert (Hstep :
            forall m3, matrix_wf m3 ->
              cell m3 u c = matrix_value hw u c ->
              (forall u' c', u' <> u \/ c' <> c -> cell m3 u' c' = cell m2 u' c') ->
              Q (S c) m3).
          { intros m3 Hwf3 Hval Hoth. unfold Q. split; [exact Hwf3|]. split.
            - intros c' Hc'. destruct (Nat.eq_dec c' c) as [->|Hne]; [exact Hval|].
              rewrite Hoth by (right; exact Hne). apply Hd2. lia.
            - intros u' c' H'. rewrite Hoth by lia. apply Hr2. lia. }
          unfold matrix_value in Hstep. cbv zeta.
          destruct (load (AudioRatesInHw hw) u =? 0).
          + apply Hstep; [exact Hw0| |].
            * apply cell_set_entry_same; [exact Hwf2|lia|lia].
            * intros u' c' H'. apply cell_set_entry_other. exact H'.
          + destruct (in_hw (AudioChannelsInHw hw) c).
            * apply Hstep; [apply set_entry_wf; exact Hw0| |].
              -- apply cell_set_entry_same; [exact Hw0|lia|lia].
              -- intros u' c' H'. rewrite !cell_set_entry_other by exact H'.
                 reflexivity.
            * destruct (convert_to (AudioChannelsInHw hw) c) as [v|].
              -- apply Hstep; [apply set_entry_wf; exact Hw0| |].
                 ++ apply cell_set_entry_same; [exact Hw0|lia|lia].
                 ++ intros u' c' H'. rewrite !cell_set_entry_other by exact H'.
                    reflexivity.
              -- apply Hstep; [exact Hw0| |].
                 ++ apply cell_set_entry_same; [exact Hwf2|lia|lia].
                 ++ intros u' c' H'. apply cell_set_entry_other. exact H'. }
      destruct HQ as (HwfQ & HdQ & HrQ). unfold P. split; [exact HwfQ|]. split.
      + intros u' c Hu' Hc. destruct (Nat.eq_dec u' u) as [->|Hne].
        * apply HdQ. lia.
        * rewrite HrQ by (left; exact Hne). apply Hdone; lia.
      + intros u' c H'. destruct H' as [H'| ->].
        * rewrite HrQ by lia. apply Hrest. lia.
        * rewrite HrQ by lia. apply Hrest. right. reflexivity. }
  destruct H as (Hw' & Hd' & Hr'). split; [exact Hw'|]. split.
  - intros u c Hu Hc. apply Hd'; lia.
  - intros u. apply Hr'. right. reflexivity.
Qed.

Ltac try_channel k :=
  exists k; split; [reflexivity|]; split; [lia|]; split; [lia|assumption].

(** The switch only ever picks another channel count that is in
    [AudioChannelsInHw]. *)
Lemma convert_to_in_hw (chans : list Z) (chan : nat) (v : Z) :
  in_hw chans chan = false ->
  convert_to chans chan = Some v ->
  exists k, v = Z.of_nat k /\ (1 <= k <= 8)%nat /\ k <> chan /\ in_hw chans k = true.
Proof.
  intros Hno. unfold convert_to.
  destruct chan as [|[|[|[|[|[|[|[|[|chan]]]]]]]]]; cbv zeta; try discriminate;
    rewrite ?Hno;
    repeat match goal with
           | |- context [if in_hw chans ?k then _ else _] =>
               destruct (in_hw chans k) eqn:?
           end;
    try discriminate; intros [= <-];
    first [try_channel 1%nat | try_channel 2%nat | try_channel 4%nat
          | try_channel 5%nat | try_channel 6%nat | try_channel 7%nat
          | try_channel 8%nat].
Qed.

(** With stereo in [AudioChannelsInHw] the switch finds a target for every
    channel count. *)
Lemma convert_to_stereo (chans : list Z) (chan : nat) :
  (1 <= chan <= 8)%nat -> in_hw chans 2 = true -> is_Some (convert_to chans chan).
Proof.
  intros Hc H2. unfold convert_to.
  destruct chan as [|[|[|[|[|[|[|[|[|chan]]]]]]]]]; cbv zeta; try lia;
    rewrite ?H2;
    repeat match goal with
           | |- context [if in_hw chans ?k then _ else _] =>
               destruct (in_hw chans k) eqn:?
           end;
    eexists; reflexivity.
Qed.

Lemma rate_in_hw_iff (ok : Z -> Z -> bool) (u : nat) (rate : Z) :
  AudioRatesTable !! u = Some rate ->
  rate_in_hw ok u
  <-> exists c, (1 <= c <= 8)%nat /\ ok 44100 (Z.of_nat c) = true
                /\ ok rate (Z.of_nat c) = true.
Proof.
  intros Hu. unfold rate_in_hw. split.
  - intros (c & rate' & Hc & Hr & H1 & H2).
    assert (rate' = rate) as -> by congruence.
    exists (Z.to_nat c). rewrite Z2Nat.id by lia. split; [lia|]. split; assumption.
  - intros (c & Hc & H1 & H2). exists (Z.of_nat c), rate.
    split; [lia|]. split; [exact Hu|]. split; assumption.
Qed.

(** The tables AudioInit leaves: a channel count is in [AudioChannelsInHw]
    when the hardware took it at 44100 Hz, a rate is in [AudioRatesInHw] when
    one of those channel counts was taken at that rate, and the matrix holds
    [matrix_value] of these tables. *)
Lemma AudioInit_tables (ok : Z -> Z -> bool) (hw : HwSupport) (m : list (list Z)) :
  hw_wf hw -> matrix_wf m ->
  let hw' := (AudioInit ok hw m).1 in
  let m' := (AudioInit ok hw m).2 in
  matrix_wf m'
  /\ (forall c, (1 <= c <= 8)%nat ->
        in_hw (AudioChannelsInHw hw') c = ok 44100 (Z.of_nat c))
  /\ (forall u, (u < length AudioRatesTable)%nat ->
        load (AudioRatesInHw hw') u <> 0 <-> rate_in_hw ok u)
  /\ (forall u c, (u < length AudioRatesTable)%nat -> (1 <= c <= 8)%nat ->
        cell m' u c = matrix_value hw' u c)
  /\ (forall u, cell m' u 0 = cell m u 0).
Proof.
  intros Hwf Hm. unfold AudioInit. cbv zeta. cbn [fst snd].
  destruct (probe_all_spec ok 44100 0 hw Hwf ltac:(cbn; lia)) as (W1 & C1 & R1 & O1).
  cbv zeta in W1, C1, R1, O1.
  set (hw1 := probe_all ok 44100 0 hw) in *.
  assert (V1 : forall c, (1 <= c <= 8)%nat ->
                 load (AudioChannelsInHw hw1) c = 0
                 \/ load (AudioChannelsInHw hw1) c = Z.of_nat c).
  { intros c Hc. rewrite (C1 c Hc). destruct (ok 44100 (Z.of_nat c)); auto. }
  assert (N1 : forall c, (1 <= c <= 8)%nat ->
                 load (AudioChannelsInHw hw1) c <> 0 <-> ok 44100 (Z.of_nat c) = true).
  { intros c Hc. rewrite (C1 c Hc). destruct (ok 44100 (Z.of_nat c)); split;
      intros; try reflexivity; try discriminate; lia. }
  destruct (probe_known_spec ok 48000 1 hw1 W1 ltac:(cbn; lia) V1)
    as (W2 & C2 & R2 & O2).
  cbv zeta in W2, C2, R2, O2.
  set (hw2 := probe_known ok 48000 1 hw1) in *.
  destruct (probe_known_spec ok 192000 2 hw2 W2 ltac:(cbn; lia)
              ltac:(rewrite C2; exact V1)) as (W3 & C3 & R3 & O3).
  cbv zeta in W3, C3, R3, O3.
  set (hw3 := probe_known ok 192000 2 hw2) in *.
  destruct (build_matrix_spec hw3 m Hm) as (Wm & Vm & Zm).
  split; [exact Wm|]. split; [|split; [|split; [exact Vm|exact Zm]]].
  - intros c Hc. unfold in_hw. rewrite C3, C2, (C1 c Hc).
    destruct (ok 44100 (Z.of_nat c)); [|reflexivity].
    replace (Z.of_nat c =? 0) with false by lia. reflexivity.
  - intros u Hu. unfold AudioRatesTable in Hu. cbn [length] in Hu.
    destruct u as [|[|[|u]]]; [| | |lia].
    + rewrite (rate_in_hw_iff ok 0 44100) by reflexivity.
      rewrite O3, O2 by lia. rewrite R1.
      split; intros (c & Hc & E); exists c; repeat split; tauto.
    + rewrite (rate_in_hw_iff ok 1 48000) by reflexivity.
      rewrite O3 by lia. rewrite R2.
      split; intros (c & Hc & E1 & E2); exists c; (split; [exact Hc|]);
        (split; [apply (N1 c Hc); exact E1|exact E2]).
    + rewrite (rate_in_hw_iff ok 2 192000) by reflexivity.
      rewrite R3, C2.
      split; intros (c & Hc & E1 & E2); exists c; (split; [exact Hc|]);
        (split; [apply (N1 c Hc); exact E1|exact E2]).
Qed.

(** X16: the channel matrix AudioInit builds, for any hardware.  An entry
    for a channel count from 1 to 8 is 0 or a channel count from 1 to 8 that
    the hardware took at 44100 Hz, and then the rate had a channel count the
    hardware took; a channel count the hardware took at 44100 Hz maps to
    itself at every such rate, also when the hardware refused it at that
    rate; with stereo taken every channel count gets a target; column 0 is
    never written. *)
Theorem AudioInit_matrix_entries (ok : Z -> Z -> bool) (hw : HwSupport)
    (m : list (list Z)) (u : nat) (chan : Z) :
  hw_wf hw -> matrix_wf m -> (u < length AudioRatesTable)%nat -> 1 <= chan <= 8 ->
  let m' := (AudioInit ok hw m).2 in
  matrix_wf m'
  /\ matrix_entry m' u 0 = matrix_entry m u 0
  /\ exists hwc,
       matrix_entry m' u chan = Some hwc
       /\ (hwc = 0 \/ (1 <= hwc <= 8 /\ ok 44100 hwc = true /\ rate_in_hw ok u))
       /\ (rate_in_hw ok u -> ok 44100 chan = true -> hwc = chan)
       /\ (rate_in_hw ok u -> ok 44100 2 = true -> hwc <> 0)
       /\ (~ rate_in_hw ok u -> hwc = 0).
Proof.
  intros Hwf Hm Hu Hc m'.
  destruct (AudioInit_tables ok hw m Hwf Hm) as (Wm & Hin & Hrt & Hval & Hz).
  cbv zeta in Wm, Hin, Hrt, Hval, Hz. fold m' in Wm, Hval, Hz.
  set (hw' := (AudioInit ok hw m).1) in *.
  split; [exact Wm|]. split.
  { rewrite !matrix_entry_cell by (assumption || lia). f_equal. apply Hz. }
  exists (cell m' u (Z.to_nat chan)).
  split; [apply matrix_entry_cell; assumption || lia|].
  rewrite (Hval u (Z.to_nat chan) Hu ltac:(lia)). unfold matrix_value.
  specialize (Hrt u Hu).
  assert (Hchan : in_hw (AudioChannelsInHw hw') (Z.to_nat chan) = ok 44100 chan).
  { rewrite Hin by lia. rewrite Z2Nat.id by lia. reflexivity. }
  destruct (load (AudioRatesInHw hw') u =? 0) eqn:Er.
  - assert (Hno : ~ rate_in_hw ok u) by (rewrite <- Hrt; lia).
    split; [left; reflexivity|]. repeat split; intros; try reflexivity; tauto.
  - assert (Hyes : rate_in_hw ok u) by (apply Hrt; lia).
    rewrite Hchan. destruct (ok 44100 chan) eqn:Eok.
    + rewrite Z2Nat.id by lia.
      split; [right; repeat split; try lia; assumption|].
      repeat split; intros; try reflexivity; try lia; tauto.
    + destruct (convert_to (AudioChannelsInHw hw') (Z.to_nat chan)) as [v|] eqn:Ev.
      * destruct (convert_to_in_hw _ _ _ ltac:(rewrite Hchan; reflexivity) Ev)
          as (k & -> & Hk & Hne & Hk').
        rewrite Hin in Hk' by exact Hk. cbn [from_option id].
        split; [right; repeat split; try lia; assumption|].
        repeat split; intros; try discriminate; try lia; tauto.
      * cbn [from_option id]. split; [left; reflexivity|].
        repeat split; intros; try discriminate; try tauto.
        exfalso.
        destruct (convert_to_stereo (AudioChannelsInHw hw') (Z.to_nat chan)
                    ltac:(lia)) as [v Hv].
        -- rewrite (Hin 2%nat) by lia. assumption.
        -- congruence.
Qed.

Lemma AudioInit_matrix_entries_witness :
  matrix_entry (AudioInit any_channels hw_start matrix_start).2 1 6 = Some 6.
Proof.
  destruct (AudioInit_matrix_entries any_channels hw_start matrix_start 1 6)
    as (_ & _ & hwc & E & _ & H & _).
  - split; reflexivity.
  - split; [reflexivity|]. repeat constructor.
  - cbn. lia.
  - lia.
  - rewrite E. f_equal. apply H; [|reflexivity].
    exists 6, 48000. repeat split; lia.
Defined.

Lemma handled_to_stereo (chan : Z) :
  1 <= chan <= 8 -> Mixer.handled_pair chan 2 = true.
Proof.
  intros H.
  assert (chan = 1 \/ chan = 2 \/ chan = 3 \/ chan = 4 \/ chan = 5 \/ chan = 6
          \/ chan = 7 \/ chan = 8) as Hc by lia.
  repeat (destruct Hc as [->|Hc]; [reflexivity|]). subst. reflexivity.
Qed.

(** X17: hardware that takes stereo and no other channel count.  At every
    rate it takes stereo at, AudioInit maps each channel count from 1 to 8
    to 2, and AudioResample has a conversion for each of these pairs. *)
Theorem AudioInit_stereo_hardware (ok : Z -> Z -> bool) (hw : HwSupport)
    (m : list (list Z)) (u : nat) (rate chan : Z) :
  hw_wf hw -> matrix_wf m -> AudioRatesTable !! u = Some rate -> 1 <= chan <= 8 ->
  (forall c, 1 <= c <= 8 -> ok 44100 c = (c =? 2)) -> ok rate 2 = true ->
  matrix_entry (AudioInit ok hw m).2 u chan = Some 2
  /\ Mixer.handled_pair chan 2 = true.
Proof.
  intros Hwf Hm Hu Hc Hok Hrate.
  split; [|apply handled_to_stereo; exact Hc].
  assert (Hu' : (u < length AudioRatesTable)%nat) by (apply lookup_lt_Some in Hu; exact Hu).
  destruct (AudioInit_tables ok hw m Hwf Hm) as (Wm & Hin & Hrt & Hval & _).
  cbv zeta in Wm, Hin, Hrt, Hval.
  set (hw' := (AudioInit ok hw m).1) in *.
  rewrite matrix_entry_cell by (assumption || lia).
  rewrite (Hval u (Z.to_nat chan) Hu' ltac:(lia)). unfold matrix_value.
  assert (Hyes : load (AudioRatesInHw hw') u <> 0).
  { apply (Hrt u Hu'). exists 2, rate. rewrite Hok by lia. repeat split; try lia; assumption. }
  replace (load (AudioRatesInHw hw') u =? 0) with false by lia.
  assert (Hin' : forall c, (1 <= c <= 8)%nat ->
                   in_hw (AudioChannelsInHw hw') c = (Z.of_nat c =? 2)).
  { intros c Hc'. rewrite Hin by exact Hc'. apply Hok. lia. }
  assert (chan = 1 \/ chan = 2 \/ chan = 3 \/ chan = 4 \/ chan = 5 \/ chan = 6
          \/ chan = 7 \/ chan = 8) as Hcases by lia.
  unfold convert_to.
  repeat (destruct Hcases as [->|Hcases];
          [rewrite !Hin' by (cbn; lia); reflexivity|]).
  subst. rewrite !Hin' by (cbn; lia). reflexivity.
Qed.

Lemma AudioInit_stereo_hardware_witness :
  matrix_entry (AudioInit stereo_only hw_start matrix_start).2 1 6 = Some 2
  /\ Mixer.handled_pair 6 2 = true.
Proof.
  apply (AudioInit_stereo_hardware stereo_only hw_start matrix_start 1 48000 6).
  - split; reflexivity.
  - split; [reflexivity|]. repeat constructor.
  - reflexivity.
  - lia.
  - intros c _. reflexivity.
  - reflexivity.
Defined.

(** X18: hardware that takes four channels but not three.  AudioInit maps
    three channels to four at every rate the hardware takes four channels
    at, AudioRingAdd then accepts a stream of three channels and sets the ring
    buffer up for four, and AudioResample has no conversion for this pair: it
    hands out silence. *)
Theorem AudioInit_negotiates_unconvertible (ok : Z -> Z -> bool) (hw : HwSupport)
    (m : list (list Z)) (u : nat) (rate : Z) :
  hw_wf hw -> matrix_wf m -> AudioRatesTable !! u = Some rate ->
  ok 44100 3 = false -> ok 44100 4 = true -> ok rate 4 = true ->
  let m' := (AudioInit ok hw m).2 in
  matrix_entry m' u 3 = Some 4
  /\ (forall (st : AudioState) (passthrough : Z),
        AudioChannelMatrix st = m' -> ring_wf st ->
        AudioRingFilled st <> AUDIO_RING_MAX ->
        exists st',
          AudioRingAdd st rate 3 passthrough = Some (RingAddOk, st')
          /\ InChannels (slot st' (AudioRingWrite st')) = 3
          /\ HwChannels (slot st' (AudioRingWrite st')) = 4)
  /\ (forall (inb out : list Z) (frames : nat),
        Mixer.AudioResample inb 3 frames out 4
        = Mixer.Unsupported (memset_zero out (Z.to_nat (Z.of_nat frames * 4)))).
Proof.
  intros Hwf Hm Hu H3 H4 Hrate m'.
  assert (Hu' : (u < length AudioRatesTable)%nat) by (apply lookup_lt_Some in Hu; exact Hu).
  assert (E : matrix_entry m' u 3 = Some 4).
  { destruct (AudioInit_tables ok hw m Hwf Hm) as (Wm & Hin & Hrt & Hval & _).
    cbv zeta in Wm, Hin, Hrt, Hval. fold m' in Wm, Hval.
    set (hw' := (AudioInit ok hw m).1) in *.
    rewrite matrix_entry_cell by (assumption || lia).
    rewrite (Hval u (Z.to_nat 3) Hu' ltac:(lia)). unfold matrix_value.
    assert (Hyes : load (AudioRatesInHw hw') u <> 0).
    { apply (Hrt u Hu'). exists 4, rate. repeat split; try lia; assumption. }
    replace (load (AudioRatesInHw hw') u =? 0) with false by lia.
    change (Z.to_nat 3) with 3%nat.
    rewrite (Hin 3%nat) by lia. change (Z.of_nat 3) with 3. rewrite H3.
    unfold convert_to. rewrite (Hin 4%nat) by lia. change (Z.of_nat 4) with 4.
    rewrite H4. reflexivity. }
  split; [exact E|]. split; [|reflexivity].
  intros st passthrough Hmat [Hlen Hw] Hfill. unfold AudioRingAdd.
  apply search_rate_found in Hu. rewrite Hu, Hmat, E.
  replace (4 =? 0) with false by reflexivity.
  replace (AudioRingFilled st =? AUDIO_RING_MAX) with false by lia.
  eexists. split; [reflexivity|].
  cbn [AudioRingWrite]. unfold slot. cbn [AudioRing].
  rewrite slot_set_slot.
  - split; reflexivity.
  - rewrite Hlen. unfold AUDIO_RING_MAX in *.
    pose proof (Z.rem_bound_pos (AudioRingWrite st + 1) 8 ltac:(lia) ltac:(lia)). lia.
Qed.

Lemma AudioInit_negotiates_unconvertible_witness :
  matrix_entry (AudioInit quad_only hw_start matrix_start).2 2 3 = Some 4.
Proof.
  apply (AudioInit_negotiates_unconvertible quad_only hw_start matrix_start 2 192000).
  - split; reflexivity.
  - split; [reflexivity|]. repeat constructor.
  - reflexivity.
  - reflexivity.
  - reflexivity.
  - reflexivity.
Defined.

(** X19: on hardware that takes every channel count from 1 to 8 at every
    rate, AudioInit started from the zeroed static matrix builds the matrix
    of the start state used for the ring: every channel count maps to
    itself, and column 0 stays 0. *)
Theorem AudioInit_full_hardware (ok : Z -> Z -> bool) (hw : HwSupport)
    (u : nat) (chan : Z) :
  hw_wf hw -> (u < length AudioRatesTable)%nat -> 0 <= chan <= 8 ->
  (forall rate c, 1 <= c <= 8 -> ok rate c = true) ->
  matrix_entry (AudioInit ok hw matrix_start).2 u chan = Some chan
  /\ matrix_entry (AudioChannelMatrix ring_start) u chan = Some chan.
Proof.
  intros Hwf Hu Hc Hok.
  assert (Hm : matrix_wf matrix_start) by (split; [reflexivity|repeat constructor]).
  split.
  - destruct (AudioInit_tables ok hw matrix_start Hwf Hm) as (Wm & Hin & Hrt & Hval & Hz).
    cbv zeta in Wm, Hin, Hrt, Hval, Hz.
    set (hw' := (AudioInit ok hw matrix_start).1) in *.
    rewrite matrix_entry_cell by (assumption || lia). f_equal.
    destruct (Z.eq_dec chan 0) as [->|Hnz].
    + change (Z.to_nat 0) with 0%nat. rewrite Hz.
      unfold AudioRatesTable in Hu. cbn [length] in Hu.
      destruct u as [|[|[|u]]]; [reflexivity|reflexivity|reflexivity|lia].
    + rewrite (Hval u (Z.to_nat chan) Hu ltac:(lia)). unfold matrix_value.
      assert (Hyes : load (AudioRatesInHw hw') u <> 0).
      { apply (Hrt u Hu).
        destruct (lookup_lt_is_Some_2 AudioRatesTable u Hu) as [rate Hrate].
        exists 1, rate. rewrite !Hok by lia. repeat split; try lia; assumption. }
      replace (load (AudioRatesInHw hw') u =? 0) with false by lia.
      rewrite Hin by lia. rewrite Hok by lia. apply Z2Nat.id. lia.
  - unfold AudioRatesTable in Hu. cbn [length] in Hu.
    assert (chan = 0 \/ chan = 1 \/ chan = 2 \/ chan = 3 \/ chan = 4 \/ chan = 5
            \/ chan = 6 \/ chan = 7 \/ chan = 8) as Hcases by lia.
    destruct u as [|[|[|u]]]; [| | |lia];
      repeat (destruct Hcases as [->|Hcases]; [reflexivity|]); subst; reflexivity.
Qed.

Lemma AudioInit_full_hardware_witness :
  matrix_entry (AudioInit any_channels hw_start matrix_start).2 2 8 = Some 8.
Proof.
  apply (AudioInit_full_hardware any_channels hw_start 2 8).
  - split; reflexivity.
  - cbn. lia.
  - lia.
  - intros rate c _. reflexivity.
Defined.

End InitFacts.

(** ** The start threshold and the start of playback *)

Section SetupFacts.
Import Ring Sync Setup.

Lemma AlsaSetup_threshold_exact (st : AudioState) (period_bytes freq channels : Z) :
  0 <= period_bytes < 2 ^ 32 -> 0 <= freq -> 0 <= channels ->
  0 <= AudioBufferTime st -> 0 <= start_delay st <= INT_MAX ->
  freq * channels * AudioBytesProSample * start_delay st <= INT_MAX ->
  AlsaSetup_threshold st period_bytes freq channels
  = Z.min (Z.max period_bytes
             (freq * channels * AudioBytesProSample * start_delay st / 1000))
          (AudioRingBufferSize / 3).
Proof.
  intros Hp Hf Hc Hb Hd Hprod. unfold AlsaSetup_threshold.
  assert (Edel : (if VideoAudioDelay st >? 0
                  then to_int (AudioBufferTime st + cdiv (VideoAudioDelay st) 90)
                  else AudioBufferTime st) = start_delay st).
  { unfold start_delay in *. destruct (VideoAudioDelay st >? 0); [|lia].
    apply to_int_id. unfold is_int, INT_MIN, INT_MAX in *. lia. }
  rewrite Edel. clear Edel.
  unfold INT_MAX, AudioBytesProSample in *.
  set (delay := start_delay st) in *.
  rewrite (to_unsigned_id period_bytes) by lia.
  assert (Ebytes : to_unsigned
                     (to_int (to_int (to_int (freq * channels) * 2) * delay))
                   = freq * channels * 2 * delay).
  { destruct (Z.eq_dec delay 0) as [->|Hnz].
    - rewrite !Z.mul_0_r. reflexivity.
    - rewrite (to_int_id (freq * channels)) by (unfold is_int, INT_MIN, INT_MAX; nia).
      rewrite (to_int_id (freq * channels * 2)) by (unfold is_int, INT_MIN, INT_MAX; nia).
      rewrite (to_int_id (freq * channels * 2 * delay))
        by (unfold is_int, INT_MIN, INT_MAX; nia).
      apply to_unsigned_id. nia. }
  rewrite Ebytes.
  destruct (period_bytes <? freq * channels * 2 * delay / 1000) eqn:E1.
  - destruct (freq * channels * 2 * delay / 1000 >? AudioRingBufferSize / 3) eqn:E2; lia.
  - destruct (period_bytes >? AudioRingBufferSize / 3) eqn:E2; lia.
Qed.

(** X20: the start threshold AlsaSetup stores never exceeds a third of the
    ring buffer, whatever the device reports; without overflow it is the
    larger of the period size in bytes and the bytes of the buffer time at
    the format, capped at that third. *)
Theorem AlsaSetup_threshold_capped (st : AudioState) (period_bytes freq channels : Z) :
  0 <= AlsaSetup_threshold st period_bytes freq channels <= AudioRingBufferSize / 3
  /\ (0 <= period_bytes < 2 ^ 32 -> 0 <= freq -> 0 <= channels ->
      0 <= AudioBufferTime st -> 0 <= start_delay st <= INT_MAX ->
      freq * channels * AudioBytesProSample * start_delay st <= INT_MAX ->
      AlsaSetup_threshold st period_bytes freq channels
      = Z.min (Z.max period_bytes
                 (freq * channels * AudioBytesProSample * start_delay st / 1000))
              (AudioRingBufferSize / 3)).
Proof.
  split; [|apply AlsaSetup_threshold_exact].
  unfold AlsaSetup_threshold. cbv zeta.
  set (bytes := to_unsigned _ / 1000).
  assert (Hb : 0 <= bytes).
  { unfold bytes. apply Z.div_pos; [|lia]. unfold to_unsigned, wrap_unsigned.
    apply Z.mod_pos_bound. lia. }
  assert (Hp : 0 <= to_unsigned period_bytes).
  { unfold to_unsigned, wrap_unsigned. apply Z.mod_pos_bound. lia. }
  assert (Hs : 0 <= AudioRingBufferSize / 3) by (vm_compute; discriminate).
  destruct (to_unsigned period_bytes <? bytes) eqn:E1.
  - destruct (bytes >? AudioRingBufferSize / 3) eqn:E2; lia.
  - destruct (to_unsigned period_bytes >? AudioRingBufferSize / 3) eqn:E2; lia.
Qed.

Lemma AlsaSetup_threshold_capped_witness :
  AlsaSetup_threshold sync_state 4608 48000 2 = 64512.
Proof.
  destruct (AlsaSetup_threshold_capped sync_state 4608 48000 2) as [_ H].
  rewrite H; [reflexivity|vm_compute; split; congruence|lia|lia
             |vm_compute; congruence|vm_compute; split; congruence
             |vm_compute; congruence].
Defined.

(** X21: where the buffer time at the format is a quarter of the ring buffer
    or more, four times the threshold AlsaSetup stores is no less than the
    ring buffer holds, so the start check of AudioEnqueue never starts
    playback before the video is ready, however many bytes are buffered. *)
Theorem AudioEnqueue_start_waits_for_video (st : AudioState)
    (period_bytes freq channels : Z) :
  let st' := AlsaSetup_done st period_bytes freq channels in
  AudioRunning st = false -> AudioVideoIsReady st = false ->
  0 <= RingBufferUsedBytes (Buffer (slot st (AudioRingWrite st)))
    <= AudioRingBufferSize ->
  0 <= period_bytes < 2 ^ 32 -> 0 <= freq -> 0 <= channels ->
  0 <= AudioBufferTime st -> 0 <= start_delay st <= INT_MAX ->
  freq * channels * AudioBytesProSample * start_delay st <= INT_MAX ->
  AudioRingBufferSize * 250
  <= freq * channels * AudioBytesProSample * start_delay st ->
  AudioRingBufferSize <= 4 * AudioStartThreshold st'
  /\ AudioRunning (AudioEnqueue_start_check st') = false.
Proof.
  intros st' Hrun Hvid Hused Hp Hf Hc Hb Hd Hprod Hbig.
  assert (Ethr : AudioStartThreshold st'
                 = Z.min (Z.max period_bytes
                            (freq * channels * AudioBytesProSample * start_delay st
                             / 1000))
                         (AudioRingBufferSize / 3))
    by (apply AlsaSetup_threshold_exact; assumption).
  assert (Hq : AudioRingBufferSize / 4
               <= freq * channels * AudioBytesProSample * start_delay st / 1000).
  { change (AudioRingBufferSize / 4) with 420000.
    apply Z.div_le_lower_bound; [lia|].
    change AudioRingBufferSize with 1680000 in Hbig. lia. }
  assert (Hthr : 420000 <= AudioStartThreshold st' <= 560000).
  { rewrite Ethr. change (AudioRingBufferSize / 3) with 560000.
    change (AudioRingBufferSize / 4) with 420000 in Hq. lia. }
  change AudioRingBufferSize with 1680000 in *.
  split; [lia|].
  unfold AudioEnqueue_start_check.
  change (AudioRunning st') with (AudioRunning st). rewrite Hrun. cbn [negb].
  change (AudioVideoIsReady st') with (AudioVideoIsReady st). rewrite Hvid.
  change (AudioRingWrite st') with (AudioRingWrite st).
  change (slot st' (AudioRingWrite st)) with (slot st (AudioRingWrite st)).
  set (w := slot st (AudioRingWrite st)) in *.
  unfold RingBufferUsedBytes in Hused.
  cbn [andb orb].
  match goal with
  | |- AudioRunning (let '(rb, audio_skip) := ?p in _) = false =>
      assert (Hrb : 0 <= Filled p.1 <= 1680000); [|destruct p as [rb skip']]
  end.
  { destruct (negb (AudioSkip st' =? 0)); cbn [fst]; [|exact Hused].
    unfold RingBufferReadAdvance. cbn [fst Filled].
    match goal with |- context [if ?c >? ?f then _ else _] =>
      assert (0 <= c) by (unfold to_size_t, wrap_unsigned; apply Z.mod_pos_bound; lia);
      destruct (c >? f) eqn:?
    end; lia. }
  cbn [fst] in Hrb. cbn [AudioRunning].
  unfold RingBufferUsedBytes.
  rewrite (to_size_t_id (Filled rb)) by lia.
  rewrite (to_unsigned_id (AudioStartThreshold st' * 4)) by lia.
  replace (AudioStartThreshold st' * 4 <? Filled rb) with false by lia.
  cbn [orb]. reflexivity.
Qed.

Lemma AudioEnqueue_start_waits_for_video_witness :
  AudioRunning (AudioEnqueue_start_check (AlsaSetup_done sync_state 4608 192000 6))
  = false.
Proof.
  apply (AudioEnqueue_start_waits_for_video sync_state 4608 192000 6);
    vm_compute; try reflexivity; try (split; congruence); congruence.
Defined.

End SetupFacts.
